(** * objectbox-go: the query layer and the binding template

    A shallow embedding of [objectbox/query.go] (package [objectbox]) and of
    the [Flatten] / [ToObject] parts of [BindingTemplate] (package
    [templates]), with the properties of the specification stated over it.

    Conventions.
    - A Go [uint64] is a [Z] in [0, 2^64); additions wrap with [wrap64].
    - A Go [error] value is an [option error]; [None] is [nil].
    - A C pointer is an [option] of an address; [None] is [NULL] / [nil].
    - Calls into the native library are recorded, in order, in a trace; what
      the library answers is given by an arbitrary oracle [Native], so every
      statement holds for every behaviour of the native side.
    - [closeMutex] only serialises concurrent callers; the embedding is
      sequential and leaves it out. *)

From Stdlib Require Import ZArith Ascii String List Lia Bool PrimFloat.
From stdpp Require Import base option list strings gmap pretty.

Local Open Scope Z_scope.

(* ===================================================================== *)
(** ** Go values shared by both packages *)
(* ===================================================================== *)

Module Go.

(** A call either returns or panics. *)
Inductive outcome (A : Type) : Type :=
| Returned (a : A)
| Panicked (msg : string).
Arguments Returned {A} a.
Arguments Panicked {A} msg.

(** A slice: [nil], or a view of a backing array. [elems] are the [len]
    visible elements, [spare] the rest of the backing array up to [cap]. *)
Inductive slice (A : Type) : Type :=
| nil_slice
| mk_slice (elems spare : list A).
Arguments nil_slice {A}.
Arguments mk_slice {A} elems spare.

Definition elements {A} (s : slice A) : list A :=
  match s with
  | nil_slice => []
  | mk_slice e _ => e
  end.

Definition backing {A} (s : slice A) : list A :=
  match s with
  | nil_slice => []
  | mk_slice e sp => e ++ sp
  end.

Definition len {A} (s : slice A) : Z := Z.of_nat (length (elements s)).
Definition cap {A} (s : slice A) : Z := Z.of_nat (length (backing s)).

Definition is_nil {A} (s : slice A) : bool :=
  match s with
  | nil_slice => true
  | mk_slice _ _ => false
  end.

(** The slice expression [s[low:high]]: in range iff
    [0 <= low <= high <= cap(s)], a run-time panic otherwise. Slicing the nil
    slice (only possible as [nil[0:0]]) gives nil. *)
Definition slice_expr {A} (s : slice A) (low high : Z) : outcome (slice A) :=
  if (0 <=? low) && (low <=? high) && (high <=? cap s) then
    match s with
    | nil_slice => Returned nil_slice
    | mk_slice _ _ =>
        Returned (mk_slice
                    (take (Z.to_nat (high - low)) (drop (Z.to_nat low) (backing s)))
                    (drop (Z.to_nat high) (backing s)))
    end
  else Panicked "slice bounds out of range".

(** The three ways this code makes an [error]. [createError] is not part of
    the files at hand: it wraps the native library's last error (code and
    message). *)
Inductive error : Type :=
| errors_New (msg : string)
| fmt_Errorf (msg : string)
| NativeError (code : Z) (msg : string).

Definition wrap64 (z : Z) : Z := z mod 2 ^ 64.

(** [C.int(n)]: conversion to a 32-bit C int. *)
Definition C_int (z : Z) : Z := (z + 2 ^ 31) mod 2 ^ 32 - 2 ^ 31.

End Go.

(* ===================================================================== *)
(** ** package objectbox: query.go *)
(* ===================================================================== *)

Module objectbox.
Import Go.

Definition TypeId := Z.
Definition OBX_query := N.
Definition OBX_cursor := N.

(** [type Property interface { propertyId() TypeId; entityId() TypeId }],
    for a non-nil implementation. *)
Record Property : Type := {
  propertyId : TypeId;
  entityId : TypeId
}.

(** The calls into the native library, with their arguments. *)
Inductive NativeCall : Type :=
| obx_cursor_open (typeId : TypeId) (readOnly : bool)
| obx_cursor_close (c : OBX_cursor)
| obx_last_error
| obx_query_close (q : option OBX_query)
| obx_query_describe_params (q : option OBX_query)
| obx_query_count (q : option OBX_query) (c : OBX_cursor)
| obx_query_remove (q : option OBX_query) (c : OBX_cursor)
| obx_query_find_ids (q : option OBX_query) (c : OBX_cursor)
| obx_id_array_free
| obx_query_find (q : option OBX_query) (c : OBX_cursor) (offset limit : Z)
| obx_bytes_array_free
| obx_query_string_param (q : option OBX_query) (entity property : TypeId) (value : string)
| obx_query_string_params_in (q : option OBX_query) (entity property : TypeId)
                             (values : list string) (size : Z)
| obx_query_int_param (q : option OBX_query) (entity property : TypeId) (value : Z)
| obx_query_int_params (q : option OBX_query) (entity property : TypeId) (a b : Z)
| obx_query_int64_params_in (q : option OBX_query) (entity property : TypeId)
                            (values : list Z) (count : Z)
| obx_query_int32_params_in (q : option OBX_query) (entity property : TypeId)
                            (values : list Z) (count : Z)
| obx_query_double_param (q : option OBX_query) (entity property : TypeId) (value : float)
| obx_query_double_params (q : option OBX_query) (entity property : TypeId) (a b : float)
| obx_query_bytes_param (q : option OBX_query) (entity property : TypeId)
                        (value : list Byte.byte) (size : Z).

Definition trace := list NativeCall.

(** What the native library answers. Every field receives the trace up to
    and including the call being answered. *)
Record Native : Type := {
  ret_code : trace -> Z;                          (* the [int] / [obx_err] result *)
  out_count : trace -> Z;                         (* written through [&cCount] *)
  out_string : trace -> string;                   (* [obx_query_describe_params] *)
  out_ids : trace -> option (slice Z);            (* [None]: a NULL id array *)
  out_bytes : trace -> option (list (list Byte.byte)); (* [None]: a NULL bytes array *)
  out_cursor : trace -> option OBX_cursor;        (* [None]: no cursor could be had *)
  out_error : trace -> Z * string                 (* last error code and message *)
}.

(** Computations that talk to the native library thread the trace. *)
Definition Nat (A : Type) : Type := trace -> A * trace.

Definition ret {A} (a : A) : Nat A := fun t => (a, t).

Definition bind {A B} (m : Nat A) (k : A -> Nat B) : Nat B :=
  fun t => let (a, t') := m t in k a t'.

Declare Scope native_scope.
Delimit Scope native_scope with native.
Notation "'let*' x ':=' m 'in' k" := (bind m (fun x => k))
  (at level 10, x name, m at level 100, k at level 200) : native_scope.
Notation "'let*' ( x , y ) ':=' m 'in' k" := (bind m (fun xy => let (x, y) := xy in k))
  (at level 10, x name, y name, m at level 100, k at level 200) : native_scope.
Local Open Scope native_scope.

(** Perform a native call; the result is the trace the oracle is asked on. *)
Definition call (c : NativeCall) : Nat trace := fun t => (t ++ [c], t ++ [c]).

Record Query : Type := {
  typeId : TypeId;
  objectBox : N;
  cQuery : option OBX_query;
  offset : Z;
  limit : Z
}.

Definition set_cQuery (query : Query) (p : option OBX_query) : Query :=
  {| typeId := typeId query; objectBox := objectBox query; cQuery := p;
     offset := offset query; limit := limit query |}.

(** Modelled from the spec: the binding of a type is generated code (package
    [templates]) that this package calls through an interface; an object is
    given here as what the binding of its type decodes from a raw buffer
    ([ToObject(bytes)]). *)
Inductive Object : Type :=
| ToObject_of (typeId : TypeId) (bytes : list Byte.byte).

(** The type-erased [interface{}] results of [find]: nil, the integer that
    [find] returns on a closed query, or the collection of the objects. *)
Inductive iface : Type :=
| iface_nil
| iface_int (z : Z)
| iface_objects (objects : list Object).

Definition nonzero (z : Z) : bool := negb (z =? 0).

Section WithNative.
Variable native : Native.

(** Modelled from the spec: [createError] is not in the files at hand; it
    wraps the native engine's reported failure (code + message). *)
Definition createError : Nat error :=
  let* t := call obx_last_error in
  ret (NativeError (fst (out_error native t)) (snd (out_error native t))).

(** Turn a return code into the [error] the setters and [Close] report. *)
Definition check_rc (rc : Z) : Nat (option error) :=
  if nonzero rc then (let* e := createError in ret (Some e)) else ret None.

(** Modelled from the spec: [ObjectBox.runWithCursor] is not in the files
    at hand. Execution against the native store is scoped to a single
    cursor acquisition per call: the cursor is acquired (which may fail,
    and then the function is not run), the function runs with it, and the
    cursor is released; a failure of the release surfaces when the
    function itself reported none. [zero] is the value the caller's named
    result holds when the function never ran. *)
Definition runWithCursor {A} (tid : TypeId) (readOnly : bool) (zero : A)
    (cursorFun : OBX_cursor -> Nat (A * option error)) : Nat (A * option error) :=
  let* t := call (obx_cursor_open tid readOnly) in
  match out_cursor native t with
  | None => let* e := createError in ret (zero, Some e)
  | Some c =>
      let* (a, err) := cursorFun c in
      let* t2 := call (obx_cursor_close c) in
      let* err2 := check_rc (ret_code native t2) in
      ret (a, match err with
              | None => err2
              | Some _ => err
              end)
  end.

Definition Close (query : Query) : Nat (option error * Query) :=
  match cQuery query with
  | Some h =>
      let* t := call (obx_query_close (Some h)) in
      let rc := ret_code native t in
      let query' := set_cQuery query None in
      if nonzero rc then (let* e := createError in ret (Some e, query'))
      else ret (None, query')
  | None => ret (None, query)
  end.

Definition errorClosed (query : Query) : error :=
  errors_New "illegal state; query was closed".

Definition Offset (query : Query) (o : Z) : Query :=
  {| typeId := typeId query; objectBox := objectBox query; cQuery := cQuery query;
     offset := o; limit := limit query |}.

Definition Limit (query : Query) (l : Z) : Query :=
  {| typeId := typeId query; objectBox := objectBox query; cQuery := cQuery query;
     offset := offset query; limit := l |}.

Definition count (query : Query) (cursor : OBX_cursor) : Nat (Z * option error) :=
  match cQuery query with
  | None => ret (0, Some (errorClosed query))
  | Some h =>
      let* t := call (obx_query_count (Some h) cursor) in
      if nonzero (ret_code native t) then (let* e := createError in ret (0, Some e))
      else ret (wrap64 (out_count native t), None)
  end.

Definition remove (query : Query) (cursor : OBX_cursor) : Nat (Z * option error) :=
  match cQuery query with
  | None => ret (0, Some (errorClosed query))
  | Some h =>
      let* t := call (obx_query_remove (Some h) cursor) in
      if nonzero (ret_code native t) then (let* e := createError in ret (0, Some e))
      else ret (wrap64 (out_count native t), None)
  end.

Definition findIds (query : Query) (cursor : OBX_cursor)
    : Nat (slice Z * option error) :=
  match cQuery query with
  | None => ret (nil_slice, Some (errorClosed query))
  | Some h =>
      let* t := call (obx_query_find_ids (Some h) cursor) in
      match out_ids native t with
      | None => let* e := createError in ret (nil_slice, Some e)
      | Some ids =>
          (* [defer idsArray.free()] runs once the results are set *)
          let* _ := call obx_id_array_free in
          ret (ids, None)
      end
  end.

(** Modelled from the spec: [cursor.cBytesArrayToObjects] is not in the files
    at hand. It decodes each returned raw buffer via the binding of the
    cursor's type, in the order of the native array, into the type-erased
    collection, and hands the native bytes array back to be freed. *)
Definition cBytesArrayToObjects (tid : TypeId) (cBytesArray : list (list Byte.byte))
    : Nat iface :=
  let* _ := call obx_bytes_array_free in
  ret (iface_objects (map (ToObject_of tid) cBytesArray)).

Definition find (query : Query) (cursor : OBX_cursor) : Nat (iface * option error) :=
  match cQuery query with
  | None => ret (iface_int 0, Some (errorClosed query))
  | Some h =>
      let* t := call (obx_query_find (Some h) cursor (offset query) (limit query)) in
      match out_bytes native t with
      | None => let* e := createError in ret (iface_nil, Some e)
      | Some cBytesArray =>
          let* objects := cBytesArrayToObjects (typeId query) cBytesArray in
          ret (objects, None)
      end
  end.

Definition Find (query : Query) : Nat (iface * option error) :=
  runWithCursor (typeId query) true iface_nil (fun cursor => find query cursor).

(** The guard of [FindIds], with Go's precedence: [&&] binds tighter than
    [||] and both associate to the left. *)
Definition FindIds_guard (query : Query) (ids : slice Z) (err : option error) : bool :=
  nonzero (offset query)
  || (nonzero (limit query) && bool_decide (err = None)) && negb (is_nil ids).

Definition FindIds_endOffset (query : Query) (ids : slice Z) : Z :=
  let endOffset := len ids in
  if nonzero (limit query) && (wrap64 (offset query + limit query) <? endOffset)
  then wrap64 (offset query + limit query)
  else endOffset.

(** The part of [FindIds] after the cursor call. *)
Definition FindIds_paginate (query : Query) (ids : slice Z) (err : option error)
    : outcome (slice Z * option error) :=
  if FindIds_guard query ids err then
    match slice_expr ids (offset query) (FindIds_endOffset query ids) with
    | Returned s => Returned (s, None)
    | Panicked msg => Panicked msg
    end
  else Returned (ids, err).

Definition FindIds (query : Query) : Nat (outcome (slice Z * option error)) :=
  let* (ids, err) := runWithCursor (typeId query) true nil_slice
                   (fun cursor => findIds query cursor) in
  ret (FindIds_paginate query ids err).

Definition Count (query : Query) : Nat (Z * option error) :=
  if nonzero (offset query) || nonzero (limit query) then
    ret (0, Some (fmt_Errorf "limit/offset are not supported by Count at this moment"))
  else
    runWithCursor (typeId query) true 0 (fun cursor => count query cursor).

Definition Remove (query : Query) : Nat (Z * option error) :=
  if nonzero (offset query) || nonzero (limit query) then
    ret (0, Some (fmt_Errorf "limit/offset are not supported by Remove at this moment"))
  else
    runWithCursor (typeId query) false 0 (fun cursor => remove query cursor).

Definition Describe (query : Query) : Nat (string * option error) :=
  match cQuery query with
  | None => ret (EmptyString, Some (errorClosed query))
  | Some h =>
      let* t := call (obx_query_describe_params (Some h)) in
      ret (out_string native t, None)
  end.

(** The parameter setters. None of them looks at [query.cQuery] before
    handing it to the native call. [C.CString] / [C.free] only allocate
    and release the C copy of the string. *)
Definition SetStringParams (query : Query) (property : Property)
    (values : list string) : Nat (option error) :=
  match values with
  | [] => ret (Some (fmt_Errorf "no values given"))
  | [v] =>
      let* t := call (obx_query_string_param (cQuery query) (entityId property)
                   (propertyId property) v) in
      check_rc (ret_code native t)
  | _ => ret (Some (fmt_Errorf "too many values given"))
  end.

Definition SetStringParamsIn (query : Query) (property : Property)
    (values : list string) : Nat (option error) :=
  match values with
  | [] => ret (Some (fmt_Errorf "no values given"))
  | _ =>
      let* t := call (obx_query_string_params_in (cQuery query) (entityId property)
                   (propertyId property) values (C_int (Z.of_nat (length values)))) in
      check_rc (ret_code native t)
  end.

Definition SetInt64Params (query : Query) (property : Property)
    (values : list Z) : Nat (option error) :=
  match values with
  | [] => ret (Some (fmt_Errorf "no values given"))
  | [v] =>
      let* t := call (obx_query_int_param (cQuery query) (entityId property)
                   (propertyId property) v) in
      check_rc (ret_code native t)
  | [a; b] =>
      let* t := call (obx_query_int_params (cQuery query) (entityId property)
                   (propertyId property) a b) in
      check_rc (ret_code native t)
  | _ => ret (Some (fmt_Errorf "too many values given"))
  end.

Definition SetInt64ParamsIn (query : Query) (property : Property)
    (values : list Z) : Nat (option error) :=
  match values with
  | [] => ret (Some (fmt_Errorf "no values given"))
  | _ =>
      let* t := call (obx_query_int64_params_in (cQuery query) (entityId property)
                   (propertyId property) values (C_int (Z.of_nat (length values)))) in
      check_rc (ret_code native t)
  end.

Definition SetInt32ParamsIn (query : Query) (property : Property)
    (values : list Z) : Nat (option error) :=
  match values with
  | [] => ret (Some (fmt_Errorf "no values given"))
  | _ =>
      let* t := call (obx_query_int32_params_in (cQuery query) (entityId property)
                   (propertyId property) values (C_int (Z.of_nat (length values)))) in
      check_rc (ret_code native t)
  end.

Definition SetFloat64Params (query : Query) (property : Property)
    (values : list float) : Nat (option error) :=
  match values with
  | [] => ret (Some (fmt_Errorf "no values given"))
  | [v] =>
      let* t := call (obx_query_double_param (cQuery query) (entityId property)
                   (propertyId property) v) in
      check_rc (ret_code native t)
  | [a; b] =>
      let* t := call (obx_query_double_params (cQuery query) (entityId property)
                   (propertyId property) a b) in
      check_rc (ret_code native t)
  | _ => ret (Some (fmt_Errorf "too many values given"))
  end.

Definition SetBytesParams (query : Query) (property : Property)
    (values : list (list Byte.byte)) : Nat (option error) :=
  match values with
  | [] => ret (Some (fmt_Errorf "no values given"))
  | [v] =>
      let* t := call (obx_query_bytes_param (cQuery query) (entityId property)
                   (propertyId property) v (Z.of_nat (length v))) in
      check_rc (ret_code native t)
  | _ => ret (Some (fmt_Errorf "too many values given"))
  end.

End WithNative.

(** *** Vocabulary of the statements below *)

(** A setter call that was turned down with a usage error, before any
    native call: the trace is the one it started with. *)
Definition usage_error (msg : string) (t : trace) (r : option error * trace) : Prop :=
  r = (Some (fmt_Errorf msg), t).

(** A setter call that went through to exactly the native call [c]; what it
    returns is decided by the return code of that call. *)
Definition passed_on (native : Native) (c : NativeCall) (t : trace)
    (r : option error * trace) : Prop :=
  r = check_rc native (ret_code native (t ++ [c])) (t ++ [c]).

(** Pagination in the words of the specification: skip the first [offset]
    entries, then cap the remainder to [limit] entries, 0 meaning
    unlimited. *)
Definition paginate_spec (offset limit : Z) (ids : list Z) : list Z :=
  let rest := drop (Z.to_nat offset) ids in
  if limit =? 0 then rest else take (Z.to_nat limit) rest.

(** The guard of [FindIds] as the specification reads it. *)
Definition guard_spec (offset limit : Z) (err : option error) (ids : slice Z) : Prop :=
  offset <> 0 \/ (limit <> 0 /\ err = None /\ ids <> nil_slice).

(** The slicing branch of [FindIds]: [return ids[offset:endOffset], nil]. *)
Definition slicing_branch (query : Query) (ids : slice Z)
    : outcome (slice Z * option error) :=
  match slice_expr ids (offset query) (FindIds_endOffset query ids) with
  | Returned s => Returned (s, None)
  | Panicked msg => Panicked msg
  end.

(** The identifiers a call of [FindIds] returned, when it returned without
    error. *)
Definition returned_ids (r : outcome (slice Z * option error)) : option (list Z) :=
  match r with
  | Returned (s, None) => Some (elements s)
  | _ => None
  end.

Definition is_closed_error (err : option error) : Prop :=
  err = Some (errors_New "illegal state; query was closed").

(** *** A well-behaved native side, for the examples

    Every call succeeds, the cursor is 1, and the identifier query answers
    the given list. *)
Definition native_with_ids (ids : list Z) : Native :=
  {| ret_code := fun _ => 0;
     out_count := fun _ => Z.of_nat (length ids);
     out_string := fun _ => EmptyString;
     out_ids := fun _ => Some (mk_slice ids []);
     out_bytes := fun _ => Some [];
     out_cursor := fun _ => Some 1%N;
     out_error := fun _ => (0, EmptyString) |}.

(** A native side on which every call succeeds and the object query gives
    the raw buffers [bufs]. *)
Definition native_with_buffers (bufs : list (list Byte.byte)) : Native :=
  {| ret_code := fun _ => 0;
     out_count := fun _ => Z.of_nat (length bufs);
     out_string := fun _ => EmptyString;
     out_ids := fun _ => None;
     out_bytes := fun _ => Some bufs;
     out_cursor := fun _ => Some 1%N;
     out_error := fun _ => (0, EmptyString) |}.

(** A native side on which every call fails. *)
Definition native_failing : Native :=
  {| ret_code := fun _ => 10001;
     out_count := fun _ => 0;
     out_string := fun _ => EmptyString;
     out_ids := fun _ => None;
     out_bytes := fun _ => None;
     out_cursor := fun _ => Some 1%N;
     out_error := fun _ => (10001, "native failure") |}.

Definition open_query (o l : Z) : Query :=
  {| typeId := 1; objectBox := 1%N; cQuery := Some 7%N; offset := o; limit := l |}.

Definition some_property : Property := {| propertyId := 2; entityId := 1 |}.

Definition ten_ids : list Z := [0; 1; 2; 3; 4; 5; 6; 7; 8; 9].

(** *** The finalizer, and programs over a query *)

(** What [fmt.Printf] is given to print. *)
Inductive Output : Type :=
| Printf (format : string) (arg : error).

(** The operations of a [Query], as a program may apply them one after the
    other; [op_Finalizer] is the run of [queryFinalizer] by the collector. *)
Inductive Op : Type :=
| op_Close
| op_Finalizer
| op_Find
| op_FindIds
| op_Count
| op_Remove
| op_Describe
| op_Offset (o : Z)
| op_Limit (l : Z)
| op_SetStringParams (property : Property) (values : list string)
| op_SetStringParamsIn (property : Property) (values : list string)
| op_SetInt64Params (property : Property) (values : list Z)
| op_SetInt64ParamsIn (property : Property) (values : list Z)
| op_SetInt32ParamsIn (property : Property) (values : list Z)
| op_SetFloat64Params (property : Property) (values : list float)
| op_SetBytesParams (property : Property) (values : list (list Byte.byte)).

Section Programs.
Variable native : Native.

(** [queryFinalizer]: closes the query and prints the error of the close,
    if there is one. *)
Definition queryFinalizer (query : Query) : Nat (list Output * Query) :=
  let* (err, query') := Close native query in
  match err with
  | Some e => ret ([Printf "Error while finalizer closed query: %s" e], query')
  | None => ret ([], query')
  end.

(** Apply one operation; its results are dropped, the query object and the
    trace of native calls are kept. A panic of [FindIds] is taken as
    recovered by the caller. *)
Definition apply_op (op : Op) (query : Query) : Nat Query :=
  match op with
  | op_Close => let* (e, q) := Close native query in ret q
  | op_Finalizer => let* (o, q) := queryFinalizer query in ret q
  | op_Find => let* r := Find native query in ret query
  | op_FindIds => let* r := FindIds native query in ret query
  | op_Count => let* r := Count native query in ret query
  | op_Remove => let* r := Remove native query in ret query
  | op_Describe => let* r := Describe native query in ret query
  | op_Offset o => ret (Offset query o)
  | op_Limit l => ret (Limit query l)
  | op_SetStringParams p vs => let* r := SetStringParams native query p vs in ret query
  | op_SetStringParamsIn p vs => let* r := SetStringParamsIn native query p vs in ret query
  | op_SetInt64Params p vs => let* r := SetInt64Params native query p vs in ret query
  | op_SetInt64ParamsIn p vs => let* r := SetInt64ParamsIn native query p vs in ret query
  | op_SetInt32ParamsIn p vs => let* r := SetInt32ParamsIn native query p vs in ret query
  | op_SetFloat64Params p vs => let* r := SetFloat64Params native query p vs in ret query
  | op_SetBytesParams p vs => let* r := SetBytesParams native query p vs in ret query
  end.

Fixpoint apply_ops (ops : list Op) (query : Query) : Nat Query :=
  match ops with
  | [] => ret query
  | op :: rest => let* q := apply_op op query in apply_ops rest q
  end.

End Programs.

(** The query handle a native call is given, if it takes one. *)
Definition handle_of (c : NativeCall) : option OBX_query :=
  match c with
  | obx_query_close q | obx_query_describe_params q
  | obx_query_count q _ | obx_query_remove q _ | obx_query_find_ids q _
  | obx_query_find q _ _ _
  | obx_query_string_param q _ _ _ | obx_query_string_params_in q _ _ _ _
  | obx_query_int_param q _ _ _ | obx_query_int_params q _ _ _ _
  | obx_query_int64_params_in q _ _ _ _ | obx_query_int32_params_in q _ _ _ _
  | obx_query_double_param q _ _ _ | obx_query_double_params q _ _ _ _
  | obx_query_bytes_param q _ _ _ _ => q
  | _ => None
  end.

(** The call frees the handle it is given. *)
Definition is_close (c : NativeCall) : bool :=
  match c with
  | obx_query_close _ => true
  | _ => false
  end.

(** A trace of native calls treats the handle [h] safely: no call is given
    another handle, [h] is given to no call once it was freed, and so it is
    freed at most once. [freed] tells whether [h] was freed before. *)
Fixpoint handle_safe (h : OBX_query) (freed : bool) (l : list NativeCall) : bool :=
  match l with
  | [] => true
  | c :: rest =>
      match handle_of c with
      | None => handle_safe h freed rest
      | Some h' =>
          (h' =? h)%N && negb freed && handle_safe h (is_close c) rest
      end
  end.

(** The computation only appends calls to the trace, each of them in [P]. *)
Definition adds {A} (P : NativeCall -> Prop) (m : Nat A) : Prop :=
  forall t, exists l, snd (m t) = t ++ l /\ Forall P l.

(** The operations that run in a cursor. *)
Definition uses_cursor (op : Op) : bool :=
  match op with
  | op_Find | op_FindIds | op_Count | op_Remove => true
  | _ => false
  end.

(** The native calls an operation on a query may make: the calls of the
    cursor it runs in (a writable one for [Remove] only), the call of its own
    kind on the handle of the query, the freeing of the native array its call
    returned (the identifier array for [FindIds], the bytes array for
    [Find]), and the reading of the last error. *)
Definition allowed (op : Op) (query : Query) (c : NativeCall) : Prop :=
  match c with
  | obx_last_error => True
  | obx_cursor_open tid readOnly =>
      tid = typeId query
      /\ match op with
         | op_Find | op_FindIds | op_Count => readOnly = true
         | op_Remove => readOnly = false
         | _ => False
         end
  | obx_cursor_close _ => uses_cursor op = true
  | obx_id_array_free => op = op_FindIds
  | obx_bytes_array_free => op = op_Find
  | obx_query_close q =>
      (op = op_Close \/ op = op_Finalizer) /\ q = cQuery query /\ q <> None
  | obx_query_describe_params q => op = op_Describe /\ q = cQuery query /\ q <> None
  | obx_query_count q _ => op = op_Count /\ q = cQuery query /\ q <> None
  | obx_query_remove q _ => op = op_Remove /\ q = cQuery query /\ q <> None
  | obx_query_find_ids q _ => op = op_FindIds /\ q = cQuery query /\ q <> None
  | obx_query_find q _ o l =>
      op = op_Find /\ q = cQuery query /\ q <> None
      /\ o = offset query /\ l = limit query
  | obx_query_string_param q e p v =>
      exists property, op = op_SetStringParams property [v] /\ q = cQuery query
        /\ e = entityId property /\ p = propertyId property
  | obx_query_string_params_in q e p vs _ =>
      exists property, op = op_SetStringParamsIn property vs /\ q = cQuery query
        /\ e = entityId property /\ p = propertyId property
  | obx_query_int_param q e p v =>
      exists property, op = op_SetInt64Params property [v] /\ q = cQuery query
        /\ e = entityId property /\ p = propertyId property
  | obx_query_int_params q e p a b =>
      exists property, op = op_SetInt64Params property [a; b] /\ q = cQuery query
        /\ e = entityId property /\ p = propertyId property
  | obx_query_int64_params_in q e p vs _ =>
      exists property, op = op_SetInt64ParamsIn property vs /\ q = cQuery query
        /\ e = entityId property /\ p = propertyId property
  | obx_query_int32_params_in q e p vs _ =>
      exists property, op = op_SetInt32ParamsIn property vs /\ q = cQuery query
        /\ e = entityId property /\ p = propertyId property
  | obx_query_double_param q e p v =>
      exists property, op = op_SetFloat64Params property [v] /\ q = cQuery query
        /\ e = entityId property /\ p = propertyId property
  | obx_query_double_params q e p a b =>
      exists property, op = op_SetFloat64Params property [a; b] /\ q = cQuery query
        /\ e = entityId property /\ p = propertyId property
  | obx_query_bytes_param q e p v _ =>
      exists property, op = op_SetBytesParams property [v] /\ q = cQuery query
        /\ e = entityId property /\ p = propertyId property
  end.

(** A native side that answers the identifier query with the given list and
    fails every call that returns a code, the release of the cursor
    included. *)
Definition native_release_fails (ids : list Z) : Native :=
  {| ret_code := fun _ => 10001;
     out_count := fun _ => 0;
     out_string := fun _ => EmptyString;
     out_ids := fun _ => Some (mk_slice ids []);
     out_bytes := fun _ => Some [];
     out_cursor := fun _ => Some 1%N;
     out_error := fun _ => (10001, "native failure") |}.

End objectbox.



(* ===================================================================== *)
(** ** package templates: the [Flatten] and [ToObject] parts of
       [BindingTemplate] *)
(* ===================================================================== *)

Module templates.
Import Go.

(** *** The schema model the template is executed on

    The Go declarations of the model are not in the files at hand; the
    records have the fields the template text reads. The white space the
    template writes between statements is not modelled. *)

Module IdUid.
(** Modelled from the spec: the type of [lastPropertyId: (id,uid)], read by
    the template through [GetId] and [GetUid]. *)
Record t : Type := { GetId : Z; GetUid : Z }.
End IdUid.

Module Property.
(** Modelled from the spec: the PropertyDescriptor, with the field names the
    template uses. *)
Record t : Type := {
  Name : string;            (* the Go struct field *)
  GoType : string;          (* its Go type, as source text *)
  FbType : string;          (* the builder's slot kind: Prepend<FbType>Slot *)
  FbSlot : Z;               (* the slot written by Flatten *)
  FbvTableOffset : Z;       (* the table offset read by ToObject *)
  ObName : string;
  ObType : string;
  ObFlags : list string;
  Id : Z;
  Uid : Z
}.
End Property.

Module Entity.
(** Modelled from the spec: the EntityDescriptor, with the field names the
    template uses; [IdProperty] is the (non-nil) identifier property. *)
Record t : Type := {
  Name : string;
  Id : Z;
  Uid : Z;
  Properties : list Property.t;
  IdProperty : Property.t;
  LastPropertyId : IdUid.t;
  HasNonIdProperty : bool
}.
End Entity.

(** *** funcMap

    [strings.Title] and [strings.ToLower] work on Unicode code points, with
    the tables of Go's library. On text of ASCII characters alone they are
    computed here, character by character. On any other text the result
    depends on those tables and on the decoding of UTF-8 (a first byte cut
    off its code point by [result[0:1]] is replaced by U+FFFD), which are not
    modelled: the result is then kept as the application of the function to
    its argument. *)

Definition is_between (lo hi : nat) (c : ascii) : bool :=
  (lo <=? nat_of_ascii c)%nat && (nat_of_ascii c <=? hi)%nat.

Definition is_ascii (s : string) : bool :=
  forallb (fun c => (nat_of_ascii c <=? 127)%nat) (list_ascii_of_string s).

(** The text a function of [funcMap] gives. *)
Inductive Text : Type :=
| ascii_text (s : string)     (* this text, of ASCII characters *)
| Title_of (s : string)       (* strings.Title(s), for s not of ASCII characters alone *)
| Camel_of (s : string).      (* StringCamel(s), for such s *)

Coercion ascii_text : string >-> Text.

(** [isSeparator] of [strings.Title] on a character up to 0x7F: the ASCII
    alphanumerics and the underscore are not separators. *)
Definition isSeparator (c : ascii) : bool :=
  negb (is_between 48 57 c || is_between 97 122 c || is_between 65 90 c
        || Ascii.eqb c "_"%char).

Definition toTitle (c : ascii) : ascii :=
  if is_between 97 122 c then ascii_of_nat (nat_of_ascii c - 32) else c.

Definition toLower (c : ascii) : ascii :=
  if is_between 65 90 c then ascii_of_nat (nat_of_ascii c + 32) else c.

Fixpoint Title_from (prev : ascii) (s : string) : string :=
  match s with
  | EmptyString => EmptyString
  | String c rest => String (if isSeparator prev then toTitle c else c) (Title_from c rest)
  end.

(** ["StringTitle": strings.Title] *)
Definition StringTitle (s : string) : Text :=
  if is_ascii s then ascii_text (Title_from " "%char s) else Title_of s.

(** ["StringCamel"]: [result[0:1]] is out of range on the empty string, and
    on no other, since [strings.Title] gives a text as long as its argument
    or longer. *)
Definition StringCamel (s : string) : outcome Text :=
  match StringTitle s with
  | ascii_text EmptyString => Panicked "slice bounds out of range"
  | ascii_text (String c rest) => Returned (ascii_text (String (toLower c) rest))
  | _ => Returned (Camel_of s)
  end.

(** *** The generated code

    What the template writes for one entity, statement by statement. *)

Inductive Expr : Type :=
| E_offset (name : string)            (* offset<Name> *)
| E_id                                (* id *)
| E_field (name : string)             (* ent.<Name> *)
| E_conv (ty : string) (e : Expr).    (* <ty>(e) *)

Inductive Default : Type :=
| D_zero                              (* 0 *)
| D_false.                            (* false *)

Inductive Stmt : Type :=
| S_ent (entityName : string)
    (* ent := entity.(<pointer to Name>) *)
| S_offset (name creator : string)
    (* var offset<Name> = fbutils.<creator>(fbb, ent.<Name>) *)
| S_todo (name goType : string)
    (* TODO offset creation for the <Name>, type $<GoType> is not implemented *)
| S_StartObject (numfields : Z)
    (* fbb.StartObject(<n>) *)
| S_PrependSlot (fbType : string) (slot : Z) (value : Expr) (d : Default).
    (* fbb.Prepend<FbType>Slot(<slot>, <value>, <d>) *)

Inductive Read : Type :=
| R_slot (accessor : Text) (vtableOffset : Z) (d : option Default)
    (* table.Get<accessor>Slot(<offset>[, <d>]) *)
| R_conv (ty : string) (r : Read).
    (* <ty>(r) *)

(** The first range over [$entity.Properties] in [Flatten]. *)
Definition Flatten_offset (property : Property.t) : list Stmt :=
  if String.eqb (Property.FbType property) "UOffsetT" then
    if String.eqb (Property.GoType property) "string" then
      [S_offset (Property.Name property) "CreateStringOffset"]
    else if String.eqb (Property.GoType property) "[]byte" then
      [S_offset (Property.Name property) "CreateByteVectorOffset"]
    else
      [S_todo (Property.Name property) (Property.GoType property)]
  else [].

(** The second range over [$entity.Properties] in [Flatten]. *)
Definition Flatten_slot (entity : Entity.t) (property : Property.t) : Stmt :=
  let '(value, d) :=
    if String.eqb (Property.FbType property) "UOffsetT" then
      (E_offset (Property.Name property), D_zero)
    else if String.eqb (Property.Name property)
                       (Property.Name (Entity.IdProperty entity)) then
      (E_id, D_zero)
    else if String.eqb (Property.GoType property) "bool" then
      (E_field (Property.Name property), D_false)
    else if String.eqb (Property.GoType property) "int" then
      (E_conv "int32" (E_field (Property.Name property)), D_zero)
    else if String.eqb (Property.GoType property) "uint" then
      (E_conv "uint32" (E_field (Property.Name property)), D_zero)
    else
      (E_field (Property.Name property), D_zero)
  in S_PrependSlot (Property.FbType property) (Property.FbSlot property) value d.

Definition Flatten (entity : Entity.t) : list Stmt :=
  (if Entity.HasNonIdProperty entity then [S_ent (Entity.Name entity)] else [])
  ++ flat_map Flatten_offset (Entity.Properties entity)
  ++ [S_StartObject (IdUid.GetId (Entity.LastPropertyId entity))]
  ++ map (Flatten_slot entity) (Entity.Properties entity).

(** The range over [$entity.Properties] in [ToObject]: one keyed element
    of the struct literal per property. *)
Definition ToObject_field (property : Property.t) : string * Read :=
  let off := Property.FbvTableOffset property in
  (Property.Name property,
   if String.eqb (Property.GoType property) "bool" then
     R_slot "Bool" off (Some D_false)
   else if String.eqb (Property.GoType property) "int" then
     R_conv "int" (R_slot "Uint32" off (Some D_zero))
   else if String.eqb (Property.GoType property) "uint" then
     R_conv "uint" (R_slot "Uint32" off (Some D_zero))
   else if String.eqb (Property.GoType property) "rune" then
     R_conv "rune" (R_slot "Int32" off (Some D_zero))
   else if String.eqb (Property.GoType property) "string" then
     R_slot "String" off None
   else if String.eqb (Property.GoType property) "[]byte" then
     R_slot "ByteVector" off None
   else
     R_slot (StringTitle (Property.GoType property)) off (Some D_zero)).

Definition ToObject (entity : Entity.t) : list (string * Read) :=
  map ToObject_field (Entity.Properties entity).

(** The two generated methods of one entity, with [$entityNameCamel], the
    text before [EntityInfo] in the name of the receiver type
    [<camel>EntityInfo] they are declared on. *)
Record Binding : Type := {
  entityNameCamel : Text;
  flatten_body : list Stmt;
  toObject_body : list (string * Read)
}.

Definition execute_entity (entity : Entity.t) : outcome Binding :=
  match StringCamel (Entity.Name entity) with
  | Panicked msg => Panicked msg
  | Returned camel =>
      Returned {| entityNameCamel := camel;
                  flatten_body := Flatten entity;
                  toObject_body := ToObject entity |}
  end.

(** The text of a generated statement, as the template spells it. *)
Definition show_Z (z : Z) : string := pretty z.

Fixpoint show_Expr (e : Expr) : string :=
  match e with
  | E_offset name => "offset" +:+ name
  | E_id => "id"
  | E_field name => "ent." +:+ name
  | E_conv ty e' => ty +:+ "(" +:+ show_Expr e' +:+ ")"
  end.

Definition show_Default (d : Default) : string :=
  match d with
  | D_zero => "0"
  | D_false => "false"
  end.

Definition show_Stmt (s : Stmt) : string :=
  match s with
  | S_ent name => "ent := entity.(" +:+ "*" +:+ name +:+ ")"
  | S_offset name creator =>
      "var offset" +:+ name +:+ " = fbutils." +:+ creator +:+ "(fbb, ent." +:+ name +:+ ")"
  | S_todo name goType =>
      "TODO offset creation for the " +:+ name +:+ ", type $" +:+ goType
      +:+ " is not implemented"
  | S_StartObject n => "fbb.StartObject(" +:+ show_Z n +:+ ")"
  | S_PrependSlot fbType slot value d =>
      "fbb.Prepend" +:+ fbType +:+ "Slot(" +:+ show_Z slot +:+ ", " +:+ show_Expr value
      +:+ ", " +:+ show_Default d +:+ ")"
  end.

(** *** Go values and types of the generated code

    The record handed to [Flatten] and returned by [ToObject] is a finite
    map from field names to values. A floating-point value is given by its
    IEEE 754 bit pattern; a [[]byte] is modelled by its content. *)

Inductive Arch : Type := arch32 | arch64.

Inductive num : Type :=
| Int8 | Int16 | Int32 | Int64
| Uint8 | Uint16 | Uint32 | Uint64
| Int | Uint.

Definition bits (a : Arch) (k : num) : Z :=
  match k with
  | Int8 | Uint8 => 8
  | Int16 | Uint16 => 16
  | Int32 | Uint32 => 32
  | Int64 | Uint64 => 64
  | Int | Uint => match a with arch32 => 32 | arch64 => 64 end
  end.

Definition signed (k : num) : bool :=
  match k with
  | Int8 | Int16 | Int32 | Int64 | Int => true
  | _ => false
  end.

(** Conversion of an integer to the type [k]: keep the low [bits k] bits,
    read as two's complement when [k] is signed. *)
Definition convert (a : Arch) (k : num) (z : Z) : Z :=
  if signed k then (z + 2 ^ (bits a k - 1)) mod 2 ^ bits a k - 2 ^ (bits a k - 1)
  else z mod 2 ^ bits a k.

Definition min_of (a : Arch) (k : num) : Z :=
  if signed k then - 2 ^ (bits a k - 1) else 0.

Definition max_of (a : Arch) (k : num) : Z :=
  if signed k then 2 ^ (bits a k - 1) - 1 else 2 ^ bits a k - 1.

(** The floating-point types. *)
Inductive fl : Type := Float32 | Float64.

Definition fbits (k : fl) : Z :=
  match k with
  | Float32 => 32
  | Float64 => 64
  end.

Definition fl_eqb (k k' : fl) : bool :=
  match k, k' with
  | Float32, Float32 | Float64, Float64 => true
  | _, _ => false
  end.

(** [x == 0] on a floating-point value: true of the two zeros, whose bit
    patterns are all zeros and the sign bit alone. *)
Definition float_is_zero (k : fl) (pattern : Z) : bool :=
  (pattern =? 0) || (pattern =? 2 ^ (fbits k - 1)).

Inductive GoTy : Type :=
| TBool
| TNum (k : num)
| TFloat (k : fl)
| TString
| TBytes
| TUOffsetT.

Inductive Value : Type :=
| VBool (b : bool)
| VNum (k : num) (z : Z)
| VFloat (k : fl) (pattern : Z)
| VString (s : string)
| VBytes (b : list Byte.byte)
| VOffset (o : Z).

Definition num_eqb (k k' : num) : bool :=
  match k, k' with
  | Int8, Int8 | Int16, Int16 | Int32, Int32 | Int64, Int64
  | Uint8, Uint8 | Uint16, Uint16 | Uint32, Uint32 | Uint64, Uint64
  | Int, Int | Uint, Uint => true
  | _, _ => false
  end.

Fixpoint assoc {A} (l : list (string * A)) (s : string) : option A :=
  match l with
  | [] => None
  | (k, v) :: rest => if String.eqb s k then Some v else assoc rest s
  end.

(** Go's predeclared integer type names. *)
Definition num_names : list (string * num) :=
  [("int8", Int8); ("int16", Int16); ("int32", Int32); ("int64", Int64);
   ("uint8", Uint8); ("uint16", Uint16); ("uint32", Uint32); ("uint64", Uint64);
   ("int", Int); ("uint", Uint); ("rune", Int32); ("byte", Uint8)].

Definition type_names : list (string * GoTy) :=
  [("bool", TBool); ("string", TString); ("[]byte", TBytes)]
  ++ map (fun p => (fst p, TNum (snd p))) num_names
  ++ [("float32", TFloat Float32); ("float64", TFloat Float64)].

Definition has_type (a : Arch) (ty : GoTy) (v : Value) : Prop :=
  match ty, v with
  | TBool, VBool _ => True
  | TNum k, VNum k' z => k' = k /\ min_of a k <= z <= max_of a k
  | TFloat k, VFloat k' pattern => k' = k /\ 0 <= pattern < 2 ^ fbits k
  | TString, VString _ => True
  | TBytes, VBytes _ => True
  | _, _ => False
  end.

(** *** The buffer

    The buffer builder and the table reader (the flatbuffers library and the
    [fbutils] helpers) are not in the files at hand. The slotted format has
    child regions for variable-length values, which must all exist before the
    record's slot region is opened, a slot region of a fixed number of slots,
    and a default value for an absent slot; a slot writer leaves the slot
    absent when the value equals the default (as Go compares: a
    floating-point negative zero equals the default 0). *)

(** Modelled from the spec: what a slot of the buffer format holds. *)
Inductive Slot : Type :=
| Scalar (nbits : Z) (pattern : Z)    (* a fixed-size value: width and bit pattern *)
| Ref (offset : Z).                   (* a reference to a child region *)

(** Modelled from the spec: the buffer builder ([flatbuffers.Builder]): the
    child regions created so far and the slot region, when one is open. *)
Record Builder : Type := {
  regions : list (list Byte.byte);
  vtable : option (Z * gmap Z Slot)   (* the open slot region: size, slots written *)
}.

Definition NewBuilder : Builder := {| regions := []; vtable := None |}.

Inductive result (A : Type) : Type :=
| Ok (a : A)
| CompileError (msg : string)   (* the generated text is not a Go program *)
| Panic (msg : string)
| Unmodelled (msg : string).    (* outside this model of the buffer library *)
Arguments Ok {A} a.
Arguments CompileError {A} msg.
Arguments Panic {A} msg.
Arguments Unmodelled {A} msg.

#[export] Instance result_ret : MRet result := fun A a => Ok a.
#[export] Instance result_bind : MBind result := fun A B k m =>
  match m with
  | Ok a => k a
  | CompileError msg => CompileError msg
  | Panic msg => Panic msg
  | Unmodelled msg => Unmodelled msg
  end.

(** Modelled from the spec: [fbutils.CreateStringOffset] and
    [fbutils.CreateByteVectorOffset] create a child region and return its
    offset, here its (non-zero) position. *)
Definition CreateVector (fbb : Builder) (data : list Byte.byte) : result (Z * Builder) :=
  match vtable fbb with
  | Some _ => Panic "object must not be nested"
  | None => Ok (Z.of_nat (S (length (regions fbb))),
                {| regions := regions fbb ++ [data]; vtable := None |})
  end.

(** Modelled from the spec: [fbb.StartObject(n)] opens the slot region of
    [n] slots. *)
Definition StartObject (fbb : Builder) (numfields : Z) : result Builder :=
  match vtable fbb with
  | Some _ => Panic "object must not be nested"
  | None =>
      if numfields <? 0 then Panic "makeslice: len out of range"
      else Ok {| regions := regions fbb; vtable := Some (numfields, ∅) |}
  end.

(** Modelled from the spec: storing into a slot of the open slot region. *)
Definition write_slot (fbb : Builder) (slot : Z) (s : Slot) : result Builder :=
  match vtable fbb with
  | None => Panic "object must be nested"
  | Some (n, m) =>
      if (0 <=? slot) && (slot <? n)
      then Ok {| regions := regions fbb; vtable := Some (n, <[slot := s]> m) |}
      else Panic "index out of range"
  end.

Inductive SlotKind : Type :=
| KBool
| KNum (k : num)
| KUOffsetT
| KString
| KByteVector
| KFloat (k : fl).

(** Modelled from the spec: the [Prepend<X>Slot] methods of the builder. *)
Definition prepend_kinds : list (string * SlotKind) :=
  [("Bool", KBool); ("Byte", KNum Uint8);
   ("Int8", KNum Int8); ("Int16", KNum Int16); ("Int32", KNum Int32); ("Int64", KNum Int64);
   ("Uint8", KNum Uint8); ("Uint16", KNum Uint16); ("Uint32", KNum Uint32);
   ("Uint64", KNum Uint64);
   ("UOffsetT", KUOffsetT); ("Float32", KFloat Float32); ("Float64", KFloat Float64)].

(** Modelled from the spec: the [Get<X>Slot] accessors of the table. *)
Definition get_kinds : list (string * SlotKind) :=
  [("Bool", KBool); ("Byte", KNum Uint8);
   ("Int8", KNum Int8); ("Int16", KNum Int16); ("Int32", KNum Int32); ("Int64", KNum Int64);
   ("Uint8", KNum Uint8); ("Uint16", KNum Uint16); ("Uint32", KNum Uint32);
   ("Uint64", KNum Uint64);
   ("String", KString); ("ByteVector", KByteVector);
   ("UOffsetT", KUOffsetT); ("Float32", KFloat Float32); ("Float64", KFloat Float64)].

(** Modelled from the spec: [fbb.Prepend<fbType>Slot(slot, v, d)] stores [v]
    in the slot unless it equals the default [d]. *)
Definition PrependSlot (a : Arch) (fbType : string) (slot : Z) (v : Value) (d : Default)
    (fbb : Builder) : result Builder :=
  match assoc prepend_kinds fbType with
  | None => CompileError "undefined method"
  | Some KBool =>
      match v, d with
      | VBool b, D_false => if b then write_slot fbb slot (Scalar 8 1) else Ok fbb
      | _, _ => CompileError "type mismatch"
      end
  | Some (KNum k) =>
      match v, d with
      | VNum k' z, D_zero =>
          if num_eqb k k' then
            if z =? 0 then Ok fbb
            else write_slot fbb slot (Scalar (bits a k) (z mod 2 ^ bits a k))
          else CompileError "type mismatch"
      | _, _ => CompileError "type mismatch"
      end
  | Some KUOffsetT =>
      match v, d with
      | VOffset o, D_zero => if o =? 0 then Ok fbb else write_slot fbb slot (Ref o)
      | _, _ => CompileError "type mismatch"
      end
  | Some (KFloat k) =>
      match v, d with
      | VFloat k' pattern, D_zero =>
          if fl_eqb k k' then
            if float_is_zero k pattern then Ok fbb
            else write_slot fbb slot (Scalar (fbits k) (pattern mod 2 ^ fbits k))
          else CompileError "type mismatch"
      | _, _ => CompileError "type mismatch"
      end
  | Some _ => CompileError "undefined method"
  end.

(** *** Running the generated [Flatten] *)

Record Frame : Type := {
  ent_declared : bool;
  offsets : gmap string Z;
  fbb : Builder
}.

Fixpoint eval (a : Arch) (ent : gmap string Value) (id : Z) (fr : Frame) (e : Expr)
    : result Value :=
  match e with
  | E_offset name =>
      match offsets fr !! name with
      | Some o => Ok (VOffset o)
      | None => CompileError "undefined offset variable"
      end
  | E_id => Ok (VNum Uint64 id)
  | E_field name =>
      if ent_declared fr then
        match ent !! name with
        | Some v => Ok v
        | None => CompileError "undefined field"
        end
      else CompileError "undefined: ent"
  | E_conv ty e' =>
      v ← eval a ent id fr e';
      match assoc num_names ty, v with
      | Some k, VNum _ z => Ok (VNum k (convert a k z))
      | Some k, VOffset o => Ok (VNum k (convert a k o))
      | Some k, VFloat _ _ => Unmodelled "conversion of a floating-point value"
      | _, _ => CompileError "cannot convert"
      end
  end.

Definition step (a : Arch) (ent : gmap string Value) (id : Z) (fr : Frame) (s : Stmt)
    : result Frame :=
  match s with
  | S_ent _ =>
      if ent_declared fr then CompileError "ent redeclared"
      else Ok {| ent_declared := true; offsets := offsets fr; fbb := fbb fr |}
  | S_offset name creator =>
      match offsets fr !! name with
      | Some _ => CompileError "offset variable redeclared"
      | None =>
          v ← eval a ent id fr (E_field name);
          data ← (match creator, v with
                  | "CreateStringOffset"%string, VString s => Ok (list_byte_of_string s)
                  | "CreateByteVectorOffset"%string, VBytes b => Ok b
                  | _, _ => CompileError "type mismatch"
                  end);
          '(o, fbb') ← CreateVector (fbb fr) data;
          Ok {| ent_declared := ent_declared fr; offsets := <[name := o]> (offsets fr);
                fbb := fbb' |}
      end
  | S_todo _ _ => CompileError "syntax error"
  | S_StartObject n =>
      fbb' ← StartObject (fbb fr) n;
      Ok {| ent_declared := ent_declared fr; offsets := offsets fr; fbb := fbb' |}
  | S_PrependSlot fbType slot value d =>
      v ← eval a ent id fr value;
      fbb' ← PrependSlot a fbType slot v d (fbb fr);
      Ok {| ent_declared := ent_declared fr; offsets := offsets fr; fbb := fbb' |}
  end.

Fixpoint run (a : Arch) (ent : gmap string Value) (id : Z) (body : list Stmt) (fr : Frame)
    : result Frame :=
  match body with
  | [] => Ok fr
  | s :: rest => fr' ← step a ent id fr s; run a ent id rest fr'
  end.

Fixpoint uses_ent_Expr (e : Expr) : bool :=
  match e with
  | E_field _ => true
  | E_conv _ e' => uses_ent_Expr e'
  | _ => false
  end.

Definition uses_ent (s : Stmt) : bool :=
  match s with
  | S_offset _ _ => true
  | S_PrependSlot _ _ value _ => uses_ent_Expr value
  | _ => false
  end.

Definition declares_ent (s : Stmt) : bool :=
  match s with
  | S_ent _ => true
  | _ => false
  end.

(** A call of the generated [Flatten(entity, fbb, id)]. Go rejects a local
    variable that is declared and never used. *)
Definition Flatten_call (a : Arch) (body : list Stmt) (ent : gmap string Value) (id : Z)
    (builder : Builder) : result Builder :=
  if existsb declares_ent body && negb (existsb uses_ent body)
  then CompileError "ent declared and not used"
  else
    fr ← run a ent id body {| ent_declared := false; offsets := ∅; fbb := builder |};
    Ok (fbb fr).

(** *** Reading the buffer back *)

(** Modelled from the spec: the finished buffer as [fbutils.GetRootAsTable]
    opens it. *)
Record Table : Type := {
  t_regions : list (list Byte.byte);
  t_slots : gmap Z Slot
}.

(** Modelled from the spec: the caller of [Flatten] closes the slot region
    and finishes the buffer; [GetRootAsTable] opens it for reading. *)
Definition Finish (builder : Builder) : result Table :=
  match vtable builder with
  | Some (_, m) => Ok {| t_regions := regions builder; t_slots := m |}
  | None => Panic "object must be nested"
  end.

(** Modelled from the spec: the slot a table offset addresses; slot [k] is
    at table offset [4 + 2 * k]. *)
Definition lookup_slot (table : Table) (vtableOffset : Z) : result (option Slot) :=
  if (4 <=? vtableOffset) && Z.even vtableOffset
  then Ok (t_slots table !! ((vtableOffset - 4) / 2))
  else Unmodelled "offset into the table header".

(** Modelled from the spec: the child region a reference points to. *)
Definition region_at (table : Table) (o : Z) : result (list Byte.byte) :=
  if 1 <=? o then
    match t_regions table !! Z.to_nat (o - 1) with
    | Some data => Ok data
    | None => Unmodelled "dangling reference"
    end
  else Unmodelled "dangling reference".

(** Modelled from the spec: [table.Get<accessor>Slot(off[, d])] reads the
    slot with the accessor's type, and gives the default when the slot is
    absent. *)
Definition GetSlot (a : Arch) (accessor : string) (off : Z) (d : option Default)
    (table : Table) : result Value :=
  match assoc get_kinds accessor, d with
  | None, _ => CompileError "undefined method"
  | Some KBool, Some D_false =>
      s ← lookup_slot table off;
      match s with
      | None => Ok (VBool false)
      | Some (Scalar w p) => Ok (VBool (p mod 2 ^ 8 =? 1))
      | Some (Ref _) => Unmodelled "slot of another kind"
      end
  | Some (KNum k), Some D_zero =>
      s ← lookup_slot table off;
      match s with
      | None => Ok (VNum k 0)
      | Some (Scalar w p) =>
          if bits a k <=? w then Ok (VNum k (convert a k p))
          else Unmodelled "slot of another width"
      | Some (Ref _) => Unmodelled "slot of another kind"
      end
  | Some KString, None =>
      s ← lookup_slot table off;
      match s with
      | None => Ok (VString EmptyString)
      | Some (Ref o) => data ← region_at table o; Ok (VString (string_of_list_byte data))
      | Some (Scalar _ _) => Unmodelled "slot of another kind"
      end
  | Some KByteVector, None =>
      s ← lookup_slot table off;
      match s with
      | None => Ok (VBytes [])
      | Some (Ref o) => data ← region_at table o; Ok (VBytes data)
      | Some (Scalar _ _) => Unmodelled "slot of another kind"
      end
  | Some KUOffsetT, Some D_zero => Unmodelled "raw offset"
  | Some (KFloat k), Some D_zero =>
      s ← lookup_slot table off;
      match s with
      | None => Ok (VFloat k 0)
      | Some (Scalar w p) =>
          if fbits k <=? w then Ok (VFloat k (p mod 2 ^ fbits k))
          else Unmodelled "slot of another width"
      | Some (Ref _) => Unmodelled "slot of another kind"
      end
  | Some _, _ => CompileError "wrong arguments"
  end.

Fixpoint eval_Read (a : Arch) (table : Table) (r : Read) : result Value :=
  match r with
  | R_slot (ascii_text accessor) off d => GetSlot a accessor off d table
  | R_slot _ off d => Unmodelled "accessor named from a type name beyond ASCII"
  | R_conv ty r' =>
      v ← eval_Read a table r';
      match assoc num_names ty, v with
      | Some k, VNum _ z => Ok (VNum k (convert a k z))
      | Some k, VFloat _ _ => Unmodelled "conversion of a floating-point value"
      | _, _ => CompileError "cannot convert"
      end
  end.

(** A call of the generated [ToObject]: the struct literal, field by field;
    Go rejects a field name given twice. *)
Fixpoint ToObject_call (a : Arch) (body : list (string * Read)) (table : Table)
    : result (gmap string Value) :=
  match body with
  | [] => Ok ∅
  | (name, r) :: rest =>
      v ← eval_Read a table r;
      m ← ToObject_call a rest table;
      match m !! name with
      | None => Ok (<[name := v]> m)
      | Some _ => CompileError "duplicate field name in struct literal"
      end
  end.

(** Encode with [Flatten] into a fresh builder, finish, decode with
    [ToObject]. *)
Definition roundtrip (a : Arch) (entity : Entity.t) (ent : gmap string Value) (id : Z)
    : result (gmap string Value) :=
  builder ← Flatten_call a (Flatten entity) ent id NewBuilder;
  table ← Finish builder;
  ToObject_call a (ToObject entity) table.

(** *** Vocabulary of the statements below *)

(** The slot kind in which a field of a Go type is stored: [int] and [uint]
    go to 32-bit slots, text and bytes to a reference slot. *)
Definition storage (ty : GoTy) : SlotKind :=
  match ty with
  | TBool => KBool
  | TNum Int => KNum Int32
  | TNum Uint => KNum Uint32
  | TNum k => KNum k
  | TFloat k => KFloat k
  | TString | TBytes | TUOffsetT => KUOffsetT
  end.

(** Modelled from the spec: the part of the generator that builds the schema
    model is not in the files at hand. It is to establish that the slot
    kind of a property is the storage of its Go type, that its table offset
    is the offset of the slot the encoder writes, and that the slot lies in
    the slot region sized by [lastPropertyId]. *)
Record wf_property (entity : Entity.t) (p : Property.t) : Prop := {
  wf_type : exists ty,
    assoc type_names (Property.GoType p) = Some ty
    /\ assoc prepend_kinds (Property.FbType p) = Some (storage ty);
  wf_slot : 0 <= Property.FbSlot p < IdUid.GetId (Entity.LastPropertyId entity);
  wf_offset : Property.FbvTableOffset p = 4 + 2 * Property.FbSlot p
}.

(** Modelled from the spec: the invariants of an entity of the schema
    model: distinct fields, distinct slots, an identifier property of type
    [uint64] among the properties. *)
Record wf_entity (entity : Entity.t) : Prop := {
  wf_names : NoDup (map Property.Name (Entity.Properties entity));
  wf_slots : NoDup (map Property.FbSlot (Entity.Properties entity));
  wf_properties : Forall (wf_property entity) (Entity.Properties entity);
  wf_id_in : In (Entity.IdProperty entity) (Entity.Properties entity);
  wf_id_type : Property.GoType (Entity.IdProperty entity) = "uint64";
  wf_flag : Entity.HasNonIdProperty entity = true
            <-> exists p, In p (Entity.Properties entity)
                  /\ Property.Name p <> Property.Name (Entity.IdProperty entity)
}.

(** A record of the entity's struct type with valid field values: exactly
    the fields of the properties, each holding a value of its Go type. *)
Record well_typed (a : Arch) (entity : Entity.t) (ent : gmap string Value) : Prop := {
  wt_fields : forall name, is_Some (ent !! name) ->
    In name (map Property.Name (Entity.Properties entity));
  wt_values : forall p, In p (Entity.Properties entity) ->
    exists ty v, assoc type_names (Property.GoType p) = Some ty
      /\ ent !! Property.Name p = Some v /\ has_type a ty v
}.





(** Step 1 of the encoding algorithm in the words of the specification: the
    child regions, one for every variable-length property (text, byte
    sequence), in the order of the properties. *)
Definition child_regions (ent : gmap string Value) (ps : list Property.t)
    : list (list Byte.byte) :=
  flat_map (fun p => match ent !! Property.Name p with
                     | Some (VString s) => [list_byte_of_string s]
                     | Some (VBytes b) => [b]
                     | _ => []
                     end) ps.

(** A slot of [nbits] bits for the integer [z]: absent for the default 0. *)
Definition scalar (nbits : Z) (z : Z) : option Slot :=
  if z mod 2 ^ nbits =? 0 then None else Some (Scalar nbits (z mod 2 ^ nbits)).

(** Step 3 of the encoding algorithm in the words of the specification:
    what the table slot of a property holds once the record is written. The
    identifier property holds the identifier supplied by the caller (not the
    field of the struct); a variable-length property holds the reference to
    its child region, as remembered in step 1; [int] and [uint] go to 32-bit
    slots; [bool] to a boolean slot; every other type passes through with
    its own width. A value equal to the default leaves the slot absent. *)
Definition spec_slot (a : Arch) (entity : Entity.t) (ent : gmap string Value) (id : Z)
    (remembered : gmap string Z) (p : Property.t) : option Slot :=
  if String.eqb (Property.Name p) (Property.Name (Entity.IdProperty entity))
  then scalar 64 id
  else
    match ent !! Property.Name p with
    | Some (VString _) | Some (VBytes _) => Ref <$> remembered !! Property.Name p
    | Some (VBool b) => if b then Some (Scalar 8 1) else None
    | Some (VNum Int z) | Some (VNum Uint z) => scalar 32 z
    | Some (VNum k z) => scalar (bits a k) z
    | Some (VFloat k pattern) =>
        if float_is_zero k pattern then None else Some (Scalar (fbits k) pattern)
    | _ => None
    end.

(** A variable-length property the template has no offset creation for. *)
Definition unsupported_offset_property (p : Property.t) : Prop :=
  Property.FbType p = "UOffsetT"
  /\ Property.GoType p <> "string" /\ Property.GoType p <> "[]byte".

(** Executing the template on the entity fails, so that nothing is
    emitted. *)
Definition generation_fails (entity : Entity.t) : Prop :=
  exists msg, execute_entity entity = Panicked msg.

(** *** Entities for the examples *)

Definition property (name goType fbType : string) (slot : Z) : Property.t :=
  {| Property.Name := name; Property.GoType := goType; Property.FbType := fbType;
     Property.FbSlot := slot; Property.FbvTableOffset := 4 + 2 * slot;
     Property.ObName := name; Property.ObType := fbType; Property.ObFlags := [];
     Property.Id := slot + 1; Property.Uid := 1000 + slot |}.

Definition person_id : Property.t := property "Id" "uint64" "Uint64" 0.

Definition person : Entity.t :=
  {| Entity.Name := "Person"; Entity.Id := 1; Entity.Uid := 77;
     Entity.Properties :=
       [person_id;
        property "LastName" "string" "UOffsetT" 1;
        property "Active" "bool" "Bool" 2;
        property "Age" "int" "Int32" 3;
        property "Visits" "uint" "Uint32" 4;
        property "Initial" "rune" "Int32" 5;
        property "Photo" "[]byte" "UOffsetT" 6;
        property "Born" "int64" "Int64" 7;
        property "Rank" "byte" "Byte" 8];
     Entity.IdProperty := person_id;
     Entity.LastPropertyId := {| IdUid.GetId := 9; IdUid.GetUid := 1008 |};
     Entity.HasNonIdProperty := true |}.

Definition a_person (age visits : Z) : gmap string Value :=
  list_to_map
    [("Id"%string, VNum Uint64 0);
     ("LastName"%string, VString EmptyString);
     ("Active"%string, VBool true);
     ("Age"%string, VNum Int age);
     ("Visits"%string, VNum Uint visits);
     ("Initial"%string, VNum Int32 (-5));
     ("Photo"%string, VBytes []);
     ("Born"%string, VNum Int64 (-9));
     ("Rank"%string, VNum Uint8 200)].

(** An entity with floating-point fields. *)
Definition reading_id : Property.t := property "Id" "uint64" "Uint64" 0.

Definition reading : Entity.t :=
  {| Entity.Name := "Reading"; Entity.Id := 4; Entity.Uid := 80;
     Entity.Properties :=
       [reading_id;
        property "Celsius" "float64" "Float64" 1;
        property "Gain" "float32" "Float32" 2;
        property "Count" "int" "Int32" 3;
        property "Label" "string" "UOffsetT" 4];
     Entity.IdProperty := reading_id;
     Entity.LastPropertyId := {| IdUid.GetId := 5; IdUid.GetUid := 1004 |};
     Entity.HasNonIdProperty := true |}.

(** A reading; [celsius] is the bit pattern of a [float64], and the gain
    is 1. *)
Definition a_reading (celsius count : Z) : gmap string Value :=
  list_to_map
    [("Id"%string, VNum Uint64 0);
     ("Celsius"%string, VFloat Float64 celsius);
     ("Gain"%string, VFloat Float32 1065353216);
     ("Count"%string, VNum Int count);
     ("Label"%string, VString "north")].

(** An entity with a variable-length property of type [[]string]. *)
Definition tagged_id : Property.t := property "Id" "uint64" "Uint64" 0.
Definition tagged_tags : Property.t := property "Tags" "[]string" "UOffsetT" 1.

Definition tagged : Entity.t :=
  {| Entity.Name := "Tagged"; Entity.Id := 2; Entity.Uid := 78;
     Entity.Properties := [tagged_id; tagged_tags];
     Entity.IdProperty := tagged_id;
     Entity.LastPropertyId := {| IdUid.GetId := 2; IdUid.GetUid := 1001 |};
     Entity.HasNonIdProperty := true |}.

(** *** Vocabulary of the proofs *)

(** Replace slot [s] by [w], where [None] leaves the region as it is. *)
Definition put (s : Z) (w : option Slot) (m : gmap Z Slot) : gmap Z Slot :=
  match w with
  | Some x => <[s := x]> m
  | None => m
  end.

(** What a slot writer stores for a value: nothing for the default. *)
Definition written (a : Arch) (v : Value) : option Slot :=
  match v with
  | VBool b => if b then Some (Scalar 8 1) else None
  | VNum k z => if z =? 0 then None else Some (Scalar (bits a k) (z mod 2 ^ bits a k))
  | VFloat k pattern =>
      if float_is_zero k pattern then None
      else Some (Scalar (fbits k) (pattern mod 2 ^ fbits k))
  | VOffset o => if o =? 0 then None else Some (Ref o)
  | _ => None
  end.

(** The values of the variable-length types: text and byte sequences. *)
Definition variable_length (v : Value) : bool :=
  match v with
  | VString _ | VBytes _ => true
  | _ => false
  end.

(** The bytes of a variable-length value. *)
Definition payload (v : Value) : list Byte.byte :=
  match v with
  | VString s => list_byte_of_string s
  | VBytes b => b
  | _ => []
  end.

(** What a 32-bit slot read back without sign gives for an [int] or a
    [uint]: the value itself where these types have 32 bits, its low 32 bits
    where they have 64. *)
Definition narrow (a : Arch) (z : Z) : Z :=
  match a with
  | arch32 => z
  | arch64 => z mod 2 ^ 32
  end.

(** What comes back for a field value once written and read. *)
Definition decoded (a : Arch) (v : Value) : Value :=
  match v with
  | VNum Int z => VNum Int (narrow a z)
  | VNum Uint z => VNum Uint (narrow a z)
  | VFloat k pattern => VFloat k (if float_is_zero k pattern then 0 else pattern)
  | _ => v
  end.

(** The field the round trip gives back for a property. *)
Definition expected (a : Arch) (entity : Entity.t) (ent : gmap string Value) (id : Z)
    (p : Property.t) : option Value :=
  if String.eqb (Property.Name p) (Property.Name (Entity.IdProperty entity))
  then Some (VNum Uint64 id)
  else decoded a <$> ent !! Property.Name p.

(** Every offset variable holds the offset of the region with the bytes of
    its field. *)
Definition offsets_inv (ent : gmap string Value) (fr : Frame) : Prop :=
  forall name o, offsets fr !! name = Some o ->
    1 <= o /\ exists v, ent !! name = Some v
               /\ regions (fbb fr) !! Z.to_nat (o - 1) = Some (payload v).

(** *** The other generated methods: [GetId], [MakeSlice], [AppendToSlice] *)

(** The zero value of a Go type. *)
Definition zero_of (ty : GoTy) : Value :=
  match ty with
  | TBool => VBool false
  | TNum k => VNum k 0
  | TFloat k => VFloat k 0
  | TString => VString EmptyString
  | TBytes => VBytes []
  | TUOffsetT => VOffset 0
  end.

(** A pointer to a struct: nil, or the fields of the struct it points to. *)
Definition Ptr : Type := option (gmap string Value).

(** An [interface{}] argument or result of the generated methods: the nil
    interface, a pointer to a struct [T] or a slice of such pointers, with the
    name of [T]. *)
Inductive Iface : Type :=
| I_nil
| I_ptr (typeName : string) (target : Ptr)
| I_slice (elemType : string) (s : slice Ptr).

(** What the template writes for [GetId]: the type of the assertion and the
    field that is returned. *)
Record GetId_body : Type := {
  asserted : string;
  returned_field : string
}.

Definition GetId (entity : Entity.t) : GetId_body :=
  {| asserted := Entity.Name entity;
     returned_field := Property.Name (Entity.IdProperty entity) |}.

(** A call of the generated [GetId(entity)]: the type assertion panics on
    another dynamic type, the field access on a nil pointer; the result type
    is [uint64]. The error is always nil. *)
Definition GetId_call (body : GetId_body) (entity : Iface) : result (Z * option error) :=
  match entity with
  | I_ptr typeName target =>
      if String.eqb typeName (asserted body) then
        match target with
        | None => Panic "nil pointer dereference"
        | Some fields =>
            match fields !! returned_field body with
            | Some (VNum Uint64 z) => Ok (z, None)
            | Some _ => CompileError "cannot use the field as uint64 value in return"
            | None => CompileError "undefined field"
            end
        end
      else Panic "interface conversion"
  | _ => Panic "interface conversion"
  end.

(** [ToObject] returns the address of the struct literal. *)
Definition ToObject_result (entity : Entity.t) (fields : gmap string Value) : Iface :=
  I_ptr (Entity.Name entity) (Some fields).

(** Go's [append] of one element: in place while the backing array has room,
    into a new backing array otherwise. The capacity of a new array is the
    runtime's choice, given by [new_cap] and at least the length needed. *)
Definition append {A} (zero : A) (new_cap : Z -> Z) (s : slice A) (x : A) : slice A :=
  match s with
  | mk_slice elems (_ :: spare) => mk_slice (elems ++ [x]) spare
  | _ =>
      let needed := Z.of_nat (length (elements s)) + 1 in
      mk_slice (elements s ++ [x])
               (replicate (Z.to_nat (Z.max needed (new_cap needed) - needed)) zero)
  end.

(** A call of the generated [MakeSlice(capacity)]: [make] of a slice of
    pointers to [T] of length 0 and the given capacity. Exhaustion of the
    memory is not modelled. *)
Definition MakeSlice_call (entity : Entity.t) (capacity : Z) : outcome Iface :=
  if capacity <? 0 then Panicked "makeslice: cap out of range"
  else Returned (I_slice (Entity.Name entity)
                   (mk_slice [] (replicate (Z.to_nat capacity) None))).

(** A call of the generated [AppendToSlice(slice, entity)]: [append] of the
    two arguments, after the assertion that the first is a slice of pointers
    to [T] and the second a pointer to [T]. *)
Definition AppendToSlice_call (new_cap : Z -> Z) (entity : Entity.t)
    (slice entity' : Iface) : outcome Iface :=
  match slice with
  | I_slice elemType s =>
      if String.eqb elemType (Entity.Name entity) then
        match entity' with
        | I_ptr typeName target =>
            if String.eqb typeName (Entity.Name entity)
            then Returned (I_slice elemType (append None new_cap s target))
            else Panicked "interface conversion"
        | _ => Panicked "interface conversion"
        end
      else Panicked "interface conversion"
  | _ => Panicked "interface conversion"
  end.

(** [MakeSlice(capacity)] and then [AppendToSlice] for each of [entities],
    as a caller collecting objects does. *)
Fixpoint append_all (new_cap : Z -> Z) (entity : Entity.t) (slice : Iface)
    (entities : list Iface) : outcome Iface :=
  match entities with
  | [] => Returned slice
  | e :: rest =>
      match AppendToSlice_call new_cap entity slice e with
      | Returned slice' => append_all new_cap entity slice' rest
      | Panicked msg => Panicked msg
      end
  end.

Definition collect (new_cap : Z -> Z) (entity : Entity.t) (capacity : Z)
    (entities : list Iface) : outcome Iface :=
  match MakeSlice_call entity capacity with
  | Returned slice => append_all new_cap entity slice entities
  | Panicked msg => Panicked msg
  end.

(** [person] with the flag [HasNonIdProperty] not set, as a model builder
    that forgot it would hand it over. *)
Definition person_unflagged : Entity.t :=
  {| Entity.Name := Entity.Name person; Entity.Id := Entity.Id person;
     Entity.Uid := Entity.Uid person;
     Entity.Properties := Entity.Properties person;
     Entity.IdProperty := Entity.IdProperty person;
     Entity.LastPropertyId := Entity.LastPropertyId person;
     Entity.HasNonIdProperty := false |}.

(** An entity of the identifier alone, with the flag set all the same. *)
Definition id_only_flagged : Entity.t :=
  {| Entity.Name := "Key"; Entity.Id := 3; Entity.Uid := 79;
     Entity.Properties := [person_id];
     Entity.IdProperty := person_id;
     Entity.LastPropertyId := {| IdUid.GetId := 1; IdUid.GetUid := 1000 |};
     Entity.HasNonIdProperty := true |}.

(** A Go identifier written in ASCII: ASCII letters, digits and
    underscores, which are the ASCII characters that are no separators of
    [strings.Title]. *)
Definition identifier (s : string) : Prop :=
  Forall (fun c => (nat_of_ascii c <= 127)%nat /\ isSeparator c = false)
         (list_ascii_of_string s).

End templates.



(* ===================================================================== *)
(** ** Properties of the query layer *)
(* ===================================================================== *)

Module objectbox_facts.
Import Go objectbox.

Lemma nonzero_true z : nonzero z = true <-> z <> 0.
Proof. unfold nonzero. rewrite negb_true_iff, Z.eqb_neq. reflexivity. Qed.

Lemma nonzero_false z : nonzero z = false <-> z = 0.
Proof. unfold nonzero. rewrite negb_false_iff, Z.eqb_eq. reflexivity. Qed.

Lemma check_rc_zero native t : check_rc native 0 t = (None, t).
Proof. reflexivity. Qed.

Lemma check_rc_nonzero native rc t :
  rc <> 0 ->
  check_rc native rc t =
    (Some (NativeError (fst (out_error native (t ++ [obx_last_error])))
                       (snd (out_error native (t ++ [obx_last_error])))),
     t ++ [obx_last_error]).
Proof.
  intros H. unfold check_rc. apply nonzero_true in H. rewrite H. reflexivity.
Qed.

(** [check_rc] reports a native error or nothing, never the closed-query
    error. *)
Lemma check_rc_not_closed native rc t : ~ is_closed_error (fst (check_rc native rc t)).
Proof.
  unfold is_closed_error. destruct (Z.eq_dec rc 0) as [->|H].
  - rewrite check_rc_zero. discriminate.
  - rewrite check_rc_nonzero by assumption. discriminate.
Qed.

Lemma len_le_cap {A} (s : slice A) : len s <= cap s.
Proof.
  unfold len, cap. destruct s as [|e sp]; simpl; [lia|].
  rewrite length_app. lia.
Qed.

(** The end of the slice expression never lies beyond the length. *)
Lemma FindIds_endOffset_le_len query ids : FindIds_endOffset query ids <= len ids.
Proof.
  unfold FindIds_endOffset.
  destruct (nonzero (limit query) && (wrap64 (offset query + limit query) <? len ids))
    eqn:E; [|lia].
  apply andb_true_iff in E as [_ E]. apply Z.ltb_lt in E. lia.
Qed.

Lemma FindIds_guard_spec query ids err :
  FindIds_guard query ids err = true
  <-> guard_spec (offset query) (limit query) err ids.
Proof.
  unfold FindIds_guard, guard_spec.
  rewrite orb_true_iff, !andb_true_iff, !nonzero_true, bool_decide_eq_true,
    negb_true_iff.
  destruct ids; simpl; intuition congruence.
Qed.

Lemma FindIds_unfold native query t :
  FindIds native query t =
    (FindIds_paginate query
       (fst (fst (runWithCursor native (typeId query) true nil_slice
                    (findIds native query) t)))
       (snd (fst (runWithCursor native (typeId query) true nil_slice
                    (findIds native query) t))),
     snd (runWithCursor native (typeId query) true nil_slice (findIds native query) t)).
Proof.
  unfold FindIds, bind.
  change (fun cursor => findIds native query cursor) with (findIds native query).
  destruct (runWithCursor native (typeId query) true nil_slice (findIds native query) t)
    as [[ids err] t'].
  reflexivity.
Qed.

(** Slicing in range: the visible elements are the ones between the two
    indices, in the order of the original. *)
Lemma slice_expr_in_range {A} (s : slice A) low high :
  0 <= low <= high -> high <= len s ->
  exists s', slice_expr s low high = Returned s'
    /\ elements s' = take (Z.to_nat (high - low)) (drop (Z.to_nat low) (elements s)).
Proof.
  intros Hlow Hhigh. pose proof (len_le_cap s) as Hcap. unfold slice_expr.
  replace ((0 <=? low) && (low <=? high) && (high <=? cap s)) with true
    by (symmetry; rewrite !andb_true_iff, !Z.leb_le; lia).
  destruct s as [|e sp].
  - eexists; split; [reflexivity|]. simpl. now rewrite drop_nil, take_nil.
  - eexists; split; [reflexivity|]. simpl.
    unfold len in Hhigh. simpl in Hhigh.
    rewrite drop_app_le by lia.
    rewrite take_app_le; [reflexivity|]. rewrite length_drop. lia.
Qed.

(** Within the list and without wrap-around, the client-side slicing of
    [FindIds] is the pagination of the specification. *)
Lemma FindIds_paginate_in_range query ids err :
  0 <= offset query <= len ids -> 0 <= limit query ->
  offset query + limit query < 2 ^ 64 ->
  FindIds_guard query ids err = true ->
  exists s, FindIds_paginate query ids err = Returned (s, None)
    /\ elements s = paginate_spec (offset query) (limit query) (elements ids).
Proof.
  intros Hoff Hlim Hwrap Hguard. unfold FindIds_paginate. rewrite Hguard.
  pose proof (FindIds_endOffset_le_len query ids) as Hend.
  assert (Hw : wrap64 (offset query + limit query) = offset query + limit query).
  { unfold wrap64. apply Z.mod_small. lia. }
  assert (Hlo : offset query <= FindIds_endOffset query ids).
  { unfold FindIds_endOffset. rewrite Hw.
    destruct (nonzero (limit query) && (offset query + limit query <? len ids)); lia. }
  destruct (slice_expr_in_range ids (offset query) (FindIds_endOffset query ids))
    as (s & Hs & Hel); [lia|lia|].
  exists s. rewrite Hs. split; [reflexivity|]. rewrite Hel.
  unfold paginate_spec, FindIds_endOffset. rewrite Hw.
  pose proof (length_drop (elements ids) (Z.to_nat (offset query))) as Hd.
  unfold len in *.
  destruct (Z.eqb_spec (limit query) 0) as [H0|H0].
  - rewrite (proj2 (nonzero_false _) H0). simpl.
    apply take_ge. lia.
  - rewrite (proj2 (nonzero_true _) H0). simpl.
    destruct (Z.ltb_spec (offset query + limit query)
                (Z.of_nat (length (elements ids)))) as [Hlt|Hge].
    + f_equal. lia.
    + rewrite !take_ge by lia. reflexivity.
Qed.

Lemma Close_clears native query t : cQuery (snd (fst (Close native query t))) = None.
Proof.
  unfold Close. destruct (cQuery query) as [h|] eqn:E; [|exact E].
  unfold bind, call.
  destruct (nonzero (ret_code native (t ++ [obx_query_close (Some h)]))); reflexivity.
Qed.

(** The operations that look at the handle first: on a closed query they
    report the closed-query error and make no native call. *)
Lemma closed_query_checked native query c t :
  cQuery query = None ->
  Describe native query t = (EmptyString, Some (errorClosed query), t)
  /\ count native query c t = (0, Some (errorClosed query), t)
  /\ remove native query c t = (0, Some (errorClosed query), t)
  /\ findIds native query c t = (nil_slice, Some (errorClosed query), t)
  /\ find native query c t = (iface_int 0, Some (errorClosed query), t).
Proof.
  intros H. unfold Describe, count, remove, findIds, find. rewrite H.
  repeat split.
Qed.

(** C7. [Close] is idempotent: on a closed query it returns nil, makes no
    native call and leaves the query closed; the first [Close] makes the one
    native free call and clears the handle whatever that call returns,
    surfacing its failure as the error; a further [Close] is then the no-op,
    and neither [Offset] nor [Limit] brings a handle back. *)
Theorem C7_Close_idempotent native query h t :
  let closed := set_cQuery query None in
  let t1 := t ++ [obx_query_close (Some h)] in
  Close native closed t = (None, closed, t)
  /\ Close native (set_cQuery query (Some h)) t =
       (if ret_code native t1 =? 0 then (None, closed, t1)
        else (Some (NativeError (fst (out_error native (t1 ++ [obx_last_error])))
                                (snd (out_error native (t1 ++ [obx_last_error])))),
              closed, t1 ++ [obx_last_error]))
  /\ (let r := Close native (set_cQuery query (Some h)) t in
      Close native (snd (fst r)) (snd r) = (None, snd (fst r), snd r))
  /\ (forall o l, cQuery (Offset closed o) = None /\ cQuery (Limit closed l) = None).
Proof.
  intros closed t1.
  assert (H2 : Close native (set_cQuery query (Some h)) t =
       (if ret_code native t1 =? 0 then (None, closed, t1)
        else (Some (NativeError (fst (out_error native (t1 ++ [obx_last_error])))
                                (snd (out_error native (t1 ++ [obx_last_error])))),
              closed, t1 ++ [obx_last_error]))).
  { unfold Close, bind, call, nonzero, createError, ret, bind, call. simpl.
    fold t1. destruct (ret_code native t1 =? 0); reflexivity. }
  split; [reflexivity|]. split; [exact H2|]. split.
  - rewrite H2. destruct (ret_code native t1 =? 0); reflexivity.
  - intros o l. split; reflexivity.
Qed.

(** C2, at the failing inputs. After [Close], each parameter setter given a
    legal number of values hands the nil handle to its native call, and what
    it returns is decided by that call's return code: never the
    closed-query error. *)
Theorem C2_setters_after_Close_use_nil_handle native query t property
    (s : string) (ss : list string) (i j : Z) (zs : list Z) (f g : float)
    (b : list Byte.byte) :
  let closed := snd (fst (Close native query t)) in
  let t1 := snd (Close native query t) in
  let e := entityId property in
  let p := propertyId property in
  cQuery closed = None
  /\ passed_on native (obx_query_string_param None e p s) t1
       (SetStringParams native closed property [s] t1)
  /\ passed_on native (obx_query_string_params_in None e p (s :: ss)
                         (C_int (Z.of_nat (length (s :: ss))))) t1
       (SetStringParamsIn native closed property (s :: ss) t1)
  /\ passed_on native (obx_query_int_param None e p i) t1
       (SetInt64Params native closed property [i] t1)
  /\ passed_on native (obx_query_int_params None e p i j) t1
       (SetInt64Params native closed property [i; j] t1)
  /\ passed_on native (obx_query_int64_params_in None e p (i :: zs)
                         (C_int (Z.of_nat (length (i :: zs))))) t1
       (SetInt64ParamsIn native closed property (i :: zs) t1)
  /\ passed_on native (obx_query_int32_params_in None e p (i :: zs)
                         (C_int (Z.of_nat (length (i :: zs))))) t1
       (SetInt32ParamsIn native closed property (i :: zs) t1)
  /\ passed_on native (obx_query_double_param None e p f) t1
       (SetFloat64Params native closed property [f] t1)
  /\ passed_on native (obx_query_double_params None e p f g) t1
       (SetFloat64Params native closed property [f; g] t1)
  /\ passed_on native (obx_query_bytes_param None e p b (Z.of_nat (length b))) t1
       (SetBytesParams native closed property [b] t1)
  /\ ~ is_closed_error (fst (SetStringParams native closed property [s] t1))
  /\ ~ is_closed_error (fst (SetInt64Params native closed property [i] t1))
  /\ ~ is_closed_error (fst (SetFloat64Params native closed property [f] t1))
  /\ ~ is_closed_error (fst (SetBytesParams native closed property [b] t1)).
Proof.
  intros closed t1 e p.
  assert (Hc : cQuery closed = None) by apply Close_clears.
  unfold passed_on, SetStringParams, SetStringParamsIn, SetInt64Params,
    SetInt64ParamsIn, SetInt32ParamsIn, SetFloat64Params, SetBytesParams.
  rewrite Hc. unfold bind, call. fold e p.
  repeat split; apply check_rc_not_closed.
Qed.

(** C4, the examples and the failing input. The three paginations of the
    specification come out as stated; with three matching identifiers and
    offset 5, where skipping five entries leaves the empty list, the call
    panics in the slice expression. *)
Theorem C4_FindIds_pagination_panics_beyond_end :
  returned_ids (fst (FindIds (native_with_ids ten_ids) (open_query 3 4) []))
    = Some [3; 4; 5; 6]
  /\ returned_ids (fst (FindIds (native_with_ids ten_ids) (open_query 8 5) []))
    = Some [8; 9]
  /\ returned_ids (fst (FindIds (native_with_ids ten_ids) (open_query 0 0) []))
    = Some ten_ids
  /\ paginate_spec 5 0 [10; 11; 12] = []
  /\ fst (FindIds (native_with_ids [10; 11; 12]) (open_query 5 0) [])
    = Panicked "slice bounds out of range".
Proof. repeat split; vm_compute; reflexivity. Qed.

(** C5. With a non-zero offset or limit, [Count] and [Remove] return the
    explicit error and leave the trace of native calls as it was; with both
    zero they go on to the cursor and, the query being open, to the native
    count / remove call on its handle. *)
Theorem C5_Count_Remove_reject_offset_limit native query t :
  (offset query <> 0 \/ limit query <> 0 ->
     Count native query t
       = (0, Some (fmt_Errorf "limit/offset are not supported by Count at this moment"), t)
     /\ Remove native query t
       = (0, Some (fmt_Errorf "limit/offset are not supported by Remove at this moment"), t))
  /\ (offset query = 0 -> limit query = 0 ->
       Count native query t
         = runWithCursor native (typeId query) true 0 (count native query) t
       /\ Remove native query t
         = runWithCursor native (typeId query) false 0 (remove native query) t
       /\ (forall h c,
             cQuery query = Some h ->
             out_cursor native (t ++ [obx_cursor_open (typeId query) true]) = Some c ->
             exists rest,
               snd (Count native query t)
                 = t ++ [obx_cursor_open (typeId query) true; obx_query_count (Some h) c]
                     ++ rest)
       /\ (forall h c,
             cQuery query = Some h ->
             out_cursor native (t ++ [obx_cursor_open (typeId query) false]) = Some c ->
             exists rest,
               snd (Remove native query t)
                 = t ++ [obx_cursor_open (typeId query) false; obx_query_remove (Some h) c]
                     ++ rest)).
Proof.
  split.
  - intros H. unfold Count, Remove.
    replace (nonzero (offset query) || nonzero (limit query)) with true; [split; reflexivity|].
    symmetry. rewrite orb_true_iff, !nonzero_true. exact H.
  - intros Ho Hl. unfold Count, Remove.
    rewrite (proj2 (nonzero_false _) Ho), (proj2 (nonzero_false _) Hl). simpl.
    split; [reflexivity|]. split; [reflexivity|].
    split; intros h c Hq Hc; unfold runWithCursor, bind, call; rewrite Hc;
      unfold count, remove, bind, call; rewrite Hq.
    + destruct (nonzero (ret_code native
                  ((t ++ [obx_cursor_open (typeId query) true])
                     ++ [obx_query_count (Some h) c]))); simpl;
        unfold check_rc;
        match goal with |- context [nonzero ?x] => destruct (nonzero x) end;
        simpl; rewrite <- ?app_assoc; simpl; eexists; reflexivity.
    + destruct (nonzero (ret_code native
                  ((t ++ [obx_cursor_open (typeId query) false])
                     ++ [obx_query_remove (Some h) c]))); simpl;
        unfold check_rc;
        match goal with |- context [nonzero ?x] => destruct (nonzero x) end;
        simpl; rewrite <- ?app_assoc; simpl; eexists; reflexivity.
Qed.

Lemma C5_Count_Remove_reject_offset_limit_witness :
  (Count (native_with_ids ten_ids) (open_query 1 0) []
     = (0, Some (fmt_Errorf "limit/offset are not supported by Count at this moment"), [])
   /\ Remove (native_with_ids ten_ids) (open_query 0 3) []
     = (0, Some (fmt_Errorf "limit/offset are not supported by Remove at this moment"), []))
  /\ exists rest,
       snd (Count (native_with_ids ten_ids) (open_query 0 0) [])
         = [obx_cursor_open 1 true; obx_query_count (Some 7%N) 1%N] ++ rest.
Proof.
  split; [split|].
  - apply (C5_Count_Remove_reject_offset_limit (native_with_ids ten_ids)
             (open_query 1 0) []). left. simpl. lia.
  - apply (C5_Count_Remove_reject_offset_limit (native_with_ids ten_ids)
             (open_query 0 3) []). right. simpl. lia.
  - apply (proj2 (C5_Count_Remove_reject_offset_limit (native_with_ids ten_ids)
                    (open_query 0 0) [])); reflexivity.
Defined.

Lemma usage_error_two {A} (values : list A) : (2 <= length values)%nat ->
  exists a b rest, values = a :: b :: rest.
Proof. destruct values as [|a [|b rest]]; simpl; intros; try lia; eauto. Qed.

Lemma usage_error_three {A} (values : list A) : (3 <= length values)%nat ->
  exists a b c rest, values = a :: b :: c :: rest.
Proof. destruct values as [|a [|b [|c rest]]]; simpl; intros; try lia; eauto. Qed.

(** C6. Arity of the parameter setters. Strings and byte sequences: exactly
    one value. 64-bit integers and doubles: one value or two. The "In"
    setters: any non-empty list. No value at all is "no values given", more
    than allowed is "too many values given", and both are returned with the
    trace of native calls untouched; an accepted call makes exactly its one
    native call. *)
Theorem C6_setter_arity native query property t :
  let q := cQuery query in
  let e := entityId property in
  let p := propertyId property in
  (usage_error "no values given" t (SetStringParams native query property [] t)
   /\ (forall v, passed_on native (obx_query_string_param q e p v) t
                   (SetStringParams native query property [v] t))
   /\ (forall values, (2 <= length values)%nat ->
         usage_error "too many values given" t
           (SetStringParams native query property values t)))
  /\ (usage_error "no values given" t (SetBytesParams native query property [] t)
      /\ (forall v, passed_on native (obx_query_bytes_param q e p v (Z.of_nat (length v))) t
                      (SetBytesParams native query property [v] t))
      /\ (forall values, (2 <= length values)%nat ->
            usage_error "too many values given" t
              (SetBytesParams native query property values t)))
  /\ (usage_error "no values given" t (SetInt64Params native query property [] t)
      /\ (forall v, passed_on native (obx_query_int_param q e p v) t
                      (SetInt64Params native query property [v] t))
      /\ (forall a b, passed_on native (obx_query_int_params q e p a b) t
                        (SetInt64Params native query property [a; b] t))
      /\ (forall values, (3 <= length values)%nat ->
            usage_error "too many values given" t
              (SetInt64Params native query property values t)))
  /\ (usage_error "no values given" t (SetFloat64Params native query property [] t)
      /\ (forall v, passed_on native (obx_query_double_param q e p v) t
                      (SetFloat64Params native query property [v] t))
      /\ (forall a b, passed_on native (obx_query_double_params q e p a b) t
                        (SetFloat64Params native query property [a; b] t))
      /\ (forall values, (3 <= length values)%nat ->
            usage_error "too many values given" t
              (SetFloat64Params native query property values t)))
  /\ (usage_error "no values given" t (SetStringParamsIn native query property [] t)
      /\ (forall values, (1 <= length values)%nat ->
            passed_on native (obx_query_string_params_in q e p values
                                (C_int (Z.of_nat (length values)))) t
              (SetStringParamsIn native query property values t)))
  /\ (usage_error "no values given" t (SetInt64ParamsIn native query property [] t)
      /\ (forall values, (1 <= length values)%nat ->
            passed_on native (obx_query_int64_params_in q e p values
                                (C_int (Z.of_nat (length values)))) t
              (SetInt64ParamsIn native query property values t)))
  /\ (usage_error "no values given" t (SetInt32ParamsIn native query property [] t)
      /\ (forall values, (1 <= length values)%nat ->
            passed_on native (obx_query_int32_params_in q e p values
                                (C_int (Z.of_nat (length values)))) t
              (SetInt32ParamsIn native query property values t))).
Proof.
  intros q e p. unfold usage_error, passed_on.
  repeat split; try reflexivity; intros values H;
    try (apply usage_error_three in H as (a & b & c & rest & ->); reflexivity);
    try (apply usage_error_two in H as (a & b & rest & ->); reflexivity);
    destruct values; simpl in H; try lia; reflexivity.
Qed.

Lemma C6_setter_arity_witness :
  usage_error "too many values given" []
    (SetStringParams (native_with_ids []) (open_query 0 0) some_property ["a"; "b"]%string [])
  /\ usage_error "too many values given" []
       (SetInt64Params (native_with_ids []) (open_query 0 0) some_property [1; 2; 3] [])
  /\ passed_on (native_with_ids [])
       (obx_query_int_params (Some 7%N) 1 2 1 2) []
       (SetInt64Params (native_with_ids []) (open_query 0 0) some_property [1; 2] [])
  /\ passed_on (native_with_ids [])
       (obx_query_int32_params_in (Some 7%N) 1 2 [4; 5; 6] 3) []
       (SetInt32ParamsIn (native_with_ids []) (open_query 0 0) some_property [4; 5; 6] []).
Proof.
  pose proof (C6_setter_arity (native_with_ids []) (open_query 0 0) some_property [])
    as (Hs & _ & Hi & _ & _ & _ & Hin).
  split; [|split; [|split]].
  - apply Hs. simpl. lia.
  - apply Hi. simpl. lia.
  - apply Hi.
  - apply (proj2 Hin [4; 5; 6]). simpl. lia.
Defined.

(** The branch [FindIds] takes, by the guard as the specification reads it. *)
Lemma FindIds_branch native query t :
  let r := runWithCursor native (typeId query) true nil_slice (findIds native query) t in
  let ids := fst (fst r) in
  let err := snd (fst r) in
  (guard_spec (offset query) (limit query) err ids ->
     FindIds native query t = (slicing_branch query ids, snd r))
  /\ (~ guard_spec (offset query) (limit query) err ids ->
       FindIds native query t = (Returned (ids, err), snd r)).
Proof.
  intros r ids err. rewrite FindIds_unfold. fold r ids err.
  pose proof (FindIds_guard_spec query ids err) as G.
  unfold FindIds_paginate, slicing_branch.
  split; intros H.
  - rewrite (proj2 G H). reflexivity.
  - destruct (FindIds_guard query ids err); [|reflexivity].
    exfalso. apply H, G. reflexivity.
Qed.

(** C9. The guard of [FindIds] is
    [offset != 0 || (limit != 0 && err == nil && ids != nil)]: with a
    non-zero offset the slicing branch is taken whatever the cursor call
    returned; with offset zero it is taken exactly when the limit is
    non-zero, the error nil and the list non-nil, and otherwise the results
    of the cursor call are returned as they are. *)
Theorem C9_FindIds_guard_precedence native query t :
  let r := runWithCursor native (typeId query) true nil_slice (findIds native query) t in
  let ids := fst (fst r) in
  let err := snd (fst r) in
  (FindIds_guard query ids err = true
     <-> guard_spec (offset query) (limit query) err ids)
  /\ (offset query <> 0 ->
        FindIds native query t = (slicing_branch query ids, snd r))
  /\ (offset query = 0 -> limit query <> 0 /\ err = None /\ ids <> nil_slice ->
        FindIds native query t = (slicing_branch query ids, snd r))
  /\ (offset query = 0 -> ~ (limit query <> 0 /\ err = None /\ ids <> nil_slice) ->
        FindIds native query t = (Returned (ids, err), snd r)).
Proof.
  intros r ids err. rewrite FindIds_unfold. fold r ids err.
  pose proof (FindIds_guard_spec query ids err) as G.
  unfold FindIds_paginate, slicing_branch, guard_spec in *.
  split; [exact G|]. split; [|split].
  - intros H. rewrite (proj2 G) by (left; exact H). reflexivity.
  - intros _ H. rewrite (proj2 G) by (right; exact H). reflexivity.
  - intros H0 H. destruct (FindIds_guard query ids err); [|reflexivity].
    exfalso. destruct (proj1 G eq_refl) as [H1|H1]; [exact (H1 H0)|exact (H H1)].
Qed.

Lemma C9_FindIds_guard_precedence_witness :
  (* offset 1, every native call failing: the slicing branch all the same *)
  FindIds native_failing (open_query 1 0) []
    = (slicing_branch (open_query 1 0) nil_slice,
       snd (runWithCursor native_failing 1 true nil_slice
              (findIds native_failing (open_query 1 0)) []))
  (* offset 0, limit 2, a successful retrieval: the slicing branch *)
  /\ returned_ids (fst (FindIds (native_with_ids ten_ids) (open_query 0 2) []))
       = Some [0; 1]
  (* offset 0, limit 2, a failed retrieval: error and nil list as they are *)
  /\ fst (FindIds native_failing (open_query 0 2) [])
       = Returned (nil_slice, Some (NativeError 10001 "native failure")).
Proof.
  split; [|split].
  - apply (proj1 (proj2 (C9_FindIds_guard_precedence native_failing (open_query 1 0) []))).
    simpl. lia.
  - rewrite (proj1 (proj2 (proj2 (C9_FindIds_guard_precedence
               (native_with_ids ten_ids) (open_query 0 2) [])))).
    + reflexivity.
    + reflexivity.
    + simpl. repeat split; [lia | discriminate].
  - rewrite (proj2 (proj2 (proj2 (C9_FindIds_guard_precedence
               native_failing (open_query 0 2) [])))).
    + reflexivity.
    + reflexivity.
    + simpl. intros (_ & H & _). discriminate H.
Defined.

(** C10. [FindIds] is not total. Whenever the offset is non-zero and the
    identifier list that came back from the cursor call is shorter than the
    offset, the slice expression is out of range and the call panics; this
    includes a failed native retrieval, after which the list is nil. *)
Theorem C10_FindIds_panics_beyond_end native query t :
  let r := runWithCursor native (typeId query) true nil_slice (findIds native query) t in
  (offset query <> 0 -> len (fst (fst r)) < offset query ->
     FindIds native query t = (Panicked "slice bounds out of range", snd r))
  /\ (forall h c,
        0 < offset query ->
        cQuery query = Some h ->
        out_cursor native (t ++ [obx_cursor_open (typeId query) true]) = Some c ->
        out_ids native (t ++ [obx_cursor_open (typeId query) true]
                          ++ [obx_query_find_ids (Some h) c]) = None ->
        fst (FindIds native query t) = Panicked "slice bounds out of range").
Proof.
  intros r.
  assert (Hgen : offset query <> 0 -> len (fst (fst r)) < offset query ->
            FindIds native query t = (Panicked "slice bounds out of range", snd r)).
  { intros Hnz Hlt.
    rewrite (proj1 (FindIds_branch native query t)) by (left; exact Hnz). fold r.
    f_equal. unfold slicing_branch, slice_expr.
    pose proof (FindIds_endOffset_le_len query (fst (fst r))) as Hend.
    replace (offset query <=? FindIds_endOffset query (fst (fst r))) with false
      by (symmetry; apply Z.leb_gt; lia).
    rewrite andb_false_r. reflexivity. }
  split; [exact Hgen|].
  intros h c Hpos Hq Hc Hids.
  assert (Hnil : fst (fst r) = nil_slice).
  { unfold r, runWithCursor, bind, call. rewrite Hc.
    unfold findIds, bind, call. rewrite Hq.
    rewrite <- app_assoc. rewrite Hids. simpl.
    unfold check_rc. match goal with |- context [nonzero ?x] => destruct (nonzero x) end;
      reflexivity. }
  rewrite Hgen; [reflexivity|lia|]. rewrite Hnil. unfold len. simpl. lia.
Qed.

Lemma C10_FindIds_panics_beyond_end_witness :
  FindIds (native_with_ids [10; 11; 12]) (open_query 5 0) []
    = (Panicked "slice bounds out of range",
       snd (runWithCursor (native_with_ids [10; 11; 12]) 1 true nil_slice
              (findIds (native_with_ids [10; 11; 12]) (open_query 5 0)) []))
  /\ fst (FindIds native_failing (open_query 1 0) [])
       = Panicked "slice bounds out of range".
Proof.
  split.
  - apply (proj1 (C10_FindIds_panics_beyond_end (native_with_ids [10; 11; 12])
                    (open_query 5 0) [])).
    + simpl. lia.
    + vm_compute. reflexivity.
  - apply (proj2 (C10_FindIds_panics_beyond_end native_failing (open_query 1 0) [])
             7%N 1%N); try reflexivity.
Defined.

End objectbox_facts.

(* ===================================================================== *)
(** ** Properties of the binding template *)
(* ===================================================================== *)

Module templates_facts.
Import Go templates.

#[local] Arguments convert : simpl never.
#[local] Arguments Z.pow : simpl never.
#[local] Arguments Z.modulo : simpl never.
#[local] Arguments Z.mul : simpl never.
#[local] Arguments Z.add : simpl never.
#[local] Arguments assoc : simpl never.
#[local] Arguments child_regions : simpl never.
#[local] Arguments spec_slot : simpl never.

(** *** Lookup tables and integer conversion *)

Lemma assoc_In {A} (l : list (string * A)) s v : assoc l s = Some v -> In (s, v) l.
Proof.
  unfold assoc. induction l as [|[k w] l IH]; [discriminate|].
  destruct (String.eqb_spec s k) as [->|_].
  - intros [= ->]. left. reflexivity.
  - intros H. right. exact (IH H).
Qed.

Lemma prepend_kind_offset f k :
  assoc prepend_kinds f = Some k ->
  String.eqb f "UOffsetT" = match k with KUOffsetT => true | _ => false end.
Proof.
  intros H. apply assoc_In in H. simpl in H.
  repeat (destruct H as [[= <- <-]|H]; [reflexivity|]). contradiction.
Qed.

Lemma bits_pos a k : 0 < bits a k.
Proof. destruct a, k; simpl; lia. Qed.

(** Converting to the type a value already has changes nothing. *)
Lemma convert_id a k z : min_of a k <= z <= max_of a k -> convert a k z = z.
Proof.
  unfold min_of, max_of, convert. pose proof (bits_pos a k) as Hb.
  assert (Hp : 2 ^ bits a k = 2 * 2 ^ (bits a k - 1)).
  { rewrite <- Z.pow_succ_r by lia. f_equal. lia. }
  destruct (signed k); intros H.
  - rewrite Z.mod_small by lia. lia.
  - apply Z.mod_small. lia.
Qed.

(** Conversion only looks at the low bits. *)
Lemma convert_mod a k z : convert a k (z mod 2 ^ bits a k) = convert a k z.
Proof.
  unfold convert. pose proof (bits_pos a k) as Hb.
  destruct (signed k).
  - rewrite Zplus_mod_idemp_l. reflexivity.
  - rewrite Z.mod_mod; [reflexivity|]. apply Z.pow_nonzero; lia.
Qed.

Lemma convert_stored a k z :
  min_of a k <= z <= max_of a k -> convert a k (z mod 2 ^ bits a k) = z.
Proof. intros H. rewrite convert_mod. apply convert_id, H. Qed.

Lemma convert_zero a k : convert a k 0 = 0.
Proof.
  apply convert_id. unfold min_of, max_of. pose proof (bits_pos a k).
  assert (0 < 2 ^ (bits a k - 1)) by (apply Z.pow_pos_nonneg; lia).
  assert (0 < 2 ^ bits a k) by (apply Z.pow_pos_nonneg; lia).
  destruct (signed k); lia.
Qed.

Lemma StringCamel_nonempty s :
  s <> EmptyString -> exists camel, StringCamel s = Returned camel.
Proof.
  destruct s as [|c rest]; [congruence|]. intros _.
  unfold StringCamel, StringTitle.
  destruct (is_ascii (String c rest)); simpl; eexists; reflexivity.
Qed.

(** *** The 32-bit slots of [int] and [uint], and the floating-point slots *)

Lemma mod32_bound z : 0 <= z mod 2 ^ 32 < 2 ^ 32.
Proof. apply Z.mod_pos_bound. lia. Qed.

Lemma narrow_signed z : ((z + 2 ^ 31) mod 2 ^ 32 - 2 ^ 31) mod 2 ^ 32 = z mod 2 ^ 32.
Proof. rewrite Zminus_mod_idemp_l. f_equal. lia. Qed.

Lemma narrow_decoded a k z :
  (k = Int \/ k = Uint) -> min_of a k <= z <= max_of a k ->
  convert a k (z mod 2 ^ 32)
  = match a with arch32 => z | arch64 => z mod 2 ^ 32 end.
Proof.
  intros Hk Hz. pose proof (mod32_bound z) as Hb. destruct a.
  - replace (2 ^ 32) with (2 ^ bits arch32 k) by (destruct Hk as [->| ->]; reflexivity).
    apply convert_stored, Hz.
  - apply convert_id. destruct Hk as [->| ->]; unfold min_of, max_of; simpl; lia.
Qed.


(** A value within the range of its type is zero exactly when its low bits
    are. *)
Lemma scalar_written a k z :
  min_of a k <= z <= max_of a k -> scalar (bits a k) z = written a (VNum k z).
Proof.
  intros Hz. unfold scalar. simpl.
  pose proof (bits_pos a k) as Hb.
  assert (Hp : 0 < 2 ^ bits a k) by (apply Z.pow_pos_nonneg; lia).
  assert (Hh : 2 ^ bits a k = 2 * 2 ^ (bits a k - 1)).
  { rewrite <- Z.pow_succ_r by lia. f_equal. lia. }
  assert (Hq : 0 < 2 ^ (bits a k - 1)) by (apply Z.pow_pos_nonneg; lia).
  assert (E : (z mod 2 ^ bits a k =? 0) = (z =? 0)).
  { destruct (Z.eqb_spec z 0) as [->|Hne].
    - rewrite Z.mod_0_l by lia. reflexivity.
    - apply Z.eqb_neq. intros Hm. apply Hne.
      unfold min_of, max_of in Hz. destruct (signed k).
      + destruct (Z_lt_le_dec z 0) as [Hneg|Hpos].
        * replace z with (z + 2 ^ bits a k + (-1) * 2 ^ bits a k) in Hm by lia.
          rewrite Z_mod_plus_full, Z.mod_small in Hm by lia. lia.
        * rewrite Z.mod_small in Hm by lia. exact Hm.
      + rewrite Z.mod_small in Hm by lia. exact Hm. }
  rewrite E. reflexivity.
Qed.

Lemma scalar_id a id : 0 <= id < 2 ^ 64 -> scalar 64 id = written a (VNum Uint64 id).
Proof.
  intros H. apply (scalar_written a Uint64 id). unfold min_of, max_of. simpl. lia.
Qed.

Lemma convert32_zero a k z :
  (k = Int32 \/ k = Uint32) -> (convert a k z =? 0) = (z mod 2 ^ 32 =? 0).
Proof.
  intros Hk. pose proof (mod32_bound z) as Hb.
  pose proof (mod32_bound (z + 2 ^ 31)) as Hb'.
  destruct Hk as [->| ->]; unfold convert; simpl; [|reflexivity].
  change (32 - 1) with 31.
  destruct (Z.eqb_spec (z mod 2 ^ 32) 0) as [E|E].
  - apply Z.eqb_eq. rewrite <- Zplus_mod_idemp_l, E. simpl.
    rewrite Z.mod_small by lia. lia.
  - apply Z.eqb_neq. intros H. apply E.
    rewrite <- narrow_signed. rewrite H. reflexivity.
Qed.

Lemma convert32_mod a k z :
  (k = Int32 \/ k = Uint32) -> convert a k z mod 2 ^ 32 = z mod 2 ^ 32.
Proof.
  intros [->| ->]; unfold convert; simpl.
  - apply narrow_signed.
  - apply Z.mod_mod. lia.
Qed.

(** [int32(z)] and [uint32(z)] in a 32-bit slot: the low 32 bits of [z]. *)
Lemma scalar_narrow a k z :
  (k = Int32 \/ k = Uint32) -> scalar 32 z = written a (VNum k (convert a k z)).
Proof.
  intros Hk. unfold scalar, written.
  rewrite (convert32_zero a k z Hk).
  replace (bits a k) with 32 by (destruct Hk as [->| ->]; reflexivity).
  rewrite (convert32_mod a k z Hk). reflexivity.
Qed.

Lemma float_written a k pattern :
  0 <= pattern < 2 ^ fbits k ->
  written a (VFloat k pattern)
  = if float_is_zero k pattern then None else Some (Scalar (fbits k) pattern).
Proof.
  intros H. simpl. rewrite Z.mod_small by exact H. reflexivity.
Qed.

Lemma NoDup_map_inj {A B} (f : A -> B) (l : list A) x y :
  NoDup (map f l) -> In x l -> In y l -> f x = f y -> x = y.
Proof.
  induction l as [|z l IH]; simpl; [tauto|].
  rewrite NoDup_cons. intros [Hz Hl] [->|Hx] [->|Hy] E; auto.
  - exfalso. apply Hz. rewrite E. apply list_elem_of_In, in_map, Hy.
  - exfalso. apply Hz. rewrite <- E. apply list_elem_of_In, in_map, Hx.
Qed.

Lemma bind_Ok {A B} (x : A) (f : A -> result B) : Ok x ≫= f = f x.
Proof. reflexivity. Qed.

(** *** The buffer: what is written is what is read *)

Lemma put_other s w m j : j <> s -> put s w m !! j = m !! j.
Proof. intros H. destruct w; simpl; [|reflexivity]. apply lookup_insert_ne. congruence. Qed.

Lemma put_same s w m : m !! s = None -> put s w m !! s = w.
Proof. intros H. destruct w; simpl; [apply lookup_insert_eq|exact H]. Qed.

Lemma write_slot_ok regs n m s x :
  0 <= s < n ->
  write_slot {| regions := regs; vtable := Some (n, m) |} s x
  = Ok {| regions := regs; vtable := Some (n, <[s := x]> m) |}.
Proof.
  intros Hs. unfold write_slot. simpl.
  replace ((0 <=? s) && (s <? n)) with true; [reflexivity|].
  symmetry. rewrite andb_true_iff, Z.leb_le, Z.ltb_lt. lia.
Qed.

(** A slot writer given a value of its kind stores [written] and nothing
    else. *)
Lemma PrependSlot_ok a f s v d regs n m :
  0 <= s < n ->
  match v with
  | VBool _ => assoc prepend_kinds f = Some KBool /\ d = D_false
  | VNum k _ => assoc prepend_kinds f = Some (KNum k) /\ d = D_zero
  | VFloat k _ => assoc prepend_kinds f = Some (KFloat k) /\ d = D_zero
  | VOffset _ => assoc prepend_kinds f = Some KUOffsetT /\ d = D_zero
  | _ => False
  end ->
  PrependSlot a f s v d {| regions := regs; vtable := Some (n, m) |}
  = Ok {| regions := regs; vtable := Some (n, put s (written a v) m) |}.
Proof.
  intros Hs Hk. unfold PrependSlot.
  destruct v as [b|k z|k z|?|?|o]; try contradiction; destruct Hk as [-> ->]; simpl.
  - destruct b; [apply write_slot_ok, Hs|reflexivity].
  - replace (num_eqb k k) with true by (destruct k; reflexivity).
    destruct (z =? 0); [reflexivity|apply write_slot_ok, Hs].
  - replace (fl_eqb k k) with true by (destruct k; reflexivity).
    destruct (float_is_zero k z); [reflexivity|apply write_slot_ok, Hs].
  - destruct (o =? 0); [reflexivity|apply write_slot_ok, Hs].
Qed.

Lemma lookup_slot_at regs m s :
  0 <= s ->
  lookup_slot {| t_regions := regs; t_slots := m |} (4 + 2 * s) = Ok (m !! s).
Proof.
  intros Hs. unfold lookup_slot.
  replace (4 <=? 4 + 2 * s) with true by (symmetry; apply Z.leb_le; lia).
  replace (Z.even (4 + 2 * s)) with true.
  2:{ symmetry. replace (4 + 2 * s) with (2 * (2 + s)) by lia. apply Z.even_mul. }
  simpl. do 2 f_equal. replace (4 + 2 * s - 4) with (s * 2) by lia.
  apply Z.div_mul. lia.
Qed.

Lemma GetSlot_num a acc k k' s z regs m :
  assoc get_kinds acc = Some (KNum k') ->
  bits a k' <= bits a k ->
  0 <= s -> m !! s = written a (VNum k z) ->
  GetSlot a acc (4 + 2 * s) (Some D_zero) {| t_regions := regs; t_slots := m |}
  = Ok (VNum k' (convert a k' (z mod 2 ^ bits a k))).
Proof.
  intros Hacc Hb Hs Hm. unfold GetSlot. rewrite Hacc, lookup_slot_at by assumption.
  simpl in *. rewrite Hm. destruct (Z.eqb_spec z 0) as [->|Hz].
  - rewrite Z.mod_0_l by (apply Z.pow_nonzero; pose proof (bits_pos a k); lia).
    now rewrite convert_zero.
  - replace (bits a k' <=? bits a k) with true by (symmetry; apply Z.leb_le; exact Hb).
    reflexivity.
Qed.

Lemma GetSlot_float a acc k s pattern regs m :
  assoc get_kinds acc = Some (KFloat k) ->
  0 <= s -> 0 <= pattern < 2 ^ fbits k ->
  m !! s = written a (VFloat k pattern) ->
  GetSlot a acc (4 + 2 * s) (Some D_zero) {| t_regions := regs; t_slots := m |}
  = Ok (decoded a (VFloat k pattern)).
Proof.
  intros Hacc Hs Hp Hm. unfold GetSlot. rewrite Hacc, lookup_slot_at by assumption.
  simpl in *. rewrite Hm. destruct (float_is_zero k pattern); [reflexivity|].
  simpl. rewrite Z.leb_refl, Z.mod_mod, Z.mod_small; [reflexivity|exact Hp|].
  apply Z.pow_nonzero; destruct k; simpl; lia.
Qed.

Lemma GetSlot_bool a s b regs m :
  0 <= s -> m !! s = written a (VBool b) ->
  GetSlot a "Bool" (4 + 2 * s) (Some D_false) {| t_regions := regs; t_slots := m |}
  = Ok (VBool b).
Proof.
  intros Hs Hm. unfold GetSlot. simpl. rewrite lookup_slot_at by assumption.
  simpl in *. rewrite Hm. destruct b; reflexivity.
Qed.

Lemma GetSlot_ref a acc s o data regs m :
  0 <= s -> 1 <= o -> regs !! Z.to_nat (o - 1) = Some data ->
  m !! s = written a (VOffset o) ->
  (acc = "String"%string ->
     GetSlot a acc (4 + 2 * s) None {| t_regions := regs; t_slots := m |}
     = Ok (VString (string_of_list_byte data)))
  /\ (acc = "ByteVector"%string ->
     GetSlot a acc (4 + 2 * s) None {| t_regions := regs; t_slots := m |}
     = Ok (VBytes data)).
Proof.
  intros Hs Ho Hr Hm. simpl in Hm.
  replace (o =? 0) with false in Hm by (symmetry; apply Z.eqb_neq; lia).
  split; intros ->; unfold GetSlot; simpl; rewrite lookup_slot_at by assumption;
    simpl; rewrite Hm; simpl; unfold region_at; simpl;
    replace (1 <=? o) with true by (symmetry; apply Z.leb_le; lia);
    rewrite Hr; reflexivity.
Qed.

Ltac write_num K z Hs Hf :=
  rewrite (PrependSlot_ok _ _ _ (VNum K z) D_zero)
    by (first [exact Hs | split; [exact Hf | reflexivity]]);
  rewrite bind_Ok.

Ltac read_num K' K z :=
  rewrite (GetSlot_num _ _ K K' _ z) by (first [reflexivity | lia | assumption]).

Ltac answer :=
  eexists; split; [reflexivity|]; split; [reflexivity|].

(** A field of a pass-through integer type: written as it is, read back
    with the accessor of the same type. *)
Ltac passthrough Hs Hf Hz :=
  match goal with
  | |- context [PrependSlot ?a _ _ (VNum ?K ?z) _ _] =>
      rewrite (scalar_written a K z Hz);
      write_num K z Hs Hf; answer;
      let m' := fresh "m'" in let Hm := fresh "Hm" in
      intros m' Hm; read_num K K z; rewrite convert_stored by exact Hz; reflexivity
  end.

(** A field of a floating-point type: written and read with the slot of the
    same type. *)
Ltac floating Hs Hf Hz :=
  match goal with
  | |- context [PrependSlot ?a _ _ (VFloat ?K ?z) _ _] =>
      rewrite <- (float_written a K z Hz);
      rewrite (PrependSlot_ok _ _ _ (VFloat K z) D_zero)
        by (first [exact Hs | split; [exact Hf | reflexivity]]);
      rewrite bind_Ok; answer;
      let m' := fresh "m'" in let Hm := fresh "Hm" in
      intros m' Hm;
      rewrite (GetSlot_float a _ K _ z) by (first [reflexivity | lia | assumption]);
      reflexivity
  end.

(** *** The round trip *)

Section RoundTrip.
Variables (a : Arch) (entity : Entity.t) (ent : gmap string Value) (id : Z).
Hypothesis Hwf : wf_entity entity.
Hypothesis Hwt : well_typed a entity ent.
Hypothesis Hid : 0 <= id < 2 ^ 64.

#[local] Abbreviation props := (Entity.Properties entity).
#[local] Abbreviation idn := (Property.Name (Entity.IdProperty entity)).
#[local] Abbreviation n := (IdUid.GetId (Entity.LastPropertyId entity)).

Lemma property_facts p :
  In p props ->
  exists ty v,
    assoc type_names (Property.GoType p) = Some ty
    /\ assoc prepend_kinds (Property.FbType p) = Some (storage ty)
    /\ 0 <= Property.FbSlot p < n
    /\ Property.FbvTableOffset p = 4 + 2 * Property.FbSlot p
    /\ ent !! Property.Name p = Some v
    /\ has_type a ty v.
Proof.
  intros Hp.
  pose proof (proj1 (List.Forall_forall _ _) (wf_properties _ Hwf) p Hp) as [Ht Hs Ho].
  destruct Ht as (ty & Hg & Hf).
  destruct (wt_values _ _ _ Hwt p Hp) as (ty' & v & Hg' & Hv & Hty).
  assert (ty' = ty) as -> by congruence.
  exists ty, v. auto 10.
Qed.

Lemma id_property p :
  In p props -> Property.Name p = idn -> p = Entity.IdProperty entity.
Proof.
  intros Hp E.
  exact (NoDup_map_inj Property.Name props p _ (wf_names _ Hwf) Hp (wf_id_in _ Hwf) E).
Qed.

(** One property: the statement [Flatten] has for it runs, touches no slot
    but its own and leaves there what the specification has for the
    property, and the expression [ToObject] has for the property reads from
    it the field's value as it comes back (the identifier for the identifier
    property). *)
Lemma slot_step p fr m :
  In p props ->
  vtable (fbb fr) = Some (n, m) ->
  (ent_declared fr = true \/ Property.Name p = idn) ->
  (Property.FbType p = "UOffsetT"%string ->
     exists o v, offsets fr !! Property.Name p = Some o /\ 1 <= o
       /\ ent !! Property.Name p = Some v
       /\ regions (fbb fr) !! Z.to_nat (o - 1) = Some (payload v)) ->
  exists v,
    step a ent id fr (Flatten_slot entity p)
    = Ok {| ent_declared := ent_declared fr; offsets := offsets fr;
            fbb := {| regions := regions (fbb fr);
                      vtable := Some (n, put (Property.FbSlot p)
                                           (spec_slot a entity ent id (offsets fr) p)
                                           m) |} |}
    /\ expected a entity ent id p = Some v
    /\ forall m', m' !! Property.FbSlot p = spec_slot a entity ent id (offsets fr) p ->
         eval_Read a {| t_regions := regions (fbb fr); t_slots := m' |}
           (snd (ToObject_field p)) = Ok v.
Proof.
  intros Hp Hvt Hdecl Hoff.
  destruct (property_facts p Hp) as (ty & v & Hg & Hf & Hs & Ho & Hv & Hty).
  destruct fr as [decl offs [regs vt]]. simpl in *. subst vt.
  unfold expected, ToObject_field, Flatten_slot, step, spec_slot. rewrite Ho.
  pose proof (prepend_kind_offset _ _ Hf) as HU.
  destruct (String.eqb_spec (Property.Name p) idn) as [Hn|Hn].
  - (* the identifier *)
    pose proof (id_property p Hp Hn) as ->.
    rewrite (wf_id_type _ Hwf) in *. vm_compute in Hg. injection Hg as <-.
    destruct v as [|k z| | | |]; try contradiction. destruct Hty as [-> Hz].
    rewrite HU. simpl. rewrite (scalar_id a id Hid).
    write_num Uint64 id Hs Hf. answer.
    intros m' Hm. read_num Uint64 Uint64 id.
    rewrite convert_stored; [reflexivity|]. unfold min_of, max_of. simpl. lia.
  - (* the other properties, by Go type *)
    assert (decl = true) as -> by (destruct Hdecl; congruence).
    clear Hdecl.
    apply assoc_In in Hg. simpl in Hg.
    repeat (destruct Hg as [Hg|Hg];
            [injection Hg as Hg <-; symmetry in Hg; rewrite Hg in *; clear Hg|]);
      [..|contradiction].
    all: simpl in HU; rewrite HU; simpl.
    all: destruct v as [b|k z|k z|s|bs|o]; try contradiction; rewrite Hv.
    all: rewrite ?bind_Ok.
    all: simpl in Hty; try match type of Hty with _ /\ _ => destruct Hty as [-> Hz] end.
    all: cbn [fmap option_fmap option_map decoded].
    + (* bool *)
      change (if b then Some (Scalar 8 1) else None) with (written a (VBool b)).
      rewrite (PrependSlot_ok _ _ _ (VBool b) D_false)
        by (first [exact Hs | split; [exact Hf | reflexivity]]).
      rewrite bind_Ok. answer.
      intros m' Hm. apply GetSlot_bool; [lia|exact Hm].
    + (* string *)
      destruct (Hoff (proj1 (String.eqb_eq _ _) HU)) as (o & v' & Ho' & Hpos & Hv' & Hr).
      rewrite Hv in Hv'. injection Hv' as <-. rewrite Ho', bind_Ok.
      replace (Ref <$> Some o) with (written a (VOffset o))
        by (simpl; replace (o =? 0) with false by (symmetry; apply Z.eqb_neq; lia);
            reflexivity).
      rewrite (PrependSlot_ok _ _ _ (VOffset o) D_zero)
        by (first [exact Hs | split; [exact Hf | reflexivity]]).
      rewrite bind_Ok. answer. intros m' Hm.
      rewrite (proj1 (GetSlot_ref a "String" _ o _ regs m' (proj1 Hs) Hpos Hr Hm) eq_refl).
      simpl. now rewrite string_of_list_byte_of_string.
    + (* []byte *)
      destruct (Hoff (proj1 (String.eqb_eq _ _) HU)) as (o & v' & Ho' & Hpos & Hv' & Hr).
      rewrite Hv in Hv'. injection Hv' as <-. rewrite Ho', bind_Ok.
      replace (Ref <$> Some o) with (written a (VOffset o))
        by (simpl; replace (o =? 0) with false by (symmetry; apply Z.eqb_neq; lia);
            reflexivity).
      rewrite (PrependSlot_ok _ _ _ (VOffset o) D_zero)
        by (first [exact Hs | split; [exact Hf | reflexivity]]).
      rewrite bind_Ok. answer. intros m' Hm.
      rewrite (proj2 (GetSlot_ref a "ByteVector" _ o _ regs m' (proj1 Hs) Hpos Hr Hm)
                 eq_refl).
      reflexivity.
    + (* int8 *) passthrough Hs Hf Hz.
    + (* int16 *) passthrough Hs Hf Hz.
    + (* int32 *) passthrough Hs Hf Hz.
    + (* int64 *) passthrough Hs Hf Hz.
    + (* uint8 *) passthrough Hs Hf Hz.
    + (* uint16 *) passthrough Hs Hf Hz.
    + (* uint32 *) passthrough Hs Hf Hz.
    + (* uint64 *) passthrough Hs Hf Hz.
    + (* int: through int32, back through uint32 *)
      rewrite (scalar_narrow a Int32 z) by auto.
      write_num Int32 (convert a Int32 z) Hs Hf. answer. intros m' Hm.
      read_num Uint32 Int32 (convert a Int32 z). rewrite bind_Ok. simpl.
      do 2 f_equal. rewrite (convert32_mod a Int32 z) by auto.
      unfold convert at 2. simpl. rewrite Z.mod_mod by lia.
      apply (narrow_decoded a Int z); auto.
    + (* uint: through uint32 *)
      rewrite (scalar_narrow a Uint32 z) by auto.
      write_num Uint32 (convert a Uint32 z) Hs Hf. answer. intros m' Hm.
      read_num Uint32 Uint32 (convert a Uint32 z). rewrite bind_Ok. simpl.
      do 2 f_equal. rewrite (convert32_mod a Uint32 z) by auto.
      unfold convert at 2. simpl. rewrite Z.mod_mod by lia.
      apply (narrow_decoded a Uint z); auto.
    + (* rune *)
      rewrite (scalar_written a Int32 z Hz).
      write_num Int32 z Hs Hf. answer. intros m' Hm.
      read_num Int32 Int32 z. rewrite bind_Ok. simpl.
      rewrite convert_stored by exact Hz. now rewrite convert_id.
    + (* byte *) passthrough Hs Hf Hz.
    + (* float32 *) floating Hs Hf Hz.
    + (* float64 *) floating Hs Hf Hz.
Qed.

Lemma run_app body1 body2 fr :
  run a ent id (body1 ++ body2) fr = run a ent id body1 fr ≫= run a ent id body2.
Proof.
  revert fr. induction body1 as [|s body1 IH]; intros fr; simpl; [reflexivity|].
  destruct (step a ent id fr s); simpl; [apply IH|reflexivity..].
Qed.

(** A property stored by reference is not the identifier, and its Go type
    is [string] or [[]byte]. *)
Lemma offset_property p :
  In p props -> Property.FbType p = "UOffsetT"%string ->
  Property.Name p <> idn
  /\ ((Property.GoType p = "string"%string /\ exists s, ent !! Property.Name p = Some (VString s))
      \/ (Property.GoType p = "[]byte"%string
          /\ exists b, ent !! Property.Name p = Some (VBytes b))).
Proof.
  intros Hp HF.
  destruct (property_facts p Hp) as (ty & v & Hg & Hf & Hs & Ho & Hv & Hty).
  pose proof (prepend_kind_offset _ _ Hf) as HU. rewrite HF in HU. simpl in HU.
  split.
  - intros Hn. pose proof (id_property p Hp Hn) as ->.
    rewrite (wf_id_type _ Hwf) in Hg. vm_compute in Hg. injection Hg as <-.
    discriminate HU.
  - apply assoc_In in Hg. simpl in Hg.
    repeat (destruct Hg as [Hg|Hg];
            [injection Hg as Hg <-; symmetry in Hg; try discriminate HU|]);
      [..|contradiction].
    + left. split; [exact Hg|]. destruct v; try contradiction. eauto.
    + right. split; [exact Hg|]. destruct v; try contradiction. eauto.
Qed.

Lemma child_regions_cons p ps :
  child_regions ent (p :: ps) = child_regions ent [p] ++ child_regions ent ps.
Proof. unfold child_regions. simpl. now rewrite app_nil_r. Qed.

(** A property that is not stored by reference has no child region. *)
Lemma fixed_property p :
  In p props -> Property.FbType p <> "UOffsetT"%string -> child_regions ent [p] = [].
Proof.
  intros Hp HF.
  destruct (property_facts p Hp) as (ty & v & Hg & Hf & Hs & Ho & Hv & Hty).
  pose proof (prepend_kind_offset _ _ Hf) as HU.
  apply String.eqb_neq in HF. rewrite HF in HU.
  unfold child_regions. simpl. rewrite Hv.
  destruct ty, v; simpl in Hty; try contradiction; try discriminate HU; reflexivity.
Qed.

Lemma offsets_phase ps : forall fr,
  (forall p, In p ps -> In p props) ->
  NoDup (map Property.Name ps) ->
  vtable (fbb fr) = None ->
  (forall p, In p ps -> offsets fr !! Property.Name p = None) ->
  (ent_declared fr = true \/ forall p, In p props -> Property.Name p = idn) ->
  offsets_inv ent fr ->
  exists fr',
    run a ent id (flat_map Flatten_offset ps) fr = Ok fr'
    /\ ent_declared fr' = ent_declared fr
    /\ vtable (fbb fr') = None
    /\ offsets_inv ent fr'
    /\ (forall name, is_Some (offsets fr !! name) -> is_Some (offsets fr' !! name))
    /\ (forall p, In p ps -> Property.FbType p = "UOffsetT"%string ->
          is_Some (offsets fr' !! Property.Name p))
    /\ regions (fbb fr') = regions (fbb fr) ++ child_regions ent ps.
Proof.
  induction ps as [|p ps IH]; intros fr Hin Hnd Hvt Hfresh Hdecl Hinv.
  - exists fr. simpl. split; [reflexivity|]. split; [reflexivity|].
    split; [exact Hvt|]. split; [exact Hinv|]. split; [auto|].
    split; [intros p []|]. now rewrite app_nil_r.
  - apply NoDup_cons in Hnd as [Hp_notin Hnd].
    assert (Hp : In p props) by (apply Hin; left; reflexivity).
    assert (Hin' : forall q, In q ps -> In q props) by (intros q Hq; apply Hin; right; exact Hq).
    assert (Hne : forall q, In q ps -> Property.Name q <> Property.Name p).
    { intros q Hq E. apply Hp_notin. rewrite <- E. apply list_elem_of_In, in_map, Hq. }
    simpl. rewrite run_app.
    destruct (String.eqb_spec (Property.FbType p) "UOffsetT") as [HF|HF].
    + destruct (offset_property p Hp HF) as (Hn & Hcase).
      assert (Hd : ent_declared fr = true).
      { destruct Hdecl as [Hd|Hall]; [exact Hd|]. exfalso. apply Hn, Hall, Hp. }
      assert (Hstep : exists data v,
                ent !! Property.Name p = Some v /\ payload v = data
                /\ child_regions ent [p] = [data]
                /\ run a ent id (Flatten_offset p) fr
                   = Ok {| ent_declared := ent_declared fr;
                           offsets := <[Property.Name p :=
                                          Z.of_nat (S (length (regions (fbb fr))))]>
                                        (offsets fr);
                           fbb := {| regions := regions (fbb fr) ++ [data];
                                     vtable := None |} |}).
      { unfold Flatten_offset. rewrite HF. simpl.
        destruct Hcase as [(Hg & s & Hv)|(Hg & b & Hv)]; rewrite Hg; simpl;
          rewrite (Hfresh p (or_introl eq_refl)), Hd, Hv; simpl;
          unfold CreateVector; rewrite Hvt; simpl;
          eexists _, _; (split; [reflexivity|]); (split; [reflexivity|]);
          (split; [unfold child_regions; simpl; rewrite ?Hv; reflexivity|reflexivity]). }
      destruct Hstep as (data & v & Hv & Hdata & Hchild & ->). rewrite bind_Ok.
      match goal with |- context [run a ent id _ ?f] => set (fr1 := f) end.
      destruct (IH fr1) as (fr' & Hrun & Hd' & Hvt' & Hinv' & Hmono & Hdom & Hregs); auto.
      * intros q Hq. unfold fr1. simpl. rewrite lookup_insert_ne by (apply not_eq_sym, Hne, Hq).
        apply Hfresh. right. exact Hq.
      * intros name o. unfold fr1. simpl. rewrite lookup_insert.
        destruct (decide (Property.Name p = name)) as [<-|Hneq].
        -- intros [= <-]. split; [lia|]. exists v. split; [exact Hv|].
           replace (Z.to_nat (Z.of_nat (S (length (regions (fbb fr)))) - 1))
             with (length (regions (fbb fr))) by lia.
           rewrite Hdata. apply list_lookup_middle. reflexivity.
        -- intros Ho. destruct (Hinv name o Ho) as (Hpos & v' & Hv' & Hr).
           split; [exact Hpos|]. exists v'. split; [exact Hv'|].
           apply lookup_app_l_Some. exact Hr.
      * exists fr'. rewrite Hrun. split; [reflexivity|]. split; [exact Hd'|].
        split; [exact Hvt'|]. split; [exact Hinv'|]. split; [|split].
        -- intros name Hname. apply Hmono. unfold fr1. simpl.
           rewrite lookup_insert. destruct (decide (Property.Name p = name)); eauto.
        -- intros q [<-|Hq] HFq; [|apply Hdom; assumption].
           apply Hmono. unfold fr1. simpl. rewrite lookup_insert_eq. eauto.
        -- rewrite Hregs, child_regions_cons, Hchild. unfold fr1. simpl.
           now rewrite <- app_assoc.
    + assert (Hnil : Flatten_offset p = []).
      { unfold Flatten_offset. apply String.eqb_neq in HF. rewrite HF. reflexivity. }
      rewrite Hnil. simpl.
      destruct (IH fr) as (fr' & Hrun & Hd' & Hvt' & Hinv' & Hmono & Hdom & Hregs); auto.
      * intros q Hq. apply Hfresh. right. exact Hq.
      * exists fr'. split; [exact Hrun|]. split; [exact Hd'|].
        split; [exact Hvt'|]. split; [exact Hinv'|]. split; [exact Hmono|].
        split; [intros q [<-|Hq] HFq; [contradiction|apply Hdom; assumption]|].
        rewrite Hregs, child_regions_cons, (fixed_property p Hp HF). reflexivity.
Qed.

Lemma slots_phase ps : forall fr m,
  (forall p, In p ps -> In p props) ->
  NoDup (map Property.FbSlot ps) ->
  vtable (fbb fr) = Some (n, m) ->
  (forall p, In p ps -> m !! Property.FbSlot p = None) ->
  (ent_declared fr = true \/ forall p, In p props -> Property.Name p = idn) ->
  offsets_inv ent fr ->
  (forall p, In p ps -> Property.FbType p = "UOffsetT"%string ->
     is_Some (offsets fr !! Property.Name p)) ->
  exists m',
    run a ent id (map (Flatten_slot entity) ps) fr
    = Ok {| ent_declared := ent_declared fr; offsets := offsets fr;
            fbb := {| regions := regions (fbb fr); vtable := Some (n, m') |} |}
    /\ (forall k, ~ In k (map Property.FbSlot ps) -> m' !! k = m !! k)
    /\ (forall p, In p ps ->
          m' !! Property.FbSlot p = spec_slot a entity ent id (offsets fr) p)
    /\ (forall p, In p ps ->
          exists v, expected a entity ent id p = Some v
            /\ eval_Read a {| t_regions := regions (fbb fr); t_slots := m' |}
                 (snd (ToObject_field p)) = Ok v).
Proof.
  induction ps as [|p ps IH]; intros fr m Hin Hnd Hvt Hfree Hdecl Hinv Hdom.
  - exists m. destruct fr as [decl offs [regs vt]]. simpl in *. subst vt.
    split; [reflexivity|]. split; [reflexivity|]. split; intros p [].
  - apply NoDup_cons in Hnd as [Hp_notin Hnd].
    assert (Hp : In p props) by (apply Hin; left; reflexivity).
    assert (Hne : forall q, In q ps -> Property.FbSlot q <> Property.FbSlot p).
    { intros q Hq E. apply Hp_notin. rewrite <- E. apply list_elem_of_In, in_map, Hq. }
    destruct (slot_step p fr m Hp Hvt) as (v & Hstep & Hexp & Hread).
    { destruct Hdecl as [Hd|Hall]; [left; exact Hd|right; apply Hall, Hp]. }
    { intros HF. destruct (Hdom p (or_introl eq_refl) HF) as [o Ho].
      destruct (Hinv _ _ Ho) as (Hpos & v & Hv & Hr). eauto 10. }
    set (w := spec_slot a entity ent id (offsets fr) p) in *.
    simpl. rewrite Hstep, bind_Ok.
    match goal with |- context [run a ent id _ ?f] => set (fr1 := f) end.
    assert (H1 : forall q, In q ps -> In q props) by (intros q Hq; apply Hin; right; exact Hq).
    assert (H2 : forall q, In q ps -> put (Property.FbSlot p) w m !! Property.FbSlot q = None).
    { intros q Hq. rewrite put_other by (apply Hne, Hq). apply Hfree. right. exact Hq. }
    assert (H3 : forall q, In q ps -> Property.FbType q = "UOffsetT"%string ->
                   is_Some (offsets fr1 !! Property.Name q)).
    { intros q Hq HF. apply Hdom; [right; exact Hq|exact HF]. }
    destruct (IH fr1 (put (Property.FbSlot p) w m) H1 Hnd eq_refl H2 Hdecl Hinv H3)
      as (m' & Hrun & Hother & Hslots & Hreads).
    assert (Hmine : m' !! Property.FbSlot p = w).
    { rewrite Hother.
      - apply put_same, Hfree. left. reflexivity.
      - intros Hk. apply Hp_notin, list_elem_of_In, Hk. }
    exists m'. split; [exact Hrun|]. split; [|split].
    + intros k Hk. rewrite Hother by (intros Hk'; apply Hk; right; exact Hk').
      apply put_other. intros ->. apply Hk. left. reflexivity.
    + intros q [<-|Hq]; [exact Hmine|apply (Hslots q Hq)].
    + intros q [<-|Hq]; [|apply Hreads, Hq].
      exists v. split; [exact Hexp|]. apply Hread. exact Hmine.
Qed.

Lemma ToObject_phase table ps :
  NoDup (map Property.Name ps) ->
  (forall p, In p ps ->
     exists v, expected a entity ent id p = Some v
       /\ eval_Read a table (snd (ToObject_field p)) = Ok v) ->
  exists M,
    ToObject_call a (map ToObject_field ps) table = Ok M
    /\ (forall p, In p ps -> M !! Property.Name p = expected a entity ent id p)
    /\ (forall name, ~ In name (map Property.Name ps) -> M !! name = None).
Proof.
  induction ps as [|p ps IH]; intros Hnd Hreads.
  - exists ∅. split; [reflexivity|]. split; [intros p []|]. intros name _.
    apply lookup_empty.
  - apply NoDup_cons in Hnd as [Hp_notin Hnd].
    destruct (Hreads p (or_introl eq_refl)) as (v & Hexp & Hread).
    destruct (IH Hnd) as (M & Hcall & Hprops & Hrest).
    { intros q Hq. apply Hreads. right. exact Hq. }
    assert (HM : M !! Property.Name p = None).
    { apply Hrest. intros H. apply Hp_notin, list_elem_of_In, H. }
    exists (<[Property.Name p := v]> M). split; [|split].
    + change (map ToObject_field (p :: ps))
        with ((Property.Name p, snd (ToObject_field p)) :: map ToObject_field ps).
      cbn [ToObject_call]. rewrite Hread, bind_Ok, Hcall, bind_Ok, HM. reflexivity.
    + intros q [<-|Hq].
      * rewrite lookup_insert_eq. symmetry. exact Hexp.
      * rewrite lookup_insert_ne; [apply Hprops, Hq|].
        intros E. apply Hp_notin. rewrite E. apply list_elem_of_In, in_map, Hq.
    + intros name Hname. rewrite lookup_insert_ne; [apply Hrest|].
      * intros H. apply Hname. right. exact H.
      * intros E. apply Hname. left. exact E.
Qed.

Lemma Flatten_slot_shape p :
  exists value d,
    Flatten_slot entity p
    = S_PrependSlot (Property.FbType p) (Property.FbSlot p) value d.
Proof.
  unfold Flatten_slot.
  repeat match goal with |- context [if ?b then _ else _] => destruct b end;
    eexists _, _; reflexivity.
Qed.

Lemma no_ent_in_offsets ps : existsb declares_ent (flat_map Flatten_offset ps) = false.
Proof.
  induction ps as [|p ps IH]; [reflexivity|]. simpl. rewrite existsb_app, IH, orb_false_r.
  unfold Flatten_offset.
  repeat match goal with |- context [if ?b then _ else _] => destruct b end; reflexivity.
Qed.

Lemma no_ent_in_slots ps : existsb declares_ent (map (Flatten_slot entity) ps) = false.
Proof.
  induction ps as [|p ps IH]; [reflexivity|]. simpl. rewrite IH, orb_false_r.
  destruct (Flatten_slot_shape p) as (value & d & ->). reflexivity.
Qed.

(** A property other than the identifier makes the body use [ent]. *)
Lemma other_property_uses_ent p :
  In p props -> Property.Name p <> idn ->
  existsb uses_ent (Flatten_offset p) = true
  \/ uses_ent (Flatten_slot entity p) = true.
Proof.
  intros Hp Hn. destruct (String.eqb_spec (Property.FbType p) "UOffsetT") as [HF|HF].
  - left. unfold Flatten_offset. rewrite HF. simpl.
    destruct (offset_property p Hp HF) as (_ & [(Hg & _)|(Hg & _)]); rewrite Hg; reflexivity.
  - right. unfold Flatten_slot.
    apply String.eqb_neq in HF, Hn. rewrite HF, Hn.
    repeat match goal with |- context [if ?b then _ else _] => destruct b end; reflexivity.
Qed.

Lemma ent_check :
  existsb declares_ent (Flatten entity) && negb (existsb uses_ent (Flatten entity)) = false.
Proof.
  unfold Flatten. destruct (Entity.HasNonIdProperty entity) eqn:Hflag.
  - destruct (proj1 (wf_flag _ Hwf) Hflag) as (p & Hp & Hn).
    replace (existsb uses_ent _) with true; [apply andb_false_r|]. symmetry.
    rewrite !existsb_app, !orb_true_iff. right.
    destruct (other_property_uses_ent p Hp Hn) as [H|H].
    + left. apply existsb_exists in H as (s & Hs & Hu).
      apply existsb_exists. exists s. split; [|exact Hu].
      apply in_flat_map. eauto.
    + right. right. apply existsb_exists. exists (Flatten_slot entity p).
      split; [apply in_map, Hp|exact H].
  - rewrite !existsb_app, no_ent_in_offsets, no_ent_in_slots. reflexivity.
Qed.

Lemma all_names_id :
  Entity.HasNonIdProperty entity = false -> forall p, In p props -> Property.Name p = idn.
Proof.
  intros Hflag p Hp. destruct (String.eqb_spec (Property.Name p) idn) as [E|E]; [exact E|].
  exfalso. assert (Entity.HasNonIdProperty entity = true) by (apply Hwf; eauto).
  congruence.
Qed.

(** The run of the generated [Flatten] on a fresh builder, in its two
    parts: the statements up to the last offset creation, after which every
    child region exists and no slot region is open, and the statements from
    [StartObject] on, which leave the regions alone. The slots are then what
    the specification says, and [ToObject] reads from them the fields as they
    come back. *)
Lemma Flatten_runs :
  let fr0 := {| ent_declared := false; offsets := ∅; fbb := NewBuilder |} in
  exists fr1 fr2 m,
    run a ent id ((if Entity.HasNonIdProperty entity
                   then [S_ent (Entity.Name entity)] else [])
                  ++ flat_map Flatten_offset props) fr0 = Ok fr1
    /\ vtable (fbb fr1) = None
    /\ regions (fbb fr1) = child_regions ent props
    /\ offsets_inv ent fr1
    /\ (forall p, In p props -> Property.FbType p = "UOffsetT"%string ->
          is_Some (offsets fr1 !! Property.Name p))
    /\ run a ent id ([S_StartObject n] ++ map (Flatten_slot entity) props) fr1 = Ok fr2
    /\ fbb fr2 = {| regions := regions (fbb fr1); vtable := Some (n, m) |}
    /\ (forall p, In p props ->
          m !! Property.FbSlot p = spec_slot a entity ent id (offsets fr1) p)
    /\ (forall k, ~ In k (map Property.FbSlot props) -> m !! k = None)
    /\ Flatten_call a (Flatten entity) ent id NewBuilder = Ok (fbb fr2)
    /\ (forall p, In p props ->
          exists v, expected a entity ent id p = Some v
            /\ eval_Read a {| t_regions := regions (fbb fr1); t_slots := m |}
                 (snd (ToObject_field p)) = Ok v).
Proof.
  intros fr0.
  (* the declaration of [ent] *)
  assert (Hpre : exists fr1,
            run a ent id (if Entity.HasNonIdProperty entity
                          then [S_ent (Entity.Name entity)] else []) fr0 = Ok fr1
            /\ offsets fr1 = ∅ /\ fbb fr1 = NewBuilder
            /\ (ent_declared fr1 = true
                \/ forall p, In p props -> Property.Name p = idn)).
  { destruct (Entity.HasNonIdProperty entity) eqn:Hflag.
    - eexists. split; [reflexivity|]. simpl. auto.
    - exists fr0. split; [reflexivity|]. simpl. split; [reflexivity|].
      split; [reflexivity|]. right. apply all_names_id, Hflag. }
  destruct Hpre as (fr1 & Hrun1 & Hoffs1 & Hfbb1 & Hdecl1).
  (* the child regions *)
  destruct (offsets_phase props fr1)
    as (fr2 & Hrun2 & Hdecl2 & Hvt2 & Hinv2 & _ & Hdom2 & Hregs2).
  { auto. } { apply Hwf. } { rewrite Hfbb1. reflexivity. }
  { intros p _. rewrite Hoffs1. apply lookup_empty. } { exact Hdecl1. }
  { intros name o. rewrite Hoffs1, lookup_empty. discriminate. }
  rewrite Hfbb1 in Hregs2. simpl in Hregs2.
  (* the slot region *)
  assert (Hn : 0 <= n).
  { destruct (property_facts _ (wf_id_in _ Hwf)) as (_ & _ & _ & _ & Hs & _). lia. }
  set (fr3 := {| ent_declared := ent_declared fr2; offsets := offsets fr2;
                 fbb := {| regions := regions (fbb fr2); vtable := Some (n, ∅) |} |}).
  assert (Hstart : run a ent id [S_StartObject n] fr2 = Ok fr3).
  { simpl. unfold StartObject. rewrite Hvt2.
    replace (n <? 0) with false by (symmetry; apply Z.ltb_ge; exact Hn). reflexivity. }
  destruct (slots_phase props fr3 ∅) as (m' & Hrun3 & Hother & Hslots & Hreads).
  { auto. } { apply Hwf. } { reflexivity. } { intros p _. apply lookup_empty. }
  { unfold fr3. simpl. rewrite Hdecl2. exact Hdecl1. } { exact Hinv2. } { exact Hdom2. }
  assert (Hsecond : run a ent id ([S_StartObject n] ++ map (Flatten_slot entity) props) fr2
                    = Ok {| ent_declared := ent_declared fr3; offsets := offsets fr3;
                            fbb := {| regions := regions (fbb fr3);
                                      vtable := Some (n, m') |} |}).
  { rewrite run_app, Hstart, bind_Ok. exact Hrun3. }
  eexists fr2, _, m'.
  split; [rewrite run_app, Hrun1, bind_Ok; exact Hrun2|].
  split; [exact Hvt2|]. split; [exact Hregs2|]. split; [exact Hinv2|].
  split; [exact Hdom2|]. split; [exact Hsecond|]. split; [reflexivity|].
  split; [exact Hslots|].
  split; [intros k Hk; rewrite (Hother k Hk); apply lookup_empty|].
  split; [|exact Hreads].
  unfold Flatten_call. rewrite ent_check. unfold Flatten. fold fr0.
  rewrite run_app, Hrun1, bind_Ok, run_app, Hrun2, bind_Ok, Hsecond. reflexivity.
Qed.

(** What the round trip gives: every field as it comes back, with [id] in
    the identifier field. *)
Lemma roundtrip_exact :
  roundtrip a entity ent id = Ok (<[idn := VNum Uint64 id]> (decoded a <$> ent)).
Proof.
  destruct Flatten_runs
    as (fr1 & fr2 & m & _ & _ & _ & _ & _ & _ & Hfbb & _ & _ & Hcall & Hreads).
  unfold roundtrip. rewrite Hcall, bind_Ok. unfold Finish. rewrite Hfbb.
  cbn [vtable regions]. rewrite bind_Ok.
  destruct (ToObject_phase {| t_regions := regions (fbb fr1); t_slots := m |} props)
    as (M & HM & Hprops & Hrest).
  { apply Hwf. } { exact Hreads. }
  unfold ToObject. rewrite HM. f_equal. apply map_eq. intros name.
  rewrite lookup_insert.
  destruct (in_dec string_dec name (map Property.Name props)) as [Hin|Hout].
  - apply in_map_iff in Hin as (p & <- & Hp). rewrite (Hprops p Hp). unfold expected.
    destruct (String.eqb_spec (Property.Name p) idn) as [E|E].
    + rewrite decide_True by (symmetry; exact E). reflexivity.
    + rewrite decide_False by (intros E'; apply E; symmetry; exact E').
      rewrite lookup_fmap. reflexivity.
  - rewrite (Hrest name Hout).
    rewrite decide_False.
    + rewrite lookup_fmap. destruct (ent !! name) eqn:Hl; [|reflexivity].
      exfalso. apply Hout. apply Hwt. eauto.
    + intros <-. apply Hout. apply in_map, Hwf.
Qed.



End RoundTrip.

(** *** The example entities *)

Lemma person_wf : wf_entity person.
Proof.
  constructor.
  - apply (bool_decide_eq_true_1 (NoDup _)). vm_compute. reflexivity.
  - apply (bool_decide_eq_true_1 (NoDup _)). vm_compute. reflexivity.
  - repeat constructor; try (eexists; split; vm_compute; reflexivity); simpl; lia.
  - left. reflexivity.
  - reflexivity.
  - split; [|reflexivity]. intros _.
    exists (property "LastName" "string" "UOffsetT" 1). split; [simpl; tauto|discriminate].
Qed.

Lemma a_person_well_typed age visits :
  - 2 ^ 63 <= age < 2 ^ 63 -> 0 <= visits < 2 ^ 64 ->
  well_typed arch64 person (a_person age visits).
Proof.
  intros Hc Hs. constructor.
  - intros name [v Hv]. unfold a_person in Hv.
    apply elem_of_list_to_map_2, list_elem_of_In in Hv. simpl in *.
    repeat (destruct Hv as [[= <- _]|Hv]; [tauto|]). contradiction.
  - intros p Hp. simpl in Hp.
    repeat (destruct Hp as [<-|Hp];
            [eexists _, _; split; [vm_compute; reflexivity|];
             split; [reflexivity|]; simpl;
             first [exact I | split; [reflexivity|unfold min_of, max_of; simpl; lia]]|]).
    contradiction.
Qed.



Lemma reading_wf : wf_entity reading.
Proof.
  constructor.
  - apply (bool_decide_eq_true_1 (NoDup _)). vm_compute. reflexivity.
  - apply (bool_decide_eq_true_1 (NoDup _)). vm_compute. reflexivity.
  - repeat constructor; try (eexists; split; vm_compute; reflexivity); simpl; lia.
  - left. reflexivity.
  - reflexivity.
  - split; [|reflexivity]. intros _.
    exists (property "Label" "string" "UOffsetT" 4). split; [simpl; tauto|discriminate].
Qed.

Lemma a_reading_well_typed celsius count :
  0 <= celsius < 2 ^ 64 -> - 2 ^ 63 <= count < 2 ^ 63 ->
  well_typed arch64 reading (a_reading celsius count).
Proof.
  intros Hc Hs. constructor.
  - intros name [v Hv]. unfold a_reading in Hv.
    apply elem_of_list_to_map_2, list_elem_of_In in Hv. simpl in *.
    repeat (destruct Hv as [[= <- _]|Hv]; [tauto|]). contradiction.
  - intros p Hp. simpl in Hp.
    repeat (destruct Hp as [<-|Hp];
            [eexists _, _; split; [vm_compute; reflexivity|];
             split; [reflexivity|]; simpl;
             first [exact I
                   | split; [reflexivity|unfold min_of, max_of; simpl; lia]]|]).
    contradiction.
Qed.


(** *** The round-trip law, the unimplemented case and the encoding algorithm *)




(** A body with the unimplemented-case line in it never runs to its end. *)
Lemma run_todo a ent id body name goType :
  In (S_todo name goType) body ->
  forall fr fr', run a ent id body fr <> Ok fr'.
Proof.
  induction body as [|s body IH]; intros Hin fr fr'; [destruct Hin|].
  destruct Hin as [->|Hin]; simpl; [discriminate|].
  destruct (step a ent id fr s); simpl; [apply IH, Hin|discriminate..].
Qed.

Lemma Flatten_todo entity p :
  In p (Entity.Properties entity) ->
  unsupported_offset_property p ->
  In (S_todo (Property.Name p) (Property.GoType p)) (Flatten entity).
Proof.
  intros Hp (HF & Hs & Hb). unfold Flatten.
  apply in_or_app. right. apply in_or_app. left.
  apply in_flat_map. exists p. split; [exact Hp|].
  unfold Flatten_offset. rewrite HF. simpl.
  apply String.eqb_neq in Hs, Hb. rewrite Hs, Hb. left. reflexivity.
Qed.

(** C3, counterexample. The entity [tagged] has the variable-length property
    [Tags] of Go type [[]string]. Executing the template on it does not
    fail: it returns the generated methods, and the body of [Flatten] has the
    line [TODO offset creation for the Tags, type $[]string is not
    implemented] in it. *)
Lemma C3_generation_succeeds_with_todo :
  In tagged_tags (Entity.Properties tagged)
  /\ unsupported_offset_property tagged_tags
  /\ ~ generation_fails tagged
  /\ exists binding,
       execute_entity tagged = Returned binding
       /\ In (S_todo "Tags" "[]string") (flatten_body binding)
       /\ In "TODO offset creation for the Tags, type $[]string is not implemented"%string
            (map show_Stmt (flatten_body binding)).
Proof.
  split; [simpl; tauto|]. split; [repeat split; discriminate|]. split.
  - intros [msg H]. vm_compute in H. discriminate H.
  - eexists. split; [vm_compute; reflexivity|]. split; simpl; tauto.
Qed.

(** C3, as amended. For every entity with a non-empty name that has a
    variable-length property whose Go type is neither [string] nor [[]byte],
    executing the template does not fail: it emits the generated methods, and
    the body of [Flatten] has, in the place of the offset creation, the marked
    line [TODO offset creation for the <Name>, type $<GoType> is not
    implemented]. That line is not Go: no call of the emitted [Flatten] ever
    returns. *)
Theorem C3_unsupported_offset_emits_todo entity p :
  Entity.Name entity <> EmptyString ->
  In p (Entity.Properties entity) ->
  unsupported_offset_property p ->
  exists binding,
    execute_entity entity = Returned binding
    /\ In (S_todo (Property.Name p) (Property.GoType p)) (flatten_body binding)
    /\ In ("TODO offset creation for the " +:+ Property.Name p +:+ ", type $"
           +:+ Property.GoType p +:+ " is not implemented")
          (map show_Stmt (flatten_body binding))
    /\ forall a ent id builder builder',
         Flatten_call a (flatten_body binding) ent id builder <> Ok builder'.
Proof.
  intros Hname Hp Hun. unfold execute_entity.
  destruct (StringCamel_nonempty _ Hname) as (camel & ->).
  eexists. split; [reflexivity|]. simpl.
  pose proof (Flatten_todo entity p Hp Hun) as Hin.
  split; [exact Hin|]. split.
  - apply in_map_iff. exists (S_todo (Property.Name p) (Property.GoType p)).
    split; [reflexivity|exact Hin].
  - intros a ent id builder builder'. unfold Flatten_call.
    destruct (existsb declares_ent (Flatten entity)
              && negb (existsb uses_ent (Flatten entity))); [discriminate|].
    destruct (run a ent id (Flatten entity) _) eqn:E; simpl; try discriminate.
    exfalso. exact (run_todo _ _ _ _ _ _ Hin _ _ E).
Qed.

Lemma C3_unsupported_offset_emits_todo_witness :
  exists binding,
    execute_entity tagged = Returned binding
    /\ In (S_todo "Tags" "[]string") (flatten_body binding)
    /\ In "TODO offset creation for the Tags, type $[]string is not implemented"%string
          (map show_Stmt (flatten_body binding))
    /\ forall a ent id builder builder',
         Flatten_call a (flatten_body binding) ent id builder <> Ok builder'.
Proof.
  apply (C3_unsupported_offset_emits_todo tagged tagged_tags).
  - discriminate.
  - simpl. tauto.
  - repeat split; discriminate.
Defined.

(** C8. A call of the generated [Flatten] on a fresh builder, for a
    well-formed entity and a valid struct, follows the encoding algorithm of
    the specification. The body runs in two parts. After the first, every
    variable-length property (string, byte sequence) has its child region, in
    the order of the properties, the offset of the region is remembered under
    the name of the property, and no slot region is open. The second part
    opens the slot region of [lastPropertyId.id] slots, leaves the child
    regions as they are, and leaves in the slot of every property what the
    specification has for it ([spec_slot]): the identifier supplied by the
    caller for the identifier property, the remembered reference for a
    variable-length property, a 32-bit slot for [int] and [uint], a boolean
    slot for [bool], and the value in its own width for every other type; no
    other slot is written. *)
Theorem C8_Flatten_follows_encoding_algorithm a entity ent id :
  wf_entity entity ->
  well_typed a entity ent ->
  0 <= id < 2 ^ 64 ->
  exists first second fr1 fr2 m,
    Flatten entity = first ++ second
    /\ run a ent id first {| ent_declared := false; offsets := ∅; fbb := NewBuilder |}
       = Ok fr1
    /\ vtable (fbb fr1) = None
    /\ regions (fbb fr1) = child_regions ent (Entity.Properties entity)
    /\ (forall p v, In p (Entity.Properties entity) ->
          ent !! Property.Name p = Some v -> variable_length v = true ->
          exists o, offsets fr1 !! Property.Name p = Some o /\ 1 <= o
            /\ regions (fbb fr1) !! Z.to_nat (o - 1) = Some (payload v))
    /\ run a ent id second fr1 = Ok fr2
    /\ Flatten_call a (Flatten entity) ent id NewBuilder = Ok (fbb fr2)
    /\ fbb fr2 = {| regions := regions (fbb fr1);
                    vtable := Some (IdUid.GetId (Entity.LastPropertyId entity), m) |}
    /\ (forall p, In p (Entity.Properties entity) ->
          m !! Property.FbSlot p = spec_slot a entity ent id (offsets fr1) p)
    /\ (forall k, ~ In k (map Property.FbSlot (Entity.Properties entity)) ->
          m !! k = None).
Proof.
  intros Hwf Hwt Hid.
  destruct (Flatten_runs a entity ent id Hwf Hwt Hid)
    as (fr1 & fr2 & m & Hrun1 & Hvt & Hregs & Hinv & Hdom & Hrun2 & Hfbb & Hslots
        & Hother & Hcall & _).
  eexists _, _, fr1, fr2, m.
  split; [unfold Flatten; apply app_assoc|].
  split; [exact Hrun1|]. split; [exact Hvt|]. split; [exact Hregs|].
  split; [|auto 10].
  intros p v Hp Hv Hvar.
  destruct (property_facts a entity ent Hwf Hwt p Hp)
    as (ty & v' & Hg & Hf & _ & _ & Hv' & Hty).
  rewrite Hv in Hv'. injection Hv' as <-.
  assert (HF : Property.FbType p = "UOffsetT"%string).
  { apply String.eqb_eq. rewrite (prepend_kind_offset _ _ Hf).
    destruct ty, v; simpl in Hty; try contradiction; try discriminate Hvar;
      reflexivity. }
  destruct (Hdom p Hp HF) as [o Ho].
  destruct (Hinv _ _ Ho) as (Hpos & v' & Hv' & Hr).
  rewrite Hv in Hv'. injection Hv' as <-. eauto.
Qed.

Lemma C8_Flatten_follows_encoding_algorithm_witness :
  exists builder m,
    Flatten_call arch64 (Flatten reading) (a_reading 7 (-1)) 42 NewBuilder = Ok builder
    /\ regions builder = [list_byte_of_string "north"]
    /\ vtable builder = Some (5, m)
    /\ m !! 0 = Some (Scalar 64 42)
    /\ m !! 3 = Some (Scalar 32 4294967295)
    /\ m !! 4 = Some (Ref 1)
    /\ m !! 5 = None.
Proof.
  destruct (C8_Flatten_follows_encoding_algorithm arch64 reading (a_reading 7 (-1)) 42
              reading_wf (a_reading_well_typed 7 (-1) ltac:(lia) ltac:(lia)) ltac:(lia))
    as (first & second & fr1 & fr2 & m & _ & _ & _ & Hregs & Hrem & _ & Hcall & Hfbb
        & Hslots & Hother).
  assert (Hregs' : regions (fbb fr1) = [list_byte_of_string "north"])
    by (rewrite Hregs; reflexivity).
  exists (fbb fr2), m. split; [exact Hcall|]. rewrite Hfbb. simpl.
  split; [exact Hregs'|]. split; [reflexivity|].
  split; [|split; [|split]].
  - etransitivity; [exact (Hslots reading_id ltac:(simpl; tauto))|reflexivity].
  - etransitivity;
      [exact (Hslots (property "Count" "int" "Int32" 3) ltac:(simpl; tauto))|reflexivity].
  - etransitivity;
      [exact (Hslots (property "Label" "string" "UOffsetT" 4) ltac:(simpl; tauto))|].
    destruct (Hrem (property "Label" "string" "UOffsetT" 4) (VString "north"))
      as (o & Ho & Hpos & Hr); [simpl; tauto|reflexivity|reflexivity|].
    rewrite Hregs' in Hr.
    assert (o = 1) as ->.
    { destruct (Z.to_nat (o - 1)) as [|k] eqn:E; [lia|]. destruct k; discriminate Hr. }
    unfold spec_slot. simpl. simpl in Ho. rewrite Ho. reflexivity.
  - apply Hother. simpl. intros H. repeat (destruct H as [H|H]; [discriminate H|]).
    exact H.
Defined.

End templates_facts.



(* ===================================================================== *)
(** ** The query layer: programs, footprints and windows *)
(* ===================================================================== *)

Module objectbox_programs.
Import Go objectbox objectbox_facts.

Lemma adds_ret {A} P (a : A) : adds P (ret a).
Proof. intros t. exists []. split; [symmetry; apply app_nil_r|constructor]. Qed.

Lemma adds_call P c : P c -> adds P (call c).
Proof. intros H t. exists [c]. split; [reflexivity|repeat constructor; exact H]. Qed.

Lemma adds_bind {A B} P (m : Nat A) (k : A -> Nat B) :
  adds P m -> (forall a, adds P (k a)) -> adds P (bind m k).
Proof.
  intros Hm Hk t. unfold bind. destruct (Hm t) as (l1 & E1 & H1).
  destruct (m t) as [a t1]. simpl in E1. subst t1.
  destruct (Hk a (t ++ l1)) as (l2 & E2 & H2).
  exists (l1 ++ l2). rewrite E2, app_assoc. split; [reflexivity|].
  apply Forall_app. split; assumption.
Qed.

(** Break a computation down to its calls. *)
Ltac adds_steps :=
  repeat match goal with
         | |- adds _ (ret _) => apply adds_ret
         | |- adds _ (bind _ _) => apply adds_bind; [|intros ?]
         | |- adds _ (call _) => apply adds_call
         | |- adds _ (match ?x with _ => _ end) => destruct x eqn:?
         end.

Ltac unfold_query :=
  unfold apply_op, queryFinalizer, Close, Find, FindIds, Count, Remove, Describe,
    SetStringParams, SetStringParamsIn, SetInt64Params, SetInt64ParamsIn,
    SetInt32ParamsIn, SetFloat64Params, SetBytesParams,
    runWithCursor, find, cBytesArrayToObjects, findIds, count, remove, check_rc,
    createError.

Lemma apply_op_allowed native op query :
  adds (allowed op query) (apply_op native op query).
Proof.
  destruct op; unfold_query; adds_steps; simpl; eauto 10.
  all: try (repeat split; congruence).
Qed.


Lemma allowed_handle op query c :
  allowed op query c -> handle_of c = None \/ handle_of c = cQuery query.
Proof.
  destruct c; simpl;
    first [ solve [auto]
          | solve [intros (_ & -> & _); auto]
          | solve [intros (pr & _ & -> & _); auto] ].
Qed.

Lemma allowed_not_close op query c :
  op <> op_Close -> op <> op_Finalizer -> allowed op query c -> is_close c = false.
Proof. destruct c; simpl; auto. intros H1 H2 ([E|E] & _); congruence. Qed.

Lemma handle_safe_skip h freed l1 l2 :
  Forall (fun c => handle_of c = None) l1 ->
  handle_safe h freed (l1 ++ l2) = handle_safe h freed l2.
Proof.
  induction 1 as [|c l1 Hc _ IH]; simpl; [reflexivity|]. rewrite Hc. exact IH.
Qed.

Lemma handle_safe_open h l1 l2 :
  Forall (fun c => is_close c = false
                   /\ (handle_of c = None \/ handle_of c = Some h)) l1 ->
  handle_safe h false (l1 ++ l2) = handle_safe h false l2.
Proof.
  induction 1 as [|c l1 (Hc & [Hh|Hh]) _ IH]; simpl; [reflexivity|rewrite Hh; exact IH|].
  rewrite Hh, Hc, N.eqb_refl. exact IH.
Qed.

Lemma cQuery_kept native op query t :
  op <> op_Close -> op <> op_Finalizer ->
  cQuery (fst (apply_op native op query t)) = cQuery query.
Proof.
  intros H1 H2. destruct op; try congruence; simpl; unfold bind, ret;
    try reflexivity;
    match goal with |- context [let (_, _) := ?m in _] => destruct m end; reflexivity.
Qed.

Lemma Close_open_trace native query h t :
  cQuery query = Some h ->
  exists rest,
    snd (Close native query t) = t ++ obx_query_close (Some h) :: rest
    /\ Forall (fun c => handle_of c = None) rest
    /\ cQuery (snd (fst (Close native query t))) = None.
Proof.
  intros H. unfold Close, bind, call, createError, bind, call, ret. rewrite H.
  destruct (nonzero _); simpl; rewrite <- ?app_assoc; simpl;
    eexists; (split; [reflexivity|]); split; repeat constructor.
Qed.

Lemma Close_closed native query t :
  cQuery query = None -> Close native query t = (None, query, t).
Proof. intros H. unfold Close. rewrite H. reflexivity. Qed.

Lemma queryFinalizer_as_Close native query t :
  snd (queryFinalizer native query t) = snd (Close native query t)
  /\ snd (fst (queryFinalizer native query t)) = snd (fst (Close native query t)).
Proof.
  unfold queryFinalizer, bind. destruct (Close native query t) as [[[e|] q] t']; split;
    reflexivity.
Qed.

(** One operation keeps the handle safe, whether the query is open on [h] or
    closed. *)
Lemma apply_op_safe native op query h t :
  cQuery query = Some h \/ cQuery query = None ->
  exists l,
    snd (apply_op native op query t) = t ++ l
    /\ (cQuery (fst (apply_op native op query t)) = Some h
        \/ cQuery (fst (apply_op native op query t)) = None)
    /\ forall l2,
         handle_safe h (bool_decide (cQuery query = None)) (l ++ l2)
         = handle_safe h (bool_decide (cQuery (fst (apply_op native op query t)) = None)) l2.
Proof.
  intros Hq.
  assert (Hclosing : op = op_Close \/ op = op_Finalizer ->
    snd (apply_op native op query t) = snd (Close native query t)
    /\ cQuery (fst (apply_op native op query t))
       = cQuery (snd (fst (Close native query t)))).
  { intros [->| ->]; simpl; unfold bind, ret.
    - destruct (Close native query t) as [[e q] t']. split; reflexivity.
    - destruct (queryFinalizer_as_Close native query t) as [E1 E2].
      destruct (queryFinalizer native query t) as [[o q] t']. simpl in *.
      split; congruence. }
  assert (Hcases : (op = op_Close \/ op = op_Finalizer)
                   \/ (op <> op_Close /\ op <> op_Finalizer)).
  { destruct op; auto; right; split; discriminate. }
  destruct Hcases as [Hc|[H1 H2]].
  - destruct (Hclosing Hc) as [-> ->]. destruct Hq as [Hq|Hq].
    + destruct (Close_open_trace native query h t Hq) as (rest & -> & Hrest & ->).
      eexists. split; [reflexivity|]. split; [right; reflexivity|]. intros l2.
      rewrite Hq. simpl. rewrite N.eqb_refl. simpl. apply handle_safe_skip, Hrest.
    + rewrite (Close_closed native query t Hq). simpl. exists [].
      split; [symmetry; apply app_nil_r|]. split; [right; exact Hq|]. reflexivity.
  - destruct (apply_op_allowed native op query t) as (l & E & Hl).
    exists l. split; [exact E|]. rewrite (cQuery_kept native op query t H1 H2).
    split; [exact Hq|]. intros l2. destruct Hq as [Hq|Hq]; rewrite Hq.
    + apply handle_safe_open. eapply Forall_impl; [exact Hl|]. intros c Hc. split.
      * exact (allowed_not_close op query c H1 H2 Hc).
      * rewrite <- Hq. exact (allowed_handle op query c Hc).
    + apply handle_safe_skip. eapply Forall_impl; [exact Hl|]. intros c Hc.
      destruct (allowed_handle op query c Hc) as [E'|E']; congruence.
Qed.

Lemma apply_ops_safe native ops : forall query h t,
  cQuery query = Some h \/ cQuery query = None ->
  exists l,
    snd (apply_ops native ops query t) = t ++ l
    /\ handle_safe h (bool_decide (cQuery query = None)) l = true.
Proof.
  induction ops as [|op ops IH]; intros query h t Hq.
  - exists []. split; [symmetry; apply app_nil_r|reflexivity].
  - simpl. unfold bind.
    destruct (apply_op_safe native op query h t Hq) as (l1 & E1 & Hq1 & Hs).
    destruct (apply_op native op query t) as [q1 t1]. simpl in *. subst t1.
    destruct (IH q1 h (t ++ l1) Hq1) as (l2 & E2 & H2).
    exists (l1 ++ l2). rewrite E2, app_assoc. split; [reflexivity|].
    rewrite Hs. exact H2.
Qed.

(** The calls that free the handle [h]. *)
Lemma handle_safe_frees h l : forall freed,
  handle_safe h freed l = true ->
  (length (filter (fun c => is_close c = true /\ handle_of c = Some h) l)
   <= if freed then 0 else 1)%nat.
Proof.
  induction l as [|c l IH]; intros freed H; simpl in *; [destruct freed; lia|].
  destruct (handle_of c) as [h'|] eqn:Hh.
  - apply andb_true_iff in H as [H1 H3]. apply andb_true_iff in H1 as [H1 H2].
    apply N.eqb_eq in H1. subst h'. apply negb_true_iff in H2. subst freed.
    specialize (IH _ H3). rewrite filter_cons.
    destruct (is_close c) eqn:Hc.
    + rewrite decide_True by (split; [first [exact Hc|reflexivity]|exact Hh]). simpl in *. lia.
    + rewrite decide_False by (intros [E _]; first [discriminate E | rewrite Hc in E; discriminate E]). lia.
  - rewrite filter_cons, decide_False by (intros [_ E]; first [discriminate E | rewrite Hh in E; discriminate E]).
    apply IH, H.
Qed.

(** X2. Over every program of operations on a query that is open on the
    handle [h], whatever the native side answers: no native call is given a
    handle other than [h], [h] is given to no call after the call that freed
    it, and it is freed at most once; in particular the finalizer after an
    explicit [Close] does not free again, and the setters after [Close] pass
    NULL, not the freed handle. *)
Theorem X2_handle_never_used_after_free native ops query h t :
  cQuery query = Some h ->
  exists added,
    snd (apply_ops native ops query t) = t ++ added
    /\ handle_safe h false added = true
    /\ (length (filter (fun c => is_close c = true /\ handle_of c = Some h) added)
        <= 1)%nat.
Proof.
  intros Hq. destruct (apply_ops_safe native ops query h t (or_introl Hq)) as (l & E & H).
  rewrite Hq in H. exists l. split; [exact E|]. split; [exact H|].
  exact (handle_safe_frees h l false H).
Qed.

Lemma X2_handle_never_used_after_free_witness :
  exists added,
    snd (apply_ops native_failing
           [op_SetStringParams some_property ["a"%string]; op_Find; op_Close;
            op_SetInt64Params some_property [1]; op_FindIds; op_Close; op_Finalizer;
            op_Describe]
           (open_query 1 0) [])
    = [] ++ added
    /\ handle_safe 7%N false added = true
    /\ (length (filter (fun c => is_close c = true /\ handle_of c = Some 7%N) added)
        <= 1)%nat.
Proof.
  apply (X2_handle_never_used_after_free native_failing _ (open_query 1 0) 7%N []).
  reflexivity.
Defined.

Lemma check_rc_ok native rc t : fst (check_rc native rc t) = None <-> rc = 0.
Proof.
  unfold check_rc, nonzero. destruct (Z.eqb_spec rc 0) as [->|H]; simpl.
  - tauto.
  - unfold bind, createError, bind, call, ret. simpl. split; [discriminate|tauto].
Qed.

(** X3. The finalizer. Run after an explicit [Close] it makes no native call
    and prints nothing. Run on an open query it frees the handle and clears it
    whatever the free returns, and prints its message exactly when the free
    fails. *)
Theorem X3_finalizer native query t :
  (let r := Close native query t in
   queryFinalizer native (snd (fst r)) (snd r) = ([], snd (fst r), snd r))
  /\ forall h, cQuery query = Some h ->
       cQuery (snd (fst (queryFinalizer native query t))) = None
       /\ (fst (fst (queryFinalizer native query t)) = []
           <-> ret_code native (t ++ [obx_query_close (Some h)]) = 0)
       /\ exists rest,
           snd (queryFinalizer native query t) = t ++ obx_query_close (Some h) :: rest.
Proof.
  split.
  - simpl. unfold queryFinalizer, bind.
    rewrite (Close_closed native _ _ (Close_clears native query t)). reflexivity.
  - intros h Hq. unfold queryFinalizer, Close, bind, call, createError, bind, call, ret.
    rewrite Hq. unfold nonzero.
    destruct (Z.eqb_spec (ret_code native (t ++ [obx_query_close (Some h)])) 0) as [E|E];
      simpl.
    + split; [reflexivity|]. split; [tauto|]. eexists. reflexivity.
    + split; [reflexivity|]. split; [split; [discriminate|tauto]|].
      rewrite <- app_assoc. eexists. reflexivity.
Qed.

Lemma X3_finalizer_witness :
  cQuery (snd (fst (queryFinalizer native_failing (open_query 0 0) []))) = None
  /\ fst (fst (queryFinalizer native_failing (open_query 0 0) []))
     = [Printf "Error while finalizer closed query: %s" (NativeError 10001 "native failure")]
  /\ fst (fst (queryFinalizer (native_with_ids []) (open_query 0 0) [])) = [].
Proof.
  pose proof (proj2 (X3_finalizer native_failing (open_query 0 0) []) 7%N eq_refl)
    as (H1 & _ & _).
  pose proof (proj2 (X3_finalizer (native_with_ids []) (open_query 0 0) []) 7%N eq_refl)
    as (_ & H2 & _).
  split; [exact H1|]. split; [reflexivity|]. apply H2. reflexivity.
Defined.

Lemma FindIds_guard_spec_false query ids err :
  FindIds_guard query ids err = false ->
  ~ guard_spec (offset query) (limit query) err ids.
Proof.
  intros G H. apply FindIds_guard_spec in H. congruence.
Qed.

(** What [runWithCursor] returns once the cursor is acquired: the value of
    the function, and its error, or the error of the release if it had
    none. *)
Lemma runWithCursor_acquired {A} native tid ro (zero : A) f c t :
  out_cursor native (t ++ [obx_cursor_open tid ro]) = Some c ->
  let r := f c (t ++ [obx_cursor_open tid ro]) in
  fst (runWithCursor native tid ro zero f t)
  = (fst (fst r),
     match snd (fst r) with
     | Some e => Some e
     | None => fst (check_rc native (ret_code native (snd r ++ [obx_cursor_close c]))
                      (snd r ++ [obx_cursor_close c]))
     end).
Proof.
  intros Hc r. unfold runWithCursor, bind at 1, call. rewrite Hc. unfold bind at 1.
  fold r. destruct r as [[a err] t1]. simpl. unfold bind at 1, call. unfold bind at 1.
  destruct (check_rc native _ _) as [err2 t2]. simpl. destruct err; reflexivity.
Qed.

(** X4. On a closed query, the operations that look at the handle report the
    closed-query error: [Describe] at once, [Find], [Count], [Remove] (offset
    and limit zero) and [FindIds] (offset zero) once they run in a cursor.
    With the error [Find] returns the integer 0 as its objects, not nil. *)
Theorem X4_closed_query_reports_closed native query t c :
  cQuery query = None ->
  is_closed_error (snd (fst (Describe native query t)))
  /\ (out_cursor native (t ++ [obx_cursor_open (typeId query) true]) = Some c ->
       fst (Find native query t) = (iface_int 0, Some (errorClosed query))
       /\ (offset query = 0 ->
            fst (FindIds native query t)
            = Returned (nil_slice, Some (errorClosed query)))
       /\ (offset query = 0 -> limit query = 0 ->
            fst (Count native query t) = (0, Some (errorClosed query))))
  /\ (out_cursor native (t ++ [obx_cursor_open (typeId query) false]) = Some c ->
       offset query = 0 -> limit query = 0 ->
       fst (Remove native query t) = (0, Some (errorClosed query))).
Proof.
  intros Hq. split; [unfold Describe; rewrite Hq; reflexivity|]. split.
  - intros Hc. split; [|split].
    + unfold Find. rewrite (runWithCursor_acquired _ _ _ _ _ c _ Hc).
      unfold find. rewrite Hq. reflexivity.
    + intros Ho. rewrite FindIds_unfold. simpl.
      rewrite (runWithCursor_acquired _ _ _ _ _ c _ Hc).
      unfold findIds. rewrite Hq. simpl.
      unfold FindIds_paginate, FindIds_guard. rewrite Ho. simpl.
      rewrite andb_false_r. reflexivity.
    + intros Ho Hl. unfold Count. rewrite Ho, Hl. simpl.
      rewrite (runWithCursor_acquired _ _ _ _ _ c _ Hc).
      unfold count. rewrite Hq. reflexivity.
  - intros Hc Ho Hl. unfold Remove. rewrite Ho, Hl. simpl.
    rewrite (runWithCursor_acquired _ _ _ _ _ c _ Hc).
    unfold remove. rewrite Hq. reflexivity.
Qed.

Lemma X4_closed_query_reports_closed_witness :
  let closed := snd (fst (Close (native_with_ids ten_ids) (open_query 0 0) [])) in
  fst (Find (native_with_ids ten_ids) closed [])
  = (iface_int 0, Some (errors_New "illegal state; query was closed"))
  /\ fst (Remove (native_with_ids ten_ids) closed [])
     = (0, Some (errors_New "illegal state; query was closed")).
Proof.
  pose proof (X4_closed_query_reports_closed (native_with_ids ten_ids)
                (snd (fst (Close (native_with_ids ten_ids) (open_query 0 0) []))) []
                1%N eq_refl) as (_ & H1 & H2).
  split.
  - apply H1. reflexivity.
  - apply H2; reflexivity.
Defined.

(** What the cursor call of [FindIds] returns on an open query whose native
    retrieval succeeds. *)
Lemma FindIds_retrieval native query h c ids t :
  cQuery query = Some h ->
  out_cursor native (t ++ [obx_cursor_open (typeId query) true]) = Some c ->
  out_ids native (t ++ [obx_cursor_open (typeId query) true;
                        obx_query_find_ids (Some h) c]) = Some ids ->
  fst (runWithCursor native (typeId query) true nil_slice (findIds native query) t)
  = (ids, fst (check_rc native
                 (ret_code native (t ++ [obx_cursor_open (typeId query) true;
                                         obx_query_find_ids (Some h) c;
                                         obx_id_array_free; obx_cursor_close c]))
                 (t ++ [obx_cursor_open (typeId query) true;
                        obx_query_find_ids (Some h) c;
                        obx_id_array_free; obx_cursor_close c]))).
Proof.
  intros Hq Hc Hids. rewrite (runWithCursor_acquired _ _ _ _ _ c _ Hc).
  unfold findIds, bind, call, ret. rewrite Hq.
  rewrite <- !app_assoc. simpl. rewrite Hids. simpl.
  rewrite <- !app_assoc. reflexivity.
Qed.

(** X5. [query.Offset(o).Limit(l).FindIds()] on an open query, when the
    native retrieval succeeds with a list at least [o] long and [o + l] does
    not wrap around. If [o] is not zero or the release of the cursor returns
    0, the call returns, without error and in the native order, the
    identifiers left after skipping [o] and keeping at most [l] (all of them
    for [l = 0]). If [o] is zero and the release of the cursor fails, the call
    returns the whole list, whatever the limit, together with the error. *)
Theorem X5_FindIds_window native query h c ids o l t :
  cQuery query = Some h ->
  out_cursor native (t ++ [obx_cursor_open (typeId query) true]) = Some c ->
  out_ids native (t ++ [obx_cursor_open (typeId query) true;
                        obx_query_find_ids (Some h) c]) = Some ids ->
  0 <= o <= len ids -> 0 <= l -> o + l < 2 ^ 64 ->
  let rc := ret_code native (t ++ [obx_cursor_open (typeId query) true;
                                   obx_query_find_ids (Some h) c;
                                   obx_id_array_free; obx_cursor_close c]) in
  (o <> 0 \/ rc = 0 ->
   exists s,
     fst (FindIds native (Limit (Offset query o) l) t) = Returned (s, None)
     /\ elements s = paginate_spec o l (elements ids))
  /\ (o = 0 -> rc <> 0 ->
      exists e,
        fst (FindIds native (Limit (Offset query o) l) t) = Returned (ids, Some e)).
Proof.
  intros Hq Hc Hids Ho Hl Hw rc.
  pose (q := Limit (Offset query o) l).
  pose proof (FindIds_retrieval native q h c ids t Hq Hc Hids) as R.
  change (typeId q) with (typeId query) in R. fold rc in R.
  change (Limit (Offset query o) l) with q.
  rewrite FindIds_unfold. change (typeId q) with (typeId query).
  destruct (runWithCursor native (typeId query) true nil_slice (findIds native q) t)
    as [[ids' err] t'].
  simpl in R. injection R as -> Herr. simpl fst.
  split.
  - intros Hcase.
    destruct (FindIds_guard q ids err) eqn:G.
    + exact (FindIds_paginate_in_range q ids err Ho Hl Hw G).
    + pose proof G as G0. unfold FindIds_guard in G. simpl in G.
      apply orb_false_iff in G as [G1 G2]. apply nonzero_false in G1. subst o.
      destruct Hcase as [Hcase|Hrc]; [contradiction|].
      assert (err = None) as -> by (rewrite Herr; apply check_rc_ok; exact Hrc).
      exists ids. unfold FindIds_paginate. rewrite G0.
      split; [reflexivity|].
      unfold paginate_spec. simpl. rewrite drop_0.
      destruct (Z.eqb_spec l 0) as [_|Hn]; [reflexivity|].
      rewrite (proj2 (nonzero_true l) Hn) in G2. simpl in G2.
      apply negb_false_iff in G2. destruct ids; [|discriminate G2].
      simpl. now rewrite take_nil.
  - intros -> Hrc.
    destruct err as [e|] eqn:E.
    + exists e. unfold FindIds_paginate, FindIds_guard. simpl.
      rewrite andb_false_r. reflexivity.
    + exfalso. apply Hrc. symmetry in Herr. exact (proj1 (check_rc_ok native rc _) Herr).
Qed.

Lemma X5_FindIds_window_witness :
  (exists s,
     fst (FindIds (native_with_ids ten_ids) (Limit (Offset (open_query 0 0) 2) 3) [])
     = Returned (s, None)
     /\ elements s = [2; 3; 4])
  /\ (exists e,
       fst (FindIds (native_release_fails ten_ids) (Limit (Offset (open_query 0 0) 0) 4) [])
       = Returned (mk_slice ten_ids [], Some e)).
Proof.
  split.
  - apply (X5_FindIds_window (native_with_ids ten_ids) (open_query 0 0) 7%N 1%N
             (mk_slice ten_ids []) 2 3 []); try reflexivity.
    + vm_compute. split; discriminate.
    + lia.
    + left. discriminate.
  - apply (X5_FindIds_window (native_release_fails ten_ids) (open_query 0 0) 7%N 1%N
             (mk_slice ten_ids []) 0 4 []); try reflexivity.
    + vm_compute. split; discriminate.
    + lia.
    + discriminate.
Defined.

(** X6. With a non-zero offset [FindIds] never returns an error: it returns
    the slice with a nil error or panics, so an error of the cursor call (a
    failed release after a successful retrieval) is dropped. *)
Theorem X6_FindIds_offset_drops_error native query t s err :
  offset query <> 0 ->
  fst (FindIds native query t) = Returned (s, err) ->
  err = None.
Proof.
  intros Ho E.
  rewrite (proj1 (FindIds_branch native query t)) in E by (left; exact Ho).
  simpl in E. unfold slicing_branch in E.
  destruct (slice_expr _ _ _); [injection E as _ <-; reflexivity|discriminate E].
Qed.

Lemma X6_FindIds_offset_drops_error_witness :
  snd (fst (runWithCursor (native_release_fails ten_ids) 1 true nil_slice
              (findIds (native_release_fails ten_ids) (open_query 3 4)) []))
  = Some (NativeError 10001 "native failure")
  /\ exists s err,
       fst (FindIds (native_release_fails ten_ids) (open_query 3 4) [])
       = Returned (s, err)
       /\ elements s = [3; 4; 5; 6] /\ err = None.
Proof.
  split; [reflexivity|].
  assert (E : fst (FindIds (native_release_fails ten_ids) (open_query 3 4) [])
              = Returned (mk_slice [3; 4; 5; 6] [7; 8; 9], None))
    by (vm_compute; reflexivity).
  exists (mk_slice [3; 4; 5; 6] [7; 8; 9]), None.
  split; [exact E|]. split; [reflexivity|].
  apply (X6_FindIds_offset_drops_error (native_release_fails ten_ids)
           (open_query 3 4) [] (mk_slice [3; 4; 5; 6] [7; 8; 9]) None);
    [simpl; lia|exact E].
Defined.

Lemma wrap64_cases z :
  0 <= z < 2 ^ 65 ->
  (z < 2 ^ 64 /\ wrap64 z = z) \/ (2 ^ 64 <= z /\ wrap64 z = z - 2 ^ 64).
Proof.
  intros Hz. unfold wrap64. destruct (Z_lt_le_dec z (2 ^ 64)) as [H|H].
  - left. split; [exact H|]. apply Z.mod_small. lia.
  - right. split; [exact H|].
    replace z with (z - 2 ^ 64 + 1 * 2 ^ 64) at 1 by lia.
    rewrite Z_mod_plus_full. apply Z.mod_small. lia.
Qed.

Lemma slice_expr_returned {A} (s s' : slice A) low high :
  slice_expr s low high = Returned s' ->
  0 <= low <= high /\ len s' <= high - low.
Proof.
  unfold slice_expr.
  destruct ((0 <=? low) && (low <=? high) && (high <=? cap s)) eqn:C; [|discriminate].
  apply andb_true_iff in C as [C _]. apply andb_true_iff in C as [C1 C2].
  apply Z.leb_le in C1, C2. intros E. split; [lia|].
  destruct s; injection E as <-; unfold len; simpl; [lia|].
  rewrite length_take. lia.
Qed.

(** X7. A call of [FindIds] with a non-zero limit that returns without error
    never returns more identifiers than the limit. *)
Theorem X7_FindIds_at_most_limit native query t s :
  0 <= offset query < 2 ^ 64 ->
  0 < limit query < 2 ^ 64 ->
  len (fst (fst (runWithCursor native (typeId query) true nil_slice
                   (findIds native query) t))) < 2 ^ 64 ->
  fst (FindIds native query t) = Returned (s, None) ->
  len s <= limit query.
Proof.
  intros Ho Hl Hlen E. rewrite FindIds_unfold in E. simpl fst in E.
  destruct (runWithCursor native (typeId query) true nil_slice (findIds native query) t)
    as [[ids err] t'].
  simpl in *.
  unfold FindIds_paginate in E. destruct (FindIds_guard query ids err) eqn:G.
  - destruct (slice_expr ids (offset query) (FindIds_endOffset query ids)) as [s'|] eqn:S;
      [|discriminate E].
    injection E as ->. apply slice_expr_returned in S as [Hlow Hs].
    unfold FindIds_endOffset in *.
    rewrite (proj2 (nonzero_true (limit query))) in * by lia. simpl in *.
    destruct (wrap64_cases (offset query + limit query)) as [[_ W]|[Hb W]]; [lia|..];
      rewrite W in *;
      destruct (Z.ltb_spec (offset query + limit query) (len ids));
      destruct (Z.ltb_spec (offset query + limit query - 2 ^ 64) (len ids)); lia.
  - injection E as <- ->. apply FindIds_guard_spec_false in G.
    destruct ids; [unfold len; simpl; lia|]. exfalso. apply G. right.
    repeat split; [lia|discriminate].
Qed.

Lemma X7_FindIds_at_most_limit_witness :
  len (mk_slice [8; 9] ([] : list Z)) <= 5.
Proof.
  apply (X7_FindIds_at_most_limit (native_with_ids ten_ids) (open_query 8 5) []
           (mk_slice [8; 9] [])).
  - simpl. lia.
  - simpl. lia.
  - vm_compute. reflexivity.
  - vm_compute. reflexivity.
Defined.

(** X8. [query.Offset(o).Limit(l).Find()] on an open query hands the window
    to the native side: once in the cursor, its native call is
    [obx_query_find(handle, cursor, o, l)]. When that call returns an array,
    the result is the collection of the objects that the binding of the type
    decodes from the returned buffers, in the native order and with no
    slicing on this side; the bytes array is freed and the cursor released,
    and the error is nil exactly when the release returns 0. A NULL result is
    reported as the native error with nil objects. *)
Theorem X8_Find_hands_window_to_native native query h c o l t :
  cQuery query = Some h ->
  out_cursor native (t ++ [obx_cursor_open (typeId query) true]) = Some c ->
  let q := Limit (Offset query o) l in
  let t2 := t ++ [obx_cursor_open (typeId query) true; obx_query_find (Some h) c o l] in
  let t3 := t2 ++ [obx_bytes_array_free; obx_cursor_close c] in
  (exists rest, snd (Find native q t) = t2 ++ rest)
  /\ (forall bufs, out_bytes native t2 = Some bufs ->
        fst (fst (Find native q t))
        = iface_objects (map (ToObject_of (typeId query)) bufs)
        /\ (snd (fst (Find native q t)) = None <-> ret_code native t3 = 0)
        /\ exists rest, snd (Find native q t) = t3 ++ rest)
  /\ (out_bytes native t2 = None ->
        fst (Find native q t)
        = (iface_nil,
           Some (NativeError (fst (out_error native (t2 ++ [obx_last_error])))
                             (snd (out_error native (t2 ++ [obx_last_error])))))).
Proof.
  intros Hq Hc q t2 t3.
  assert (E2 : (t ++ [obx_cursor_open (typeId query) true])
               ++ [obx_query_find (Some h) c o l] = t2)
    by (unfold t2; now rewrite <- app_assoc).
  assert (E3 : t2 ++ [obx_bytes_array_free] ++ [obx_cursor_close c] = t3)
    by reflexivity.
  split; [|split].
  - unfold Find, runWithCursor, bind, call. simpl. rewrite Hc.
    unfold find, cBytesArrayToObjects, bind, call. simpl. rewrite Hq, E2.
    destruct (out_bytes native t2); unfold createError, bind, call, ret, check_rc;
      repeat match goal with |- context [nonzero ?x] => destruct (nonzero x) end;
      unfold createError, bind, call, ret; simpl; rewrite <- ?app_assoc;
      eexists; reflexivity.
  - intros bufs Hb. split; [|split].
    + unfold Find. rewrite (runWithCursor_acquired _ _ _ _ _ c _ Hc).
      unfold find, cBytesArrayToObjects, bind, call. simpl. rewrite Hq, E2, Hb.
      reflexivity.
    + unfold Find. rewrite (runWithCursor_acquired _ _ _ _ _ c _ Hc).
      unfold find, cBytesArrayToObjects, bind, call. simpl. rewrite Hq, E2, Hb.
      simpl. rewrite <- app_assoc, E3. apply check_rc_ok.
    + unfold Find, runWithCursor, bind, call. simpl. rewrite Hc.
      unfold find, cBytesArrayToObjects, bind, call. simpl. rewrite Hq, E2, Hb.
      simpl. rewrite <- app_assoc, E3. unfold check_rc.
      destruct (nonzero _); unfold createError, bind, call, ret; simpl;
        eexists; [reflexivity|symmetry; apply app_nil_r].
  - intros Hb. unfold Find.
    rewrite (runWithCursor_acquired _ _ _ _ _ c _ Hc).
    unfold find, bind, call. simpl. rewrite Hq, E2, Hb. reflexivity.
Qed.

Lemma X8_Find_hands_window_to_native_witness :
  fst (Find (native_with_buffers [[Byte.x61]; []]) (Limit (Offset (open_query 0 0) 2) 3) [])
  = (iface_objects [ToObject_of 1 [Byte.x61]; ToObject_of 1 []], None)
  /\ (exists rest,
       snd (Find (native_with_buffers [[Byte.x61]; []])
              (Limit (Offset (open_query 0 0) 2) 3) [])
       = ([] ++ [obx_cursor_open 1 true; obx_query_find (Some 7%N) 1%N 2 3])
           ++ [obx_bytes_array_free; obx_cursor_close 1%N] ++ rest)
  /\ fst (Find native_failing (Limit (Offset (open_query 0 0) 2) 3) [])
     = (iface_nil, Some (NativeError 10001 "native failure")).
Proof.
  pose proof (X8_Find_hands_window_to_native (native_with_buffers [[Byte.x61]; []])
                (open_query 0 0) 7%N 1%N 2 3 [] eq_refl eq_refl) as (_ & H2 & _).
  pose proof (X8_Find_hands_window_to_native native_failing (open_query 0 0)
                7%N 1%N 2 3 [] eq_refl eq_refl) as (_ & _ & H3).
  destruct (H2 _ eq_refl) as (Ho & He & rest & Ht).
  split; [|split].
  - apply injective_projections; [exact Ho|]. apply He. reflexivity.
  - exists rest. rewrite Ht, <- app_assoc. reflexivity.
  - apply H3. reflexivity.
Defined.

(** X9. A parameter setter returns nil exactly when it was given a legal
    number of values and its native call returned 0: one value for strings
    and bytes, one or two for 64-bit integers and doubles, at least one for
    the "In" setters. *)
Theorem X9_setter_succeeds_iff native query property t :
  let q := cQuery query in
  let e := entityId property in
  let p := propertyId property in
  (forall values,
     fst (SetStringParams native query property values t) = None
     <-> exists v, values = [v]
           /\ ret_code native (t ++ [obx_query_string_param q e p v]) = 0)
  /\ (forall values,
     fst (SetBytesParams native query property values t) = None
     <-> exists v, values = [v]
           /\ ret_code native
                (t ++ [obx_query_bytes_param q e p v (Z.of_nat (length v))]) = 0)
  /\ (forall values,
     fst (SetInt64Params native query property values t) = None
     <-> (exists v, values = [v]
            /\ ret_code native (t ++ [obx_query_int_param q e p v]) = 0)
         \/ (exists a b, values = [a; b]
            /\ ret_code native (t ++ [obx_query_int_params q e p a b]) = 0))
  /\ (forall values,
     fst (SetFloat64Params native query property values t) = None
     <-> (exists v, values = [v]
            /\ ret_code native (t ++ [obx_query_double_param q e p v]) = 0)
         \/ (exists a b, values = [a; b]
            /\ ret_code native (t ++ [obx_query_double_params q e p a b]) = 0))
  /\ (forall values,
     fst (SetStringParamsIn native query property values t) = None
     <-> values <> []
         /\ ret_code native
              (t ++ [obx_query_string_params_in q e p values
                       (C_int (Z.of_nat (length values)))]) = 0)
  /\ (forall values,
     fst (SetInt64ParamsIn native query property values t) = None
     <-> values <> []
         /\ ret_code native
              (t ++ [obx_query_int64_params_in q e p values
                       (C_int (Z.of_nat (length values)))]) = 0)
  /\ (forall values,
     fst (SetInt32ParamsIn native query property values t) = None
     <-> values <> []
         /\ ret_code native
              (t ++ [obx_query_int32_params_in q e p values
                       (C_int (Z.of_nat (length values)))]) = 0).
Proof.
  intros q e p.
  repeat apply conj; intros values;
    (destruct values as [|v1 [|v2 [|v3 rest]]]); simpl;
    unfold bind, call, ret; simpl; rewrite ?check_rc_ok;
    (split; intros H;
     [ first [discriminate H | solve [eauto 8] | split; [discriminate|exact H]]
     | repeat match type of H with
              | _ \/ _ => destruct H as [H|H]
              | exists _, _ => destruct H as [? H]
              | _ /\ _ => let E := fresh "E" in destruct H as [E H]
              end;
       repeat match goal with
              | E : _ :: _ = _ :: _ |- _ => injection E as E; subst
              | E : [] = _ :: _ |- _ => discriminate E
              | E : _ :: _ = [] |- _ => discriminate E
              | E : [] <> [] |- _ => exfalso; apply E; reflexivity
              | E : ?x = ?x |- _ => clear E
              end;
       try discriminate; try assumption ]).
Qed.

(** X10. When [offset + limit] exceeds the range of [uint64] the sum wraps
    around: on an open query with a non-zero offset within the retrieved list
    and a limit of at least [2^64 - offset] (such as the largest [uint64]),
    [FindIds] panics in the slice expression although the window is within
    the list. *)
Theorem X10_FindIds_panics_when_window_wraps native query h c ids t :
  cQuery query = Some h ->
  out_cursor native (t ++ [obx_cursor_open (typeId query) true]) = Some c ->
  out_ids native (t ++ [obx_cursor_open (typeId query) true;
                        obx_query_find_ids (Some h) c]) = Some ids ->
  0 < offset query <= len ids ->
  0 < limit query < 2 ^ 64 ->
  offset query < 2 ^ 64 ->
  2 ^ 64 <= offset query + limit query ->
  exists msg, fst (FindIds native query t) = Panicked msg.
Proof.
  intros Hq Hc Hids Ho Hl Ho' Hw.
  pose proof (FindIds_retrieval native query h c ids t Hq Hc Hids) as R.
  rewrite FindIds_unfold.
  destruct (runWithCursor native (typeId query) true nil_slice (findIds native query) t)
    as [[ids' err] t'].
  simpl in *. injection R as -> _.
  unfold FindIds_paginate, FindIds_guard.
  rewrite (proj2 (nonzero_true (offset query))) by lia. simpl.
  unfold FindIds_endOffset. rewrite (proj2 (nonzero_true (limit query))) by lia. simpl.
  destruct (wrap64_cases (offset query + limit query)) as [[? _]|[_ W]]; [lia|lia|].
  rewrite W.
  rewrite (proj2 (Z.ltb_lt _ _)) by lia.
  unfold slice_expr.
  replace (offset query <=? offset query + limit query - 2 ^ 64) with false
    by (symmetry; apply Z.leb_gt; lia).
  rewrite andb_false_r. simpl. eauto.
Qed.

Lemma X10_FindIds_panics_when_window_wraps_witness :
  exists msg,
    fst (FindIds (native_with_ids ten_ids) (open_query 1 (2 ^ 64 - 1)) [])
    = Panicked msg.
Proof.
  apply (X10_FindIds_panics_when_window_wraps (native_with_ids ten_ids)
           (open_query 1 (2 ^ 64 - 1)) 7%N 1%N (mk_slice ten_ids []) []);
    try reflexivity.
  - vm_compute. split; [reflexivity|discriminate].
  - vm_compute. split; reflexivity.
Defined.

(** X11. [FindIds] hands the native identifier array back and releases the
    cursor before it slices: whenever the native retrieval gave a list, the
    calls of the run start with the cursor acquisition, the retrieval, the
    freeing of the array and the release of the cursor, whatever the offset
    and the limit are, also in a run that panics in the slice expression. *)
Theorem X11_FindIds_releases_before_slicing native query h c ids t :
  cQuery query = Some h ->
  out_cursor native (t ++ [obx_cursor_open (typeId query) true]) = Some c ->
  out_ids native (t ++ [obx_cursor_open (typeId query) true;
                        obx_query_find_ids (Some h) c]) = Some ids ->
  exists rest,
    snd (FindIds native query t)
    = t ++ [obx_cursor_open (typeId query) true; obx_query_find_ids (Some h) c;
            obx_id_array_free; obx_cursor_close c] ++ rest
    /\ Forall (fun call => call = obx_last_error) rest.
Proof.
  intros Hq Hc Hids.
  unfold FindIds, runWithCursor, bind, call, ret. simpl. rewrite Hc.
  unfold findIds, bind, call, ret. rewrite Hq. simpl.
  rewrite <- !app_assoc. simpl. rewrite Hids. simpl.
  rewrite <- !app_assoc. simpl.
  unfold check_rc. destruct (nonzero _).
  - unfold createError, bind, call, ret. simpl. rewrite <- !app_assoc. simpl.
    exists [obx_last_error]. split; [reflexivity|]. repeat constructor.
  - exists []. split; [reflexivity|]. constructor.
Qed.

Lemma X11_FindIds_releases_before_slicing_witness :
  exists rest,
    snd (FindIds (native_with_ids [0; 1]) (open_query 5 0) [])
    = [] ++ [obx_cursor_open 1 true; obx_query_find_ids (Some 7%N) 1%N;
             obx_id_array_free; obx_cursor_close 1%N] ++ rest
    /\ Forall (fun call => call = obx_last_error) rest.
Proof.
  apply (X11_FindIds_releases_before_slicing (native_with_ids [0; 1]) (open_query 5 0)
           7%N 1%N (mk_slice [0; 1] []) []); reflexivity.
Defined.

Lemma counting_result native (f : OBX_cursor -> NativeCall) query h c ro t
    (counting : Query -> OBX_cursor -> Nat (Z * option error)) :
  (forall t', counting query c t'
     = (let t1 := t' ++ [f c] in
        if nonzero (ret_code native t1)
        then (0, Some (NativeError (fst (out_error native (t1 ++ [obx_last_error])))
                                   (snd (out_error native (t1 ++ [obx_last_error])))),
              t1 ++ [obx_last_error])
        else (wrap64 (out_count native t1), None, t1))) ->
  cQuery query = Some h ->
  out_cursor native (t ++ [obx_cursor_open (typeId query) ro]) = Some c ->
  let t1 := t ++ [obx_cursor_open (typeId query) ro; f c] in
  let r := fst (runWithCursor native (typeId query) ro 0 (counting query) t) in
  fst r = (if nonzero (ret_code native t1) then 0 else wrap64 (out_count native t1))
  /\ (snd r = None
      <-> ret_code native t1 = 0 /\ ret_code native (t1 ++ [obx_cursor_close c]) = 0).
Proof.
  intros Hf Hq Hc t1 r. unfold r.
  rewrite (runWithCursor_acquired _ _ _ _ _ c _ Hc). rewrite Hf.
  cbv zeta. rewrite <- app_assoc. simpl app. fold t1.
  unfold nonzero. destruct (Z.eqb_spec (ret_code native t1) 0) as [E|E]; simpl.
  - split; [reflexivity|]. rewrite check_rc_ok. tauto.
  - split; [reflexivity|]. split; [discriminate|tauto].
Qed.

(** X20. What [Count] and [Remove] return on an open query with offset and
    limit zero, once their cursor is acquired (a writable one for [Remove]):
    the count is the native one whenever the native call returned 0, and 0
    otherwise; the error is nil exactly when both the native call and the
    release of the cursor returned 0. So a failed release gives the native
    count together with an error. *)
Theorem X20_Count_Remove_results native query h c t :
  cQuery query = Some h -> offset query = 0 -> limit query = 0 ->
  (out_cursor native (t ++ [obx_cursor_open (typeId query) true]) = Some c ->
   let t1 := t ++ [obx_cursor_open (typeId query) true; obx_query_count (Some h) c] in
   fst (fst (Count native query t))
   = (if nonzero (ret_code native t1) then 0 else wrap64 (out_count native t1))
   /\ (snd (fst (Count native query t)) = None
       <-> ret_code native t1 = 0
           /\ ret_code native (t1 ++ [obx_cursor_close c]) = 0))
  /\ (out_cursor native (t ++ [obx_cursor_open (typeId query) false]) = Some c ->
      let t1 := t ++ [obx_cursor_open (typeId query) false;
                      obx_query_remove (Some h) c] in
      fst (fst (Remove native query t))
      = (if nonzero (ret_code native t1) then 0 else wrap64 (out_count native t1))
      /\ (snd (fst (Remove native query t)) = None
          <-> ret_code native t1 = 0
              /\ ret_code native (t1 ++ [obx_cursor_close c]) = 0)).
Proof.
  intros Hq Ho Hl. split; intros Hc; unfold Count, Remove; rewrite Ho, Hl; simpl orb;
    cbv iota.
  - apply (counting_result native (obx_query_count (Some h)) query h c true t
             (count native)); [|exact Hq|exact Hc].
    intros t'. unfold count, bind, call, createError, bind, call, ret. rewrite Hq.
    simpl. destruct (nonzero _); reflexivity.
  - apply (counting_result native (obx_query_remove (Some h)) query h c false t
             (remove native)); [|exact Hq|exact Hc].
    intros t'. unfold remove, bind, call, createError, bind, call, ret. rewrite Hq.
    simpl. destruct (nonzero _); reflexivity.
Qed.

Lemma X20_Count_Remove_results_witness :
  fst (fst (Count (native_with_ids ten_ids) (open_query 0 0) [])) = 10
  /\ snd (fst (Count (native_with_ids ten_ids) (open_query 0 0) [])) = None
  /\ fst (fst (Remove native_failing (open_query 0 0) [])) = 0.
Proof.
  pose proof (X20_Count_Remove_results (native_with_ids ten_ids) (open_query 0 0)
                7%N 1%N [] eq_refl eq_refl eq_refl) as [H1 _].
  pose proof (X20_Count_Remove_results native_failing (open_query 0 0)
                7%N 1%N [] eq_refl eq_refl eq_refl) as [_ H2].
  destruct (H1 eq_refl) as [Hc He]. destruct (H2 eq_refl) as [Hr _].
  split; [exact Hc|]. split; [apply He; split; reflexivity|exact Hr].
Defined.

End objectbox_programs.



(* ===================================================================== *)
(** ** The binding template: the generated methods at work *)
(* ===================================================================== *)

Module templates_programs.
Import Go templates templates_facts.

#[local] Arguments convert : simpl never.
#[local] Arguments Z.pow : simpl never.
#[local] Arguments Z.modulo : simpl never.
#[local] Arguments Z.mul : simpl never.
#[local] Arguments Z.add : simpl never.
#[local] Arguments assoc : simpl never.
#[local] Arguments ToObject_field : simpl never.

(** *** The receiver name *)

Lemma toLower_toTitle c : toLower (toTitle c) = toLower c.
Proof.
  destruct c as [[] [] [] [] [] [] [] []]; reflexivity.
Qed.

Lemma identifier_ascii s : identifier s -> is_ascii s = true.
Proof.
  unfold identifier, is_ascii. intros H. apply forallb_forall. intros c Hc.
  apply List.Forall_forall with (x := c) in H; [|exact Hc].
  apply Nat.leb_le, H.
Qed.

Lemma Title_from_identifier s : forall prev,
  isSeparator prev = false -> identifier s -> Title_from prev s = s.
Proof.
  unfold identifier.
  induction s as [|c s IH]; intros prev Hp Hs; simpl; [reflexivity|].
  simpl in Hs. apply Forall_cons in Hs as [[_ Hc] Hs].
  rewrite Hp. f_equal. apply IH; assumption.
Qed.

Lemma StringCamel_identifier c rest :
  identifier (String c rest) ->
  StringCamel (String c rest) = Returned (ascii_text (String (toLower c) rest)).
Proof.
  intros Hs. unfold StringCamel, StringTitle.
  rewrite (identifier_ascii _ Hs). simpl.
  unfold identifier in Hs. simpl in Hs. apply Forall_cons in Hs as [[_ Hc] Hs].
  rewrite (Title_from_identifier rest c Hc Hs), toLower_toTitle. reflexivity.
Qed.

(** X12. The template can be executed on an entity exactly when its name
    is not empty; for a name that is an identifier of ASCII letters, digits
    and underscores, the text before [EntityInfo] in the name of the receiver
    type of the generated methods is the name with its first character in
    lower case and the rest unchanged. *)
Theorem X12_receiver_name entity :
  (Entity.Name entity = EmptyString <-> exists msg, execute_entity entity = Panicked msg)
  /\ forall c rest,
       Entity.Name entity = String c rest -> identifier (String c rest) ->
       execute_entity entity
       = Returned {| entityNameCamel := ascii_text (String (toLower c) rest);
                     flatten_body := Flatten entity;
                     toObject_body := ToObject entity |}.
Proof.
  split.
  - unfold execute_entity, StringCamel, StringTitle.
    destruct (Entity.Name entity) as [|c rest].
    + split; [simpl; eauto|reflexivity].
    + split; [discriminate|]. intros [msg H].
      destruct (is_ascii (String c rest)); discriminate H.
  - intros c rest Hn Hs. unfold execute_entity. rewrite Hn.
    rewrite (StringCamel_identifier c rest Hs). reflexivity.
Qed.

Lemma X12_receiver_name_witness :
  execute_entity person
  = Returned {| entityNameCamel := ascii_text "person";
                flatten_body := Flatten person;
                toObject_body := ToObject person |}.
Proof.
  apply (proj2 (X12_receiver_name person) "P"%char "erson"%string).
  - reflexivity.
  - repeat constructor.
Defined.

(** *** [ToObject] *)

Lemma lookup_slot_agree t1 t2 off :
  t_slots t1 !! ((off - 4) / 2) = t_slots t2 !! ((off - 4) / 2) ->
  lookup_slot t1 off = lookup_slot t2 off.
Proof.
  intros H. unfold lookup_slot. rewrite H. reflexivity.
Qed.

Lemma GetSlot_agree a acc off d t1 t2 :
  t_regions t1 = t_regions t2 ->
  t_slots t1 !! ((off - 4) / 2) = t_slots t2 !! ((off - 4) / 2) ->
  GetSlot a acc off d t1 = GetSlot a acc off d t2.
Proof.
  intros Hr Hs. unfold GetSlot, region_at.
  rewrite (lookup_slot_agree t1 t2 off Hs), Hr. reflexivity.
Qed.

Lemma ToObject_field_agree a p t1 t2 :
  t_regions t1 = t_regions t2 ->
  t_slots t1 !! ((Property.FbvTableOffset p - 4) / 2)
  = t_slots t2 !! ((Property.FbvTableOffset p - 4) / 2) ->
  eval_Read a t1 (snd (ToObject_field p)) = eval_Read a t2 (snd (ToObject_field p)).
Proof.
  intros Hr Hs. unfold ToObject_field, StringTitle. simpl.
  repeat match goal with |- context [if ?b then _ else _] => destruct b end;
    simpl; rewrite ?(GetSlot_agree a _ _ _ t1 t2 Hr Hs); reflexivity.
Qed.

(** X13. [ToObject] reads nothing of the buffer but the child regions and
    the slots at the table offsets of the entity's properties: on two tables
    that agree there it gives the same result. *)
Theorem X13_ToObject_reads_only_its_slots a entity t1 t2 :
  t_regions t1 = t_regions t2 ->
  (forall p, In p (Entity.Properties entity) ->
     t_slots t1 !! ((Property.FbvTableOffset p - 4) / 2)
     = t_slots t2 !! ((Property.FbvTableOffset p - 4) / 2)) ->
  ToObject_call a (ToObject entity) t1 = ToObject_call a (ToObject entity) t2.
Proof.
  intros Hr. unfold ToObject.
  induction (Entity.Properties entity) as [|p ps IH]; intros Hs; [reflexivity|].
  pose proof (ToObject_field_agree a p t1 t2 Hr (Hs p (or_introl eq_refl))) as H.
  cbn [map ToObject_call]. destruct (ToObject_field p) as [name r].
  cbn [snd] in H. rewrite H, IH; [reflexivity|].
  intros q Hq. apply Hs. right. exact Hq.
Qed.

Lemma X13_ToObject_reads_only_its_slots_witness :
  ToObject_call arch64 (ToObject person)
    {| t_regions := []; t_slots := {[ 2 := Scalar 8 1 ]} |}
  = ToObject_call arch64 (ToObject person)
    {| t_regions := []; t_slots := {[ 2 := Scalar 8 1; 40 := Ref 7 ]} |}.
Proof.
  apply (X13_ToObject_reads_only_its_slots arch64 person
           {| t_regions := []; t_slots := {[ 2 := Scalar 8 1 ]} |}
           {| t_regions := []; t_slots := {[ 2 := Scalar 8 1; 40 := Ref 7 ]} |}).
  - reflexivity.
  - intros p Hp. simpl in Hp.
    repeat (destruct Hp as [<-|Hp]; [vm_compute; reflexivity|]). contradiction.
Defined.

(** The value [ToObject] has for a property whose slot is absent. *)
Lemma absent_field a table p ty :
  assoc type_names (Property.GoType p) = Some ty ->
  4 <= Property.FbvTableOffset p -> Z.even (Property.FbvTableOffset p) = true ->
  t_slots table !! ((Property.FbvTableOffset p - 4) / 2) = None ->
  eval_Read a table (snd (ToObject_field p)) = Ok (zero_of ty).
Proof.
  intros Hg H4 He Hs.
  assert (L : lookup_slot table (Property.FbvTableOffset p) = Ok None).
  { unfold lookup_slot. rewrite (proj2 (Z.leb_le _ _) H4), He, Hs. reflexivity. }
  apply assoc_In in Hg. simpl in Hg.
  repeat (destruct Hg as [Hg|Hg];
          [injection Hg as Hg <-; symmetry in Hg; unfold ToObject_field; rewrite Hg;
           simpl; unfold GetSlot;
           match goal with |- context [assoc get_kinds ?x] =>
             let r := eval vm_compute in (assoc get_kinds x) in
             change (assoc get_kinds x) with r
           end;
           cbv iota beta; rewrite L; simpl;
           try match goal with |- context [assoc num_names ?x] =>
             let r := eval vm_compute in (assoc num_names x) in
             change (assoc num_names x) with r
           end;
           cbv iota beta; rewrite ?convert_zero; reflexivity|]).
  contradiction.
Qed.

Lemma ToObject_call_lookup a table ps : forall obj,
  ToObject_call a (map ToObject_field ps) table = Ok obj ->
  (forall name, is_Some (obj !! name) <-> In name (map Property.Name ps))
  /\ forall p, In p ps ->
       exists v, eval_Read a table (snd (ToObject_field p)) = Ok v
                 /\ obj !! Property.Name p = Some v.
Proof.
  induction ps as [|p ps IH]; intros obj H; cbn [map ToObject_call] in H.
  - injection H as <-. split.
    + intros name. rewrite lookup_empty. simpl. split; [intros [? [=]]|tauto].
    + intros p [].
  - destruct (ToObject_field p) as [name r] eqn:E.
    assert (name = Property.Name p) as -> by (unfold ToObject_field in E; congruence).
    destruct (eval_Read a table r) as [v| | |] eqn:Ev; simpl in H; try discriminate H.
    destruct (ToObject_call a (map ToObject_field ps) table) as [m| | |] eqn:Em;
      simpl in H; try discriminate H.
    destruct (m !! Property.Name p) eqn:Ep; simpl in H; [discriminate H|]. injection H as <-.
    destruct (IH m eq_refl) as [Hdom Hval]. split.
    + intros name. destruct (decide (name = Property.Name p)) as [->|Hn].
      * rewrite lookup_insert_eq. split; [left; reflexivity|eauto].
      * rewrite lookup_insert_ne by congruence. rewrite Hdom. simpl.
        split; [tauto|intros [?|?]; [congruence|assumption]].
    + intros q [<-|Hq].
      * rewrite E. cbn [snd]. exists v. rewrite lookup_insert_eq. auto.
      * destruct (Hval q Hq) as (w & Hw & Hl). exists w. split; [exact Hw|].
        rewrite lookup_insert_ne; [exact Hl|].
        intros Heq. rewrite Heq in Ep. congruence.
Qed.

Lemma ToObject_call_total a table ps :
  NoDup (map Property.Name ps) ->
  (forall p, In p ps -> exists v, eval_Read a table (snd (ToObject_field p)) = Ok v) ->
  exists obj, ToObject_call a (map ToObject_field ps) table = Ok obj.
Proof.
  induction ps as [|p ps IH]; intros Hnd Hv; cbn [map ToObject_call]; [eauto|].
  cbn [map] in Hnd. apply NoDup_cons in Hnd as [Hp Hnd].
  destruct (IH Hnd) as [m Hm]; [intros q Hq; apply Hv; right; exact Hq|].
  destruct (Hv p (or_introl eq_refl)) as [v Hv'].
  destruct (ToObject_field p) as [name r] eqn:E.
  assert (name = Property.Name p) as -> by (unfold ToObject_field in E; congruence).
  cbn [snd] in Hv'. rewrite Hv', Hm. simpl.
  destruct (ToObject_call_lookup a table ps m Hm) as [Hdom _].
  destruct (m !! Property.Name p) eqn:Ep; [|eauto].
  exfalso. apply Hp. apply list_elem_of_In, Hdom. eauto.
Qed.

(** X14. A slot that is absent from the buffer is decoded as the zero value
    of the field's Go type: [false], [0], the empty string, the empty byte
    sequence. A buffer in which the slots of all properties are absent is
    decoded, and gives a struct with exactly the fields of the
    properties. *)
Theorem X14_absent_slot_is_zero a entity table :
  NoDup (map Property.Name (Entity.Properties entity)) ->
  (forall p, In p (Entity.Properties entity) ->
     4 <= Property.FbvTableOffset p /\ Z.even (Property.FbvTableOffset p) = true
     /\ is_Some (assoc type_names (Property.GoType p))) ->
  (forall obj p ty,
     ToObject_call a (ToObject entity) table = Ok obj ->
     In p (Entity.Properties entity) ->
     assoc type_names (Property.GoType p) = Some ty ->
     t_slots table !! ((Property.FbvTableOffset p - 4) / 2) = None ->
     obj !! Property.Name p = Some (zero_of ty))
  /\ ((forall p, In p (Entity.Properties entity) ->
         t_slots table !! ((Property.FbvTableOffset p - 4) / 2) = None) ->
      exists obj,
        ToObject_call a (ToObject entity) table = Ok obj
        /\ forall name, is_Some (obj !! name)
                        <-> In name (map Property.Name (Entity.Properties entity))).
Proof.
  intros Hnd Hps. split.
  - intros obj p ty Hobj Hp Hg Hs.
    destruct (Hps p Hp) as (H4 & He & _).
    destruct (ToObject_call_lookup a table _ obj Hobj) as [_ Hval].
    destruct (Hval p Hp) as (v & Hv & Hl).
    rewrite (absent_field a table p ty Hg H4 He Hs) in Hv. congruence.
  - intros Habs.
    destruct (ToObject_call_total a table (Entity.Properties entity) Hnd) as [obj Hobj].
    + intros p Hp. destruct (Hps p Hp) as (H4 & He & [ty Hg]).
      exists (zero_of ty). apply absent_field; auto.
    + exists obj. split; [exact Hobj|].
      apply (ToObject_call_lookup a table _ obj Hobj).
Qed.

Lemma X14_absent_slot_is_zero_witness :
  exists obj,
    ToObject_call arch64 (ToObject person) {| t_regions := []; t_slots := ∅ |} = Ok obj
    /\ obj !! "LastName"%string = Some (VString EmptyString)
    /\ obj !! "Age"%string = Some (VNum Int 0)
    /\ obj !! "Active"%string = Some (VBool false).
Proof.
  assert (Hnd : NoDup (map Property.Name (Entity.Properties person)))
    by (apply (bool_decide_eq_true_1 (NoDup _)); vm_compute; reflexivity).
  assert (Hps : forall p, In p (Entity.Properties person) ->
            4 <= Property.FbvTableOffset p /\ Z.even (Property.FbvTableOffset p) = true
            /\ is_Some (assoc type_names (Property.GoType p))).
  { intros p Hp. simpl in Hp.
    repeat (destruct Hp as [<-|Hp];
            [split; [vm_compute; discriminate|split; [reflexivity|vm_compute; eauto]]|]).
    contradiction. }
  destruct (X14_absent_slot_is_zero arch64 person {| t_regions := []; t_slots := ∅ |}
              Hnd Hps) as [Hzero Htotal].
  destruct Htotal as (obj & Hobj & _); [intros p _; apply lookup_empty|].
  exists obj. split; [exact Hobj|].
  split; [|split].
  - apply (Hzero obj (property "LastName" "string" "UOffsetT" 1) TString Hobj);
      [simpl; tauto|reflexivity|apply lookup_empty].
  - apply (Hzero obj (property "Age" "int" "Int32" 3) (TNum Int) Hobj);
      [simpl; tauto|reflexivity|apply lookup_empty].
  - apply (Hzero obj (property "Active" "bool" "Bool" 2) TBool Hobj);
      [simpl; tauto|reflexivity|apply lookup_empty].
Defined.


(** *** [Flatten] *)

Lemma run_agree a ent ent' id body :
  (forall s, In s body -> forall fr, step a ent id fr s = step a ent' id fr s) ->
  forall fr, run a ent id body fr = run a ent' id body fr.
Proof.
  induction body as [|s body IH]; intros H fr; simpl; [reflexivity|].
  rewrite (H s (or_introl eq_refl)).
  destruct (step a ent' id fr s); simpl; [|reflexivity..].
  apply IH. intros s' Hs'. apply H. right. exact Hs'.
Qed.

Lemma Flatten_offset_agree a entity ent ent' id p s :
  (Property.Name p = Property.Name (Entity.IdProperty entity) ->
   Property.FbType p <> "UOffsetT"%string) ->
  (forall name, name <> Property.Name (Entity.IdProperty entity) ->
     ent !! name = ent' !! name) ->
  In s (Flatten_offset p) ->
  forall fr, step a ent id fr s = step a ent' id fr s.
Proof.
  intros Hid Hag Hs fr. unfold Flatten_offset in Hs.
  destruct (String.eqb_spec (Property.FbType p) "UOffsetT") as [HF|HF];
    [|contradiction].
  assert (Hn : ent !! Property.Name p = ent' !! Property.Name p)
    by (apply Hag; intros E; exact (Hid E HF)).
  repeat match type of Hs with In _ (if ?b then _ else _) => destruct b end;
    destruct Hs as [<-|[]]; simpl; rewrite ?Hn; reflexivity.
Qed.

Lemma Flatten_slot_agree a entity ent ent' id p :
  (forall name, name <> Property.Name (Entity.IdProperty entity) ->
     ent !! name = ent' !! name) ->
  forall fr, step a ent id fr (Flatten_slot entity p)
             = step a ent' id fr (Flatten_slot entity p).
Proof.
  intros Hag fr. unfold Flatten_slot.
  destruct (String.eqb_spec (Property.FbType p) "UOffsetT") as [HF|HF];
    [reflexivity|].
  destruct (String.eqb_spec (Property.Name p)
              (Property.Name (Entity.IdProperty entity))) as [Hn|Hn]; [reflexivity|].
  pose proof (Hag _ Hn) as E.
  repeat match goal with |- context [if ?b then _ else _] => destruct b end;
    simpl; rewrite E; reflexivity.
Qed.

(** X15. [Flatten] never reads the identifier field of the struct: the
    identifier it writes is its parameter [id]. When no property stored by
    reference has the name of the identifier property, two structs that
    differ in that field only are encoded alike. *)
Theorem X15_Flatten_ignores_identifier_field a entity ent ent' id builder :
  (forall p, In p (Entity.Properties entity) ->
     Property.Name p = Property.Name (Entity.IdProperty entity) ->
     Property.FbType p <> "UOffsetT"%string) ->
  (forall name, name <> Property.Name (Entity.IdProperty entity) ->
     ent !! name = ent' !! name) ->
  Flatten_call a (Flatten entity) ent id builder
  = Flatten_call a (Flatten entity) ent' id builder.
Proof.
  intros Hid Hag. unfold Flatten_call.
  destruct (existsb declares_ent (Flatten entity)
            && negb (existsb uses_ent (Flatten entity))); [reflexivity|].
  rewrite (run_agree a ent ent' id (Flatten entity)); [reflexivity|].
  intros s Hs. unfold Flatten in Hs.
  apply in_app_or in Hs as [Hs|Hs].
  { destruct (Entity.HasNonIdProperty entity); [|contradiction].
    destruct Hs as [<-|[]]. reflexivity. }
  apply in_app_or in Hs as [Hs|Hs].
  { apply in_flat_map in Hs as (p & Hp & Hs).
    exact (Flatten_offset_agree a entity ent ent' id p s (Hid p Hp) Hag Hs). }
  apply in_app_or in Hs as [Hs|Hs].
  { destruct Hs as [<-|[]]. reflexivity. }
  apply in_map_iff in Hs as (p & <- & Hp).
  apply Flatten_slot_agree. exact Hag.
Qed.

Lemma X15_Flatten_ignores_identifier_field_witness :
  Flatten_call arch64 (Flatten person) (a_person 30 2) 42 NewBuilder
  = Flatten_call arch64 (Flatten person)
      (<["Id"%string := VNum Uint64 7]> (a_person 30 2)) 42 NewBuilder.
Proof.
  apply (X15_Flatten_ignores_identifier_field arch64 person).
  - intros p Hp. simpl in Hp.
    repeat (destruct Hp as [<-|Hp]; [vm_compute; intros; discriminate|]).
    contradiction.
  - intros name Hn. symmetry. apply lookup_insert_ne. simpl in Hn. congruence.
Defined.

Lemma write_slot_shape b slot x b' n m :
  vtable b = Some (n, m) -> write_slot b slot x = Ok b' ->
  0 <= slot < n /\ regions b' = regions b /\ vtable b' = Some (n, <[slot := x]> m).
Proof.
  intros Hv. unfold write_slot. rewrite Hv.
  destruct (Z.leb_spec 0 slot), (Z.ltb_spec slot n); simpl; intros [= <-];
    simpl; repeat split; lia.
Qed.

Lemma PrependSlot_shape a f slot v d b b' :
  PrependSlot a f slot v d b = Ok b' ->
  b' = b \/ exists x, write_slot b slot x = Ok b'.
Proof.
  unfold PrependSlot.
  destruct (assoc prepend_kinds f) as [[]|]; try discriminate;
    destruct v, d; try discriminate;
    repeat match goal with |- context [if ?c then _ else _] => destruct c end;
    try discriminate; intros H; first [injection H as <-; left; reflexivity|eauto].
Qed.

Lemma offsets_shape a ent id ps : forall fr fr',
  run a ent id (flat_map Flatten_offset ps) fr = Ok fr' ->
  vtable (fbb fr') = vtable (fbb fr)
  /\ exists added,
       regions (fbb fr') = regions (fbb fr) ++ added
       /\ length added
          = length (List.filter
                      (fun p => String.eqb (Property.FbType p) "UOffsetT") ps).
Proof.
  induction ps as [|p ps IH]; intros fr fr' H; simpl in H.
  - injection H as <-. split; [reflexivity|]. exists []. now rewrite app_nil_r.
  - rewrite run_app in H. cbn [List.filter].
    destruct (run a ent id (Flatten_offset p) fr) as [fr1| | |] eqn:E1;
      simpl in H; try discriminate H.
    destruct (IH fr1 fr' H) as (Hv & added & Hr & Hl).
    unfold Flatten_offset in E1.
    destruct (Property.FbType p =? "UOffsetT")%string.
    + assert (S1 : exists name creator,
                 step a ent id fr (S_offset name creator) = Ok fr1).
      { repeat match type of E1 with
               | context [if ?c then _ else _] => destruct c
               end; cbn [run] in E1;
          match type of E1 with
          | context [step _ _ _ _ (S_offset ?n ?c)] =>
              exists n, c; destruct (step a ent id fr (S_offset n c));
              simpl in E1; congruence
          | _ => simpl in E1; discriminate E1
          end. }
      destruct S1 as (name & creator & S1). simpl in S1.
      destruct (offsets fr !! name); [discriminate S1|].
      destruct (if ent_declared fr then _ else _) as [v| | |]; simpl in S1;
        try discriminate S1.
      destruct (match creator with EmptyString => _ | _ => _ end) as [data| | |];
        simpl in S1; try discriminate S1.
      unfold CreateVector in S1. destruct (vtable (fbb fr)) eqn:V; simpl in S1;
        [discriminate S1|].
      injection S1 as <-. simpl in *.
      split; [exact Hv|]. exists (data :: added).
      split; [rewrite Hr, <- app_assoc; reflexivity|simpl; now rewrite Hl].
    + simpl in E1. injection E1 as <-. split; [exact Hv|]. exists added. auto.
Qed.

Lemma slots_shape a entity ent id ps : forall fr fr' n m,
  vtable (fbb fr) = Some (n, m) ->
  run a ent id (map (Flatten_slot entity) ps) fr = Ok fr' ->
  regions (fbb fr') = regions (fbb fr)
  /\ exists m',
       vtable (fbb fr') = Some (n, m')
       /\ forall s, is_Some (m' !! s) ->
            is_Some (m !! s) \/ (0 <= s < n /\ In s (map Property.FbSlot ps)).
Proof.
  induction ps as [|p ps IH]; intros fr fr' n m Hv H; simpl in H.
  - injection H as <-. split; [reflexivity|]. exists m. split; [exact Hv|]. auto.
  - destruct (Flatten_slot_shape entity p) as (value & d & E). rewrite E in H.
    simpl in H.
    destruct (eval a ent id fr value) as [v| | |]; simpl in H; try discriminate H.
    destruct (PrependSlot a (Property.FbType p) (Property.FbSlot p) v d (fbb fr))
      as [b1| | |] eqn:P; simpl in H; try discriminate H.
    apply PrependSlot_shape in P as [->|[x W]].
    + destruct (IH {| ent_declared := ent_declared fr; offsets := offsets fr;
                      fbb := fbb fr |} fr' n m Hv H) as (Hr & m' & Hv' & Hm).
      split; [exact Hr|]. exists m'. split; [exact Hv'|].
      intros s Hs. destruct (Hm s Hs) as [?|[? ?]]; [auto|].
      right. split; [assumption|]. right. assumption.
    + destruct (write_slot_shape _ _ _ _ n m Hv W) as (Hs & Hr1 & Hv1).
      destruct (IH {| ent_declared := ent_declared fr; offsets := offsets fr;
                      fbb := b1 |} fr' n _ Hv1 H) as (Hr & m' & Hv' & Hm).
      simpl in Hr.
      split; [congruence|]. exists m'. split; [exact Hv'|].
      intros s Hs'. destruct (Hm s Hs') as [Hin|[? ?]].
      * destruct (decide (s = Property.FbSlot p)) as [->|Hne].
        -- right. split; [exact Hs|]. left. reflexivity.
        -- rewrite lookup_insert_ne in Hin by congruence. auto.
      * right. split; [assumption|]. right. assumption.
Qed.

(** X16. What a call of [Flatten] that returns has done to the builder: it
    found no slot region open, it added one child region for each property
    stored by reference and kept the regions that were there, and it left
    open a slot region of [lastPropertyId.id] slots in which nothing is
    written outside the slots of the properties. *)
Theorem X16_Flatten_builder_footprint a entity ent id builder builder' :
  Flatten_call a (Flatten entity) ent id builder = Ok builder' ->
  vtable builder = None
  /\ (exists added,
        regions builder' = regions builder ++ added
        /\ length added
           = length (List.filter
                       (fun p => String.eqb (Property.FbType p) "UOffsetT")
                       (Entity.Properties entity)))
  /\ exists m,
       vtable builder' = Some (IdUid.GetId (Entity.LastPropertyId entity), m)
       /\ forall s, is_Some (m !! s) ->
            0 <= s < IdUid.GetId (Entity.LastPropertyId entity)
            /\ In s (map Property.FbSlot (Entity.Properties entity)).
Proof.
  unfold Flatten_call.
  destruct (existsb declares_ent (Flatten entity)
            && negb (existsb uses_ent (Flatten entity))); [discriminate|].
  set (fr0 := {| ent_declared := false; offsets := ∅; fbb := builder |}).
  destruct (run a ent id (Flatten entity) fr0) as [fr| | |] eqn:R; simpl;
    try discriminate.
  intros [= <-]. unfold Flatten in R.
  rewrite run_app in R.
  destruct (run a ent id _ fr0) as [fr1| | |] eqn:R1; simpl in R; try discriminate R.
  assert (B1 : fbb fr1 = builder).
  { destruct (Entity.HasNonIdProperty entity); simpl in R1;
      injection R1 as <-; reflexivity. }
  rewrite run_app in R.
  destruct (run a ent id (flat_map Flatten_offset _) fr1) as [fr2| | |] eqn:R2;
    simpl in R; try discriminate R.
  destruct (offsets_shape a ent id _ fr1 fr2 R2) as (V2 & added & Hr2 & Hl).
  rewrite B1 in V2, Hr2.
  cbn [app run step] in R.
  unfold StartObject in R. rewrite V2 in R.
  destruct (vtable builder) eqn:V; simpl in R; [discriminate R|].
  destruct (IdUid.GetId (Entity.LastPropertyId entity) <? 0); simpl in R;
    [discriminate R|].
  match type of R with
  | run _ _ _ _ ?f = _ =>
      destruct (slots_shape a entity ent id _ f fr _ ∅ eq_refl R) as (Hr & m & Hv & Hm)
  end.
  simpl in Hr. split; [reflexivity|]. split.
  - exists added. split; [congruence|exact Hl].
  - exists m. split; [exact Hv|]. intros s Hs.
    destruct (Hm s Hs) as [[x Hx]|?]; [|assumption].
    rewrite lookup_empty in Hx. discriminate Hx.
Qed.

Lemma X16_Flatten_builder_footprint_witness :
  exists builder',
    Flatten_call arch64 (Flatten person) (a_person 30 2) 42 NewBuilder = Ok builder'
    /\ length (regions builder') = 2%nat
    /\ exists m, vtable builder' = Some (9, m).
Proof.
  assert (H : exists builder',
             Flatten_call arch64 (Flatten person) (a_person 30 2) 42 NewBuilder
             = Ok builder') by (vm_compute; eexists; reflexivity).
  destruct H as [builder' H]. exists builder'. split; [exact H|].
  destruct (X16_Flatten_builder_footprint arch64 person (a_person 30 2) 42
              NewBuilder builder' H) as (_ & (added & Hr & Hl) & m & Hv & _).
  split; [rewrite Hr; simpl; exact Hl|]. exists m. exact Hv.
Defined.

(** *** [GetId], [MakeSlice], [AppendToSlice] *)

(** X17. For a well-formed entity and a valid struct, [GetId] of what
    [ToObject] decodes from the buffer [Flatten] wrote is the identifier
    [Flatten] was given, with a nil error, whatever the identifier field of
    the encoded struct held. *)
Theorem X17_GetId_of_decoded a entity ent id :
  wf_entity entity -> well_typed a entity ent ->
  0 <= id < 2 ^ 64 ->
  roundtrip a entity ent id
    ≫= (fun obj => GetId_call (GetId entity) (ToObject_result entity obj))
  = Ok (id, None).
Proof.
  intros Hwf Hwt Hid.
  rewrite (roundtrip_exact a entity ent id Hwf Hwt Hid). simpl.
  rewrite String.eqb_refl, lookup_insert_eq. reflexivity.
Qed.

Lemma X17_GetId_of_decoded_witness :
  roundtrip arch64 person (a_person (-1) 2) 42
    ≫= (fun obj => GetId_call (GetId person) (ToObject_result person obj))
  = Ok (42, None).
Proof.
  apply (X17_GetId_of_decoded arch64 person (a_person (-1) 2) 42).
  - exact person_wf.
  - apply a_person_well_typed; lia.
  - lia.
Defined.

Lemma append_elements {A} (zero : A) new_cap s x :
  elements (append zero new_cap s x) = elements s ++ [x].
Proof.
  destruct s as [|e [|y sp]]; reflexivity.
Qed.

Lemma append_cap {A} (zero : A) new_cap s x :
  len s < cap s -> cap (append zero new_cap s x) = cap s.
Proof.
  destruct s as [|e [|y sp]]; unfold len, cap; simpl;
    rewrite ?length_app; simpl; rewrite ?length_app; simpl; lia.
Qed.

Lemma append_all_pointers new_cap entity targets : forall s0,
  exists s,
    append_all new_cap entity (I_slice (Entity.Name entity) s0)
      (map (I_ptr (Entity.Name entity)) targets)
    = Returned (I_slice (Entity.Name entity) s)
    /\ elements s = elements s0 ++ targets
    /\ (len s0 + Z.of_nat (length targets) <= cap s0 -> cap s = cap s0).
Proof.
  unfold Ptr in *.
  induction targets as [|x targets IH]; intros s0; simpl.
  - exists s0. rewrite app_nil_r. auto.
  - rewrite String.eqb_refl.
    destruct (IH (append None new_cap s0 x)) as (s & Hs & He & Hc).
    exists s. split; [exact Hs|]. split.
    + rewrite He, append_elements, <- app_assoc. reflexivity.
    + intros Hle.
      assert (Hlt : len s0 < cap s0) by (simpl length in Hle; lia).
      pose proof (append_cap None new_cap s0 x Hlt) as Hk.
      transitivity (cap (append None new_cap s0 x)); [|exact Hk].
      apply Hc. rewrite Hk.
      unfold len in *. rewrite append_elements, length_app.
      simpl length in *. lia.
Qed.

Lemma append_all_foreign new_cap entity e entities : forall slice,
  In e entities ->
  (forall target, e <> I_ptr (Entity.Name entity) target) ->
  exists msg, append_all new_cap entity slice entities = Panicked msg.
Proof.
  induction entities as [|x entities IH]; intros slice Hin Hf; [contradiction|].
  destruct Hin as [->|Hin]; simpl.
  - unfold AppendToSlice_call.
    destruct slice as [| |ty s]; eauto.
    destruct (ty =? Entity.Name entity)%string; eauto.
    destruct e as [|tn target|]; eauto.
    destruct (String.eqb_spec tn (Entity.Name entity)) as [->|]; eauto.
    exfalso. exact (Hf target eq_refl).
  - destruct (AppendToSlice_call new_cap entity slice x); eauto.
Qed.

(** X18. Collecting objects with the generated [MakeSlice] and
    [AppendToSlice]: for a capacity that is not negative and pointers to the
    entity's struct, the result is a slice of the entity's type holding
    these pointers in the order they were appended, and its capacity is the
    one asked for when the pointers are not more than that. An argument of
    another type makes the collection panic. *)
Theorem X18_collect_with_MakeSlice_AppendToSlice new_cap entity capacity :
  0 <= capacity ->
  (forall targets, exists s,
     collect new_cap entity capacity (map (I_ptr (Entity.Name entity)) targets)
     = Returned (I_slice (Entity.Name entity) s)
     /\ elements s = targets
     /\ (Z.of_nat (length targets) <= capacity -> cap s = capacity))
  /\ (forall e entities,
        In e entities ->
        (forall target, e <> I_ptr (Entity.Name entity) target) ->
        exists msg, collect new_cap entity capacity entities = Panicked msg).
Proof.
  intros Hc. unfold collect, MakeSlice_call.
  rewrite (proj2 (Z.ltb_ge capacity 0)) by lia. split.
  - intros targets.
    destruct (append_all_pointers new_cap entity targets
                (mk_slice [] (replicate (Z.to_nat capacity) None)))
      as (s & Hs & He & Hcap).
    exists s. split; [exact Hs|]. split; [exact He|].
    intros Hle. unfold Ptr in *. rewrite Hcap.
    + unfold cap. simpl. rewrite length_replicate. lia.
    + unfold len, cap. simpl. rewrite length_replicate. lia.
  - intros e entities Hin Hf. exact (append_all_foreign _ _ e entities _ Hin Hf).
Qed.

Lemma X18_collect_with_MakeSlice_AppendToSlice_witness :
  exists s,
    collect (fun n => 2 * n) person 2
      (map (I_ptr (Entity.Name person)) [Some (a_person 1 1); None])
    = Returned (I_slice "Person" s)
    /\ elements s = [Some (a_person 1 1); None]
    /\ (Z.of_nat 2 <= 2 -> cap s = 2).
Proof.
  apply (proj1 (X18_collect_with_MakeSlice_AppendToSlice (fun n => 2 * n) person 2
                  ltac:(lia)) [Some (a_person 1 1); None]).
Defined.


(** *** The narrow integer types *)

(** X19. What becomes of an [int] or [uint] field: [Flatten] writes it
    converted to 32 bits and [ToObject] reads the slot without sign, so where
    these types have 64 bits the field is decoded as its value modulo [2^32],
    and where they have 32 bits as the value itself. *)
Theorem X19_narrow_field_decoded_modulo a entity ent id fr p k z n m :
  (Property.GoType p = "int"%string /\ Property.FbType p = "Int32"%string /\ k = Int)
  \/ (Property.GoType p = "uint"%string /\ Property.FbType p = "Uint32"%string
      /\ k = Uint) ->
  Property.Name p <> Property.Name (Entity.IdProperty entity) ->
  ent_declared fr = true ->
  ent !! Property.Name p = Some (VNum k z) ->
  min_of a k <= z <= max_of a k ->
  vtable (fbb fr) = Some (n, m) ->
  m !! Property.FbSlot p = None ->
  0 <= Property.FbSlot p < n ->
  Property.FbvTableOffset p = 4 + 2 * Property.FbSlot p ->
  exists fr' table,
    step a ent id fr (Flatten_slot entity p) = Ok fr'
    /\ Finish (fbb fr') = Ok table
    /\ eval_Read a table (snd (ToObject_field p))
       = Ok (VNum k (match a with arch32 => z | arch64 => z mod 2 ^ 32 end)).
Proof.
  intros Hk Hn Hd He Hz Hv Hm Hs Ho.
  destruct fr as [dcl offs [regs vt]]. simpl in Hd, Hv. subst dcl vt.
  apply String.eqb_neq in Hn.
  unfold Flatten_slot, ToObject_field. rewrite Ho, Hn.
  destruct Hk as [(HG & HF & ->)|(HG & HF & ->)]; rewrite HG, HF; simpl;
    rewrite He; simpl.
  - change (assoc num_names "int32") with (Some Int32). cbv iota beta.
    rewrite (PrependSlot_ok a "Int32" _ (VNum Int32 (convert a Int32 z)) D_zero)
      by (first [exact Hs|split; reflexivity]).
    rewrite bind_Ok. eexists _, _. split; [reflexivity|]. split; [reflexivity|].
    rewrite (GetSlot_num a "Uint32" Int32 Uint32 _ (convert a Int32 z));
      [|reflexivity|simpl; lia|lia|apply put_same; exact Hm].
    simpl. change (assoc num_names "int") with (Some Int). cbv iota beta.
    do 2 f_equal.
    replace (convert a Uint32 (convert a Int32 z mod 2 ^ 32))
      with (z mod 2 ^ 32).
    + apply narrow_decoded; auto.
    + unfold convert. simpl. rewrite narrow_signed.
      symmetry. apply Z.mod_small, mod32_bound.
  - change (assoc num_names "uint32") with (Some Uint32). cbv iota beta.
    rewrite (PrependSlot_ok a "Uint32" _ (VNum Uint32 (convert a Uint32 z)) D_zero)
      by (first [exact Hs|split; reflexivity]).
    rewrite bind_Ok. eexists _, _. split; [reflexivity|]. split; [reflexivity|].
    rewrite (GetSlot_num a "Uint32" Uint32 Uint32 _ (convert a Uint32 z));
      [|reflexivity|simpl; lia|lia|apply put_same; exact Hm].
    simpl. change (assoc num_names "uint") with (Some Uint). cbv iota beta.
    do 2 f_equal.
    replace (convert a Uint32 (convert a Uint32 z mod 2 ^ 32))
      with (z mod 2 ^ 32).
    + apply narrow_decoded; auto.
    + unfold convert. simpl.
      rewrite !(Z.mod_small (z mod 2 ^ 32)) by apply mod32_bound. reflexivity.
Qed.

Lemma X19_narrow_field_decoded_modulo_witness :
  exists fr' table,
    step arch64 (a_person (-1) 2) 42
      {| ent_declared := true; offsets := ∅;
         fbb := {| regions := []; vtable := Some (9, ∅) |} |}
      (Flatten_slot person (property "Age" "int" "Int32" 3)) = Ok fr'
    /\ Finish (fbb fr') = Ok table
    /\ eval_Read arch64 table (snd (ToObject_field (property "Age" "int" "Int32" 3)))
       = Ok (VNum Int ((-1) mod 2 ^ 32)).
Proof.
  apply (X19_narrow_field_decoded_modulo arch64 person (a_person (-1) 2) 42
           {| ent_declared := true; offsets := ∅;
              fbb := {| regions := []; vtable := Some (9, ∅) |} |}
           (property "Age" "int" "Int32" 3) Int (-1) 9 ∅).
  - left. repeat split.
  - discriminate.
  - reflexivity.
  - reflexivity.
  - vm_compute. split; discriminate.
  - reflexivity.
  - reflexivity.
  - simpl. lia.
  - reflexivity.
Defined.


(** *** The flag [HasNonIdProperty] *)

Lemma step_keeps_ent_declared a ent id fr s fr' :
  declares_ent s = false -> step a ent id fr s = Ok fr' ->
  ent_declared fr' = ent_declared fr.
Proof.
  destruct s as [?|name creator|? ?|k|f slot value d]; simpl; try discriminate;
    intros _ H.
  - destruct (offsets fr !! name); [discriminate H|].
    destruct (if ent_declared fr then _ else _) as [v| | |]; simpl in H;
      try discriminate H.
    destruct (match creator with EmptyString => _ | _ => _ end) as [data| | |];
      simpl in H; try discriminate H.
    destruct (CreateVector (fbb fr) data) as [[o b]| | |]; simpl in H;
      try discriminate H.
    injection H as <-. reflexivity.
  - destruct (StartObject (fbb fr) k); simpl in H; try discriminate H.
    injection H as <-. reflexivity.
  - destruct (eval a ent id fr value); simpl in H; try discriminate H.
    destruct (PrependSlot a f slot _ d (fbb fr)); simpl in H; try discriminate H.
    injection H as <-. reflexivity.
Qed.

Lemma eval_needs_ent a ent id fr e :
  ent_declared fr = false -> uses_ent_Expr e = true ->
  eval a ent id fr e = CompileError "undefined: ent".
Proof.
  intros Hd. induction e as [| | |ty e IH]; simpl; try discriminate; intros Hu.
  - rewrite Hd. reflexivity.
  - rewrite (IH Hu). reflexivity.
Qed.

Lemma step_needs_ent a ent id fr s fr' :
  ent_declared fr = false ->
  uses_ent s = true \/ (exists name goType, s = S_todo name goType) ->
  step a ent id fr s <> Ok fr'.
Proof.
  intros Hd [Hu|(name & goType & ->)]; [|discriminate].
  destruct s as [?|name creator|? ?|k|f slot value d]; simpl in *; try discriminate.
  - rewrite Hd. destruct (offsets fr !! name); discriminate.
  - rewrite (eval_needs_ent a ent id fr value Hd Hu). discriminate.
Qed.

Lemma run_needs_ent a ent id s body : forall fr fr',
  In s body ->
  (forall s', In s' body -> declares_ent s' = false) ->
  uses_ent s = true \/ (exists name goType, s = S_todo name goType) ->
  ent_declared fr = false ->
  run a ent id body fr <> Ok fr'.
Proof.
  induction body as [|s0 body IH]; intros fr fr' Hin Hnd Hs Hd; [contradiction|].
  simpl. destruct (step a ent id fr s0) as [fr1| | |] eqn:E; simpl; try discriminate.
  destruct Hin as [->|Hin].
  - exfalso. exact (step_needs_ent a ent id fr s fr1 Hd Hs E).
  - apply IH; [exact Hin|intros s' Hs'; apply Hnd; right; exact Hs'|exact Hs|].
    rewrite (step_keeps_ent_declared a ent id fr s0 fr1 (Hnd s0 (or_introl eq_refl)) E).
    exact Hd.
Qed.

(** X21. The generated [Flatten] depends on the flag [HasNonIdProperty]
    being right. With the flag set on an entity that has nothing but
    identifier properties the method declares [ent] and never uses it, which
    Go rejects; with the flag not set on an entity that has a property stored
    by reference or one that is not the identifier, the method uses [ent]
    without declaring it, and no call of it returns. *)
Theorem X21_HasNonIdProperty_must_fit a entity ent id builder :
  (Entity.HasNonIdProperty entity = true ->
   (forall p, In p (Entity.Properties entity) ->
      Property.Name p = Property.Name (Entity.IdProperty entity)
      /\ Property.FbType p <> "UOffsetT"%string) ->
   Flatten_call a (Flatten entity) ent id builder
   = CompileError "ent declared and not used")
  /\ (Entity.HasNonIdProperty entity = false ->
      (exists p, In p (Entity.Properties entity)
         /\ (Property.FbType p = "UOffsetT"%string
             \/ Property.Name p <> Property.Name (Entity.IdProperty entity))) ->
      forall builder',
        Flatten_call a (Flatten entity) ent id builder <> Ok builder').
Proof.
  split.
  - intros Hflag Hall. unfold Flatten_call, Flatten. rewrite Hflag. simpl existsb.
    replace (existsb uses_ent _) with false; [reflexivity|]. symmetry.
    apply not_true_is_false. intros H. apply existsb_exists in H as (s & Hs & Hu).
    apply in_app_or in Hs as [Hs|Hs].
    + apply in_flat_map in Hs as (p & Hp & Hs). destruct (Hall p Hp) as [_ HF].
      unfold Flatten_offset in Hs. apply String.eqb_neq in HF. rewrite HF in Hs.
      contradiction.
    + destruct Hs as [<-|Hs]; [discriminate Hu|].
      apply in_map_iff in Hs as (p & <- & Hp). destruct (Hall p Hp) as [Hn HF].
      unfold Flatten_slot in Hu. apply String.eqb_neq in HF. rewrite HF in Hu.
      rewrite (proj2 (String.eqb_eq _ _) Hn) in Hu. discriminate Hu.
  - intros Hflag (p & Hp & Hcase) builder'. unfold Flatten_call.
    destruct (existsb declares_ent (Flatten entity)
              && negb (existsb uses_ent (Flatten entity))); [discriminate|].
    destruct (run a ent id (Flatten entity) _) as [fr| | |] eqn:R; simpl;
      try discriminate.
    exfalso. revert R. unfold Flatten. rewrite Hflag. simpl app.
    assert (Hs : exists s,
               In s (flat_map Flatten_offset (Entity.Properties entity)
                     ++ S_StartObject (IdUid.GetId (Entity.LastPropertyId entity))
                        :: map (Flatten_slot entity) (Entity.Properties entity))
               /\ (uses_ent s = true \/ exists name goType, s = S_todo name goType)).
    { destruct (String.eqb_spec (Property.FbType p) "UOffsetT") as [HF|HF].
      - assert (Ho : exists s, In s (Flatten_offset p)
                       /\ (uses_ent s = true
                           \/ exists name goType, s = S_todo name goType)).
        { unfold Flatten_offset. rewrite HF. simpl.
          repeat match goal with |- context [if ?c then _ else _] => destruct c end;
            eexists; (split; [left; reflexivity|]); simpl; eauto. }
        destruct Ho as (s & Hs & Hu). exists s. split; [|exact Hu].
        apply in_or_app. left. apply in_flat_map. eauto.
      - destruct Hcase as [HF'|Hn]; [contradiction|].
        exists (Flatten_slot entity p). split.
        + apply in_or_app. right. right. apply in_map, Hp.
        + left. unfold Flatten_slot. apply String.eqb_neq in HF, Hn.
          rewrite HF, Hn.
          repeat match goal with |- context [if ?c then _ else _] => destruct c end;
            reflexivity. }
    destruct Hs as (s & Hs & Hu).
    apply (run_needs_ent a ent id s _ _ fr Hs); [|exact Hu|reflexivity].
    intros s' Hs'. apply in_app_or in Hs' as [Hs'|[<-|Hs']].
    + apply in_flat_map in Hs' as (q & _ & Hq). unfold Flatten_offset in Hq.
      repeat match type of Hq with In _ (if ?c then _ else _) => destruct c end;
        simpl in Hq; try contradiction; destruct Hq as [<-|[]]; reflexivity.
    + reflexivity.
    + apply in_map_iff in Hs' as (q & <- & _).
      destruct (Flatten_slot_shape entity q) as (value & d & ->). reflexivity.
Qed.


Lemma X21_HasNonIdProperty_must_fit_witness :
  Flatten_call arch64 (Flatten id_only_flagged) ∅ 42 NewBuilder
  = CompileError "ent declared and not used"
  /\ forall builder',
       Flatten_call arch64 (Flatten person_unflagged) (a_person 30 2) 42 NewBuilder
       <> Ok builder'.
Proof.
  split.
  - apply (proj1 (X21_HasNonIdProperty_must_fit arch64 id_only_flagged ∅ 42 NewBuilder)).
    + reflexivity.
    + intros p [<-|[]]. split; [reflexivity|discriminate].
  - apply (proj2 (X21_HasNonIdProperty_must_fit arch64 person_unflagged
                    (a_person 30 2) 42 NewBuilder)).
    + reflexivity.
    + exists (property "LastName" "string" "UOffsetT" 1).
      split; [simpl; tauto|left; reflexivity].
Defined.

End templates_programs.
